(** * Recommendation core: priority mapping, candidate and measure matching,
      and the caching orchestrator

    A shallow embedding of the TypeScript services
      - [PriorityMappingService]   (priority-mapping-service.ts)
      - [CandidateMatchingService] (candidate-matching-service.ts)
      - [BallotMeasureService]     (ballot-measure-service.ts)
      - [RecommendationService]    (recommendation-service.ts)
    together with the static data they read (test/mock-data.ts,
    test/test-helpers.ts).

    Conventions of the embedding.
      - A JavaScript string is a [string]: a sequence of code units, here
        the code units below 256.  Case folding, white space and ordering
        are those of JavaScript on that range.
      - The scores of the two matchers are JavaScript numbers computed by
        additions and multiplications: they are binary64 values
        ([PrimFloat.float]), so that rounding, and the order it induces,
        are the program's.  The mapper's confidences, weights and tallies
        are literals, ratios of lengths and counts; they are rationals
        [Q].
      - An object that the source compares by identity ([===]) carries its
        address ([Obj]).
      - A thrown value is a [thrown]; code that can throw returns an
        [outcome].
      - The mutable parts (the request's priorities array, the result
        cache, and the call counts a test double would record) live in a
        [World] that is threaded through the orchestrator.
      - Values have the types the interfaces declare; logging through
        [console.error] is left out. *)

From Stdlib Require Import Floats.
From Stdlib Require Import String Ascii List Bool Arith NArith QArith Qminmax.
From Stdlib Require Import Lia Lqa Permutation Sorted.
From stdpp Require Import base option list gmap strings sorting.
Import ListNotations.
Open Scope string_scope.

(** Decimal literals such as 0.2 stand for the nearest binary64 value, as
    they do in JavaScript. *)
#[global] Set Warnings "-inexact-float".

(* ===================================================================== *)
(** * JavaScript string primitives                                        *)
(* ===================================================================== *)

Module JS.

Definition code (c : ascii) : N := N_of_ascii c.

(** White space and line terminators, as [String.prototype.trim] and the
    regular-expression class [\s] see them (tab, LF, VT, FF, CR, space,
    no-break space). *)
Definition isWhiteSpace (c : ascii) : bool :=
  let n := code c in
  ((9 <=? n) && (n <=? 13) || (n =? 32) || (n =? 160))%N.

(** [toLowerCase] on one code unit: A-Z, and the accented capitals
    U+00C0-U+00DE except the multiplication sign U+00D7. *)
Definition lowerChar (c : ascii) : ascii :=
  let n := code c in
  if ((65 <=? n) && (n <=? 90)
      || (192 <=? n) && (n <=? 222) && negb (n =? 215))%N
  then ascii_of_N (n + 32) else c.

Fixpoint toLowerCase (s : string) : string :=
  match s with
  | EmptyString => EmptyString
  | String c s' => String (lowerChar c) (toLowerCase s')
  end.

Fixpoint trimStart (s : string) : string :=
  match s with
  | EmptyString => EmptyString
  | String c s' => if isWhiteSpace c then trimStart s' else s
  end.

Fixpoint trimEnd (s : string) : string :=
  match s with
  | EmptyString => EmptyString
  | String c s' =>
      match trimEnd s' with
      | EmptyString => if isWhiteSpace c then EmptyString else String c EmptyString
      | t => String c t
      end
  end.

Definition trim (s : string) : string := trimEnd (trimStart s).

Definition startsWith (s sub : string) : bool := String.prefix sub s.

(** [s.includes(sub)] *)
Fixpoint includes (s sub : string) : bool :=
  startsWith s sub
  || match s with
     | EmptyString => false
     | String _ s' => includes s' sub
     end.

(** [arr.includes(x)] on an array of strings (strict equality). *)
Definition arrayIncludes (arr : list string) (x : string) : bool :=
  existsb (String.eqb x) arr.

(** [arr.join(sep)] *)
Definition join (sep : string) (arr : list string) : string :=
  String.concat sep arr.

(** [s.split(/\s+/)]: the pieces between maximal runs of white space; a
    leading or trailing run leaves an empty piece at that end. *)
Fixpoint splitWsFrom (cur : string) (inGap : bool) (s : string) : list string :=
  match s with
  | EmptyString => [cur]
  | String c s' =>
      if isWhiteSpace c
      then (if inGap then splitWsFrom cur true s'
            else cur :: splitWsFrom EmptyString true s')
      else splitWsFrom (cur ++ String c EmptyString) false s'
  end.

Definition splitWs (s : string) : list string := splitWsFrom EmptyString false s.

(** [s.replace(/\s+/g, rep)] *)
Fixpoint replaceWsFrom (inGap : bool) (rep s : string) : string :=
  match s with
  | EmptyString => EmptyString
  | String c s' =>
      if isWhiteSpace c
      then (if inGap then replaceWsFrom true rep s'
            else rep ++ replaceWsFrom true rep s')
      else String c (replaceWsFrom false rep s')
  end.

Definition replaceWs (rep s : string) : string := replaceWsFrom false rep s.

(** The default order of [Array.prototype.sort]: code units,
    lexicographically. *)
Definition strLe (a b : string) : Prop := String.leb a b = true.

#[global] Instance strLe_dec a b : Decision (strLe a b).
Proof. unfold strLe. apply _. Defined.

(** [arr.sort()] on an array of strings. *)
Definition sort (arr : list string) : list string := merge_sort strLe arr.

(** A [Set<string>] in insertion order. *)
Definition setAdd (s : list string) (x : string) : list string :=
  if arrayIncludes s x then s else s ++ [x].

(** A stable [arr.sort((a, b) => cmp a b)] for a comparator that returns a
    number: [a] is moved behind [b] only when [cmp a b > 0]. *)
Fixpoint insertBy {A} (cmp : A -> A -> Q) (x : A) (l : list A) : list A :=
  match l with
  | [] => [x]
  | y :: l' =>
      if Qle_bool (cmp x y) 0 then x :: y :: l' else y :: insertBy cmp x l'
  end.

Definition sortBy {A} (cmp : A -> A -> Q) (l : list A) : list A :=
  fold_right (insertBy cmp) [] l.


(** [a > b] on binary64 numbers; false when either is NaN. *)
Definition gtNumber (a b : float) : bool := (b <? a)%float.

(** [Math.min(a, b)]: NaN when either is NaN, and -0 below +0. *)
Definition mathMin (a b : float) : float :=
  if is_nan a || is_nan b then nan
  else if (a <? b)%float then a
  else if (b <? a)%float then b
  else if get_sign a then a else b.

(** A stable [arr.sort((a, b) => cmp a b)] for a comparator that returns a
    binary64 number: [a] is moved behind [b] only when [cmp a b > 0]. *)
Fixpoint insertByNumber {A} (cmp : A -> A -> float) (x : A) (l : list A) : list A :=
  match l with
  | [] => [x]
  | y :: l' =>
      if gtNumber (cmp x y) 0 then y :: insertByNumber cmp x l' else x :: y :: l'
  end.

Definition sortByNumber {A} (cmp : A -> A -> float) (l : list A) : list A :=
  fold_right (insertByNumber cmp) [] l.

End JS.

(* ===================================================================== *)
(** * Regular expressions (the fragment the patterns use)                 *)
(* ===================================================================== *)

Module Regex.

Inductive regex : Type :=
| Nul                                  (* matches nothing *)
| Eps                                  (* matches the empty string *)
| Chr (accept : ascii -> bool)         (* one code unit *)
| Cat (r1 r2 : regex)
| Alt (r1 r2 : regex)
| Star (r : regex).

Definition cat (r1 r2 : regex) : regex :=
  match r1, r2 with
  | Nul, _ => Nul
  | _, Nul => Nul
  | Eps, _ => r2
  | _, Eps => r1
  | _, _ => Cat r1 r2
  end.

Definition alt (r1 r2 : regex) : regex :=
  match r1, r2 with
  | Nul, _ => r2
  | _, Nul => r1
  | _, _ => Alt r1 r2
  end.

Fixpoint nullable (r : regex) : bool :=
  match r with
  | Nul => false
  | Eps => true
  | Chr _ => false
  | Cat r1 r2 => nullable r1 && nullable r2
  | Alt r1 r2 => nullable r1 || nullable r2
  | Star _ => true
  end.

Fixpoint deriv (c : ascii) (r : regex) : regex :=
  match r with
  | Nul => Nul
  | Eps => Nul
  | Chr accept => if accept c then Eps else Nul
  | Cat r1 r2 =>
      if nullable r1
      then alt (cat (deriv c r1) r2) (deriv c r2)
      else cat (deriv c r1) r2
  | Alt r1 r2 => alt (deriv c r1) (deriv c r2)
  | Star r1 => cat (deriv c r1) (Star r1)
  end.

(** Does some prefix of [s] match [r]? *)
Fixpoint matchesPrefix (r : regex) (s : string) : bool :=
  nullable r
  || match s with
     | EmptyString => false
     | String c s' => matchesPrefix (deriv c r) s'
     end.

(** [r.test(s)] for a pattern without the global or sticky flag: is there
    a match starting at some position of [s]? *)
Fixpoint test (r : regex) (s : string) : bool :=
  matchesPrefix r s
  || match s with
     | EmptyString => false
     | String _ s' => test r s'
     end.

(** A literal code unit under the [i] flag. *)
Definition chrI (c : ascii) : regex :=
  Chr (fun x => Ascii.eqb (JS.lowerChar x) (JS.lowerChar c)).

(** A literal word under the [i] flag. *)
Fixpoint wordI (w : string) : regex :=
  match w with
  | EmptyString => Eps
  | String c w' => Cat (chrI c) (wordI w')
  end.

(** [\s+] *)
Definition spaces : regex := Cat (Chr JS.isWhiteSpace) (Star (Chr JS.isWhiteSpace)).

End Regex.

(* ===================================================================== *)
(** * JSON.stringify on the shapes the cache key uses                     *)
(* ===================================================================== *)

Module JSON.

Definition dquote : ascii := "034"%char.
Definition backslash : ascii := "092"%char.

Definition hexDigit (n : N) : ascii :=
  if (n <? 10)%N then ascii_of_N (48 + n) else ascii_of_N (87 + n).

(** One code unit of a quoted JSON string. *)
Definition escapeChar (c : ascii) : string :=
  let n := JS.code c in
  if (n =? 8)%N then String backslash "b"
  else if (n =? 9)%N then String backslash "t"
  else if (n =? 10)%N then String backslash "n"
  else if (n =? 12)%N then String backslash "f"
  else if (n =? 13)%N then String backslash "r"
  else if (n =? 34)%N then String backslash (String dquote EmptyString)
  else if (n =? 92)%N then String backslash (String backslash EmptyString)
  else if (n <? 32)%N
       then String backslash
              ("u00" ++ String (hexDigit (n / 16)) (String (hexDigit (n mod 16)) EmptyString))
  else String c EmptyString.

Fixpoint escape (s : string) : string :=
  match s with
  | EmptyString => EmptyString
  | String c s' => escapeChar c ++ escape s'
  end.

(** [JSON.stringify(s)] for a string [s]. *)
Definition quote (s : string) : string :=
  String dquote (escape s ++ String dquote EmptyString).

(** [JSON.stringify(arr)] for an array of strings. *)
Definition stringifyArray (arr : list string) : string :=
  "[" ++ JS.join "," (map quote arr) ++ "]".

(** Reading back: the value of a hexadecimal digit. *)
Definition hexValue (c : ascii) : option N :=
  let n := JS.code c in
  if ((48 <=? n) && (n <=? 57))%N then Some (n - 48)%N
  else if ((97 <=? n) && (n <=? 102))%N then Some (n - 87)%N
  else None.

(** Reading back the body of a quoted string up to its closing quote;
    returns the string and what follows the quote. *)
Fixpoint unquoteBody (s : string) : option (string * string) :=
  let cons c r := match r with Some (t, rest) => Some (String c t, rest) | None => None end in
  match s with
  | EmptyString => None
  | String c s' =>
      if Ascii.eqb c dquote then Some (EmptyString, s')
      else if Ascii.eqb c backslash then
        match s' with
        | String e s'' =>
            if Ascii.eqb e "u" then
              match s'' with
              | String _ (String _ (String h (String l r))) =>
                  match hexValue h, hexValue l with
                  | Some vh, Some vl => cons (ascii_of_N (16 * vh + vl)) (unquoteBody r)
                  | _, _ => None
                  end
              | _ => None
              end
            else if Ascii.eqb e "b" then cons (ascii_of_N 8) (unquoteBody s'')
            else if Ascii.eqb e "t" then cons (ascii_of_N 9) (unquoteBody s'')
            else if Ascii.eqb e "n" then cons (ascii_of_N 10) (unquoteBody s'')
            else if Ascii.eqb e "f" then cons (ascii_of_N 12) (unquoteBody s'')
            else if Ascii.eqb e "r" then cons (ascii_of_N 13) (unquoteBody s'')
            else if Ascii.eqb e dquote then cons dquote (unquoteBody s'')
            else if Ascii.eqb e backslash then cons backslash (unquoteBody s'')
            else None
        | EmptyString => None
        end
      else cons c (unquoteBody s')
  end.

Definition unquote (s : string) : option (string * string) :=
  match s with
  | String c s' => if Ascii.eqb c dquote then unquoteBody s' else None
  | EmptyString => None
  end.

(** The elements of a stringified array, from after the opening bracket. *)
Fixpoint arrayTail (quoted : list string) : string :=
  match quoted with
  | [] => "]"
  | q :: rest => "," ++ q ++ arrayTail rest
  end.

Definition arrayBody (quoted : list string) : string :=
  match quoted with
  | [] => "]"
  | q :: rest => q ++ arrayTail rest
  end.

End JSON.

(* ===================================================================== *)
(** * Exceptions                                                          *)
(* ===================================================================== *)

(** What a [throw] can carry: an [Error] object with its message, or some
    other value, of which only its truthiness is observed. *)
Inductive thrown : Type :=
| ErrorObject (message : string)
| NonError (truthy : bool).

Inductive outcome (A : Type) : Type :=
| Returned (a : A)
| Threw (e : thrown).
Arguments Returned {A} a.
Arguments Threw {A} e.

(** [error instanceof Error ? error.message : 'Unknown error'] *)
Definition errorText (e : thrown) : string :=
  match e with
  | ErrorObject m => m
  | NonError _ => "Unknown error"
  end.

Definition isTruthy (e : thrown) : bool :=
  match e with
  | ErrorObject _ => true
  | NonError b => b
  end.

(* ===================================================================== *)
(** * Data model (types/priority-mapping.ts, types/recommendation.ts)     *)
(* ===================================================================== *)

Inductive PoliticalCategory : Type :=
| EDUCATION | ECONOMY | HEALTHCARE | ENVIRONMENT | INFRASTRUCTURE
| PUBLIC_SAFETY | SOCIAL_SERVICES | HOUSING | IMMIGRATION | FOREIGN_POLICY
| CIVIL_RIGHTS | TAXATION | TECHNOLOGY | AGRICULTURE | ENERGY | DEFENSE
| LABOR | TRANSPORTATION | CRIMINAL_JUSTICE | ELECTORAL_REFORM.

#[global] Instance PoliticalCategory_eq_dec : EqDecision PoliticalCategory.
Proof. solve_decision. Defined.

Record PolicyApproach : Type := {
  pa_name : string;
  pa_conflictingApproaches : option (list string)
}.

Record PoliticalIssue : Type := {
  iss_id : string;
  iss_name : string;
  iss_description : option string;
  iss_category : PoliticalCategory;
  iss_synonyms : list string;
  iss_relatedTerms : list string;
  iss_weight : Q;
  iss_policyApproaches : option (list PolicyApproach);
  iss_opposingIssues : option (list string)
}.

Inductive Severity : Type := SevLow | SevMedium | SevHigh.
Inductive ConflictType : Type := CtResource | CtImplementation | CtPolicy.

Record ConflictDefinition : Type := {
  cd_issues : string * string;
  cd_reason : string;
  cd_severity : Severity;
  cd_type : ConflictType;
  cd_possibleCompromises : list string
}.

Record IssueMatch : Type := {
  im_issue : PoliticalIssue;
  im_confidence : Q;
  im_matchedTerms : list string
}.

Record MappedPriority : Type := {
  mp_userPriority : string;
  mp_mappedIssues : list IssueMatch
}.

Inductive FlagType : Type := FlagExtreme | FlagOutOfScope.

Record FlaggedPriority : Type := {
  fp_userPriority : string;
  fp_flagType : FlagType;
  fp_reason : string
}.

Record PriorityAnalysis : Type := {
  mappedPriorities : list MappedPriority;
  dominantCategories : list PoliticalCategory;
  potentialConflicts : list ConflictDefinition;
  flaggedPriorities : list FlaggedPriority
}.

Inductive Stance : Type := Support | Oppose | Neutral.

Record CandidatePosition : Type := {
  pos_issue : string;
  pos_stance : Stance;
  pos_strength : float
}.

Record Candidate : Type := {
  cand_id : string;
  cand_name : string;
  cand_party : string;
  cand_office : string;
  cand_positions : list CandidatePosition
}.

Record CandidateMatch : Type := {
  cm_candidate : Candidate;
  cm_alignmentScore : float;
  cm_matchedPriorities : list string;
  cm_rationale : string
}.

Record BallotMeasure : Type := {
  bm_id : string;
  bm_title : string;
  bm_description : string;
  bm_applicableLocations : list string;
  bm_supporters : list string;
  bm_opposers : list string;
  bm_categories : list string
}.

Record MeasureImpactAnalysis : Type := {
  positiveImpacts : list string;
  negativeImpacts : list string;
  uncertainImpacts : list string
}.

Record BallotMeasureMatch : Type := {
  bmm_ballotMeasure : BallotMeasure;
  bmm_relevanceScore : float;
  bmm_relevantPriorities : list string;
  bmm_explanation : string;
  bmm_pros : list string;
  bmm_cons : list string;
  bmm_impactAnalysis : MeasureImpactAnalysis;
  bmm_isFallback : bool
}.

Inductive Mode : Type := current | demo.

#[global] Instance Mode_eq_dec : EqDecision Mode.
Proof. solve_decision. Defined.

Record RecommendationRequest : Type := {
  priorities : list string;
  zipCode : string;
  mode : Mode
}.

(** The three alignment marks of a presented candidate (check mark,
    warning sign, cross). *)
Inductive AlignmentMark : Type := MarkAligned | MarkPartial | MarkLow.

Record PresentedCandidate : Type := {
  pc_name : string;
  pc_office : string;
  pc_party : string;
  pc_positionSummary : string;
  pc_platformHighlights : list string;
  pc_rationale : string;
  pc_officialWebsite : string;
  pc_alignmentScore : float;
  pc_alignment : AlignmentMark
}.

Record PresentedMeasure : Type := {
  pm_title : string;
  pm_description : string;
  pm_supporters : list string;
  pm_opposers : list string;
  pm_explanation : string;
  pm_relevanceScore : float;
  pm_ballotpediaLink : string
}.

Record PolicyRecommendations : Type := {
  topPolicies : list string;
  explanation : string
}.

Record RecommendationsResult : Type := {
  candidates : list PresentedCandidate;
  ballotMeasures : list PresentedMeasure;
  policyRecommendations : PolicyRecommendations;
  error : option string
}.

(** An object as a reference sees it: the address it lives at and what
    it holds.  [a === b] on two references is equality of the
    addresses. *)
Record Obj (A : Type) : Type := {
  address : nat;
  contents : A
}.
Arguments address {A} o.
Arguments contents {A} o.

Definition sameObject {A} (a b : Obj A) : bool := (address a =? address b)%nat.

(** The entries of the static rosters are objects with different
    contents: on them the embedding compares contents where the source
    compares references ([results.includes(issue)]); in
    [findPolicyConflicts], whose argument is any array of issues, it
    compares addresses. *)
#[global] Instance Q_eq_dec : EqDecision Q.
Proof. solve_decision. Defined.
#[global] Instance PolicyApproach_eq_dec : EqDecision PolicyApproach.
Proof. solve_decision. Defined.
#[global] Instance PoliticalIssue_eq_dec : EqDecision PoliticalIssue.
Proof. solve_decision. Defined.

(* ===================================================================== *)
(** * Static data and helpers (test/mock-data.ts)                         *)
(* ===================================================================== *)

Module MockData.

Definition mkIssue (id name : string) (category : PoliticalCategory)
    (synonyms relatedTerms : list string) (weight : Q) : PoliticalIssue :=
  {| iss_id := id; iss_name := name; iss_description := None;
     iss_category := category; iss_synonyms := synonyms;
     iss_relatedTerms := relatedTerms; iss_weight := weight;
     iss_policyApproaches := None; iss_opposingIssues := None |}.

Definition MOCK_POLITICAL_ISSUES : list PoliticalIssue :=
  [ mkIssue "taxes" "Taxation" ECONOMY
      ["tax"; "taxes"; "tax reform"; "tax relief"; "tax reduction"]
      ["income tax"; "property tax"; "tax burden"; "tax cuts"; "lower taxes"]
      1;
    mkIssue "small_business" "Small Business Support" ECONOMY
      ["small business"; "business support"; "entrepreneurship"]
      ["local business"; "business owners"; "small business loans"; "business regulation"]
      (9 # 10);
    mkIssue "public_education" "Public Education" EDUCATION
      ["schools"; "education"; "public schools"; "school funding"]
      ["teachers"; "students"; "classrooms"; "school quality"; "better schools";
       "education funding"]
      1;
    mkIssue "education_equity" "Education Equity" EDUCATION
      ["fair education"; "equal education"; "access to education"; "educational equality"]
      ["achievement gap"; "school funding equity"; "education opportunity";
       "fair access to schools"; "equitable school resources"]
      (9 # 10);
    mkIssue "healthcare_access" "Healthcare Access" HEALTHCARE
      ["healthcare"; "medical care"; "health insurance"; "affordable healthcare";
       "public health"]
      ["doctor"; "hospital"; "medical costs"; "health coverage"; "healthcare reform";
       "health measures"; "public health services"]
      1;
    mkIssue "climate_change" "Climate Change" ENVIRONMENT
      ["global warming"; "climate action"; "climate crisis"; "environmental protection";
       "water quality"; "pollution control"]
      ["carbon emissions"; "climate policy"; "clean energy"; "green spaces"; "park access";
       "urban greening"; "water protection"; "clean water"; "industrial pollution";
       "emissions control"]
      1;
    mkIssue "road_maintenance" "Road Maintenance" INFRASTRUCTURE
      ["roads"; "highways"; "street repair"]
      ["potholes"; "road construction"; "fix roads"; "road quality"; "neighborhood roads"]
      (8 # 10);
    mkIssue "social_equity" "Social Equity" SOCIAL_SERVICES
      ["equity"; "equality"; "social justice"; "fairness"; "economic justice"]
      ["equal opportunity"; "fair treatment"; "diversity"; "inclusion"; "justice";
       "fair hiring"; "living wage"; "worker protections"; "equal pay";
       "environmental justice"]
      (9 # 10) ].

Definition MOCK_ISSUE_CONFLICTS : list ConflictDefinition :=
  [ {| cd_issues := ("taxes", "public_education");
       cd_reason := "Lowering taxes may reduce funding available for public education";
       cd_severity := SevHigh;
       cd_type := CtResource;
       cd_possibleCompromises :=
         ["Targeted tax incentives for education";
          "Efficiency improvements in education spending"] |};
    {| cd_issues := ("road_maintenance", "taxes");
       cd_reason := "Infrastructure improvements require funding that may conflict with tax reduction goals";
       cd_severity := SevMedium;
       cd_type := CtResource;
       cd_possibleCompromises :=
         ["Public-private partnerships for infrastructure";
          "Targeted infrastructure bonds"] |} ].

(** [MOCK_POLITICAL_ISSUES[0]] *)
Definition firstMockIssue : PoliticalIssue :=
  nth 0 MOCK_POLITICAL_ISSUES (mkIssue "" "" EDUCATION [] [] 0).

Definition inCategories (cats : list PoliticalCategory) (issue : PoliticalIssue) : bool :=
  existsb (fun c => bool_decide (iss_category issue = c)) cats.

(** The special cases at the head of [findIssuesByKeywords]; [None] when
    none of them returns. *)
Definition specialCaseIssues (joinedKeywords : string) : option (list PoliticalIssue) :=
  let has := JS.includes joinedKeywords in
  if has "education" && has "equity" then
    Some (List.filter (inCategories [EDUCATION; SOCIAL_SERVICES]) MOCK_POLITICAL_ISSUES)
  else if has "economic" && has "justice" then
    Some (List.filter (inCategories [ECONOMY; SOCIAL_SERVICES]) MOCK_POLITICAL_ISSUES)
  else if has "environmental justice" then
    Some (List.filter (inCategories [ENVIRONMENT; SOCIAL_SERVICES]) MOCK_POLITICAL_ISSUES)
  else if has "environment" || has "climate" then
    Some (List.filter (inCategories [ENVIRONMENT; HEALTHCARE]) MOCK_POLITICAL_ISSUES)
  else if has "healthcare" || has "medical" then
    Some (List.filter (inCategories [HEALTHCARE]) MOCK_POLITICAL_ISSUES)
  else if (has "tax" && has "education") || (has "lower taxes" && has "funding") then
    Some (List.filter
            (fun issue => String.eqb (iss_id issue) "taxes"
                          || String.eqb (iss_id issue) "public_education")
            MOCK_POLITICAL_ISSUES)
  else None.

(** One keyword against one issue in the standard matching loop. *)
Definition keywordMatchesIssue (normalizedKeyword : string) (issue : PoliticalIssue) : bool :=
  let either term :=
    JS.includes normalizedKeyword (JS.toLowerCase term)
    || JS.includes (JS.toLowerCase term) normalizedKeyword in
  let matchesSynonym := existsb either (iss_synonyms issue) in
  let matchesRelatedTerm := existsb either (iss_relatedTerms issue) in
  matchesSynonym || matchesRelatedTerm.

(** [results.includes(issue)] *)
Definition hasIssue (results : list PoliticalIssue) (issue : PoliticalIssue) : bool :=
  existsb (fun other => bool_decide (other = issue)) results.

(** The body of the inner [forEach] of the standard matching loop. *)
Definition addIfMatching (normalizedKeyword : string)
    (results : list PoliticalIssue) (issue : PoliticalIssue) : list PoliticalIssue :=
  if keywordMatchesIssue normalizedKeyword issue
  then (if hasIssue results issue then results else (results ++ [issue])%list)
  else results.

(** The body of the outer [forEach]. *)
Definition matchKeyword (results : list PoliticalIssue) (keyword : string)
    : list PoliticalIssue :=
  let normalizedKeyword := JS.trim (JS.toLowerCase keyword) in
  fold_left (addIfMatching normalizedKeyword) MOCK_POLITICAL_ISSUES results.

(** The standard matching loop: [results] after both [forEach]s. *)
Definition standardMatches (keywords : list string) : list PoliticalIssue :=
  fold_left matchKeyword keywords [].

Definition wordTouchesIssue (word : string) (issue : PoliticalIssue) : bool :=
  JS.includes (JS.toLowerCase (iss_name issue)) word
  || existsb (fun s => JS.includes (JS.toLowerCase s) word) (iss_synonyms issue)
  || existsb (fun t => JS.includes (JS.toLowerCase t) word) (iss_relatedTerms issue).

(** The two nested [for] loops of the fallback: the first issue touched by
    the first word of three or more code units that touches one. *)
Fixpoint firstWordHit (words : list string) : option PoliticalIssue :=
  match words with
  | [] => None
  | word :: rest =>
      if (String.length word <? 3)%nat then firstWordHit rest
      else match List.find (wordTouchesIssue word) MOCK_POLITICAL_ISSUES with
           | Some issue => Some issue
           | None => firstWordHit rest
           end
  end.

Definition findIssuesByKeywords (keywords : list string) : list PoliticalIssue :=
  let joinedKeywords := JS.toLowerCase (JS.join " " keywords) in
  match specialCaseIssues joinedKeywords with
  | Some found => found
  | None =>
      let results := standardMatches keywords in
      if (length results =? 0)%nat then
        let words := JS.splitWs (JS.toLowerCase (JS.join " " keywords)) in
        match firstWordHit words with
        | Some issue => [issue]
        | None => [firstMockIssue]
        end
      else results
  end.

Definition detectConflicts (issues : list PoliticalIssue) : list ConflictDefinition :=
  let issueIds := map iss_id issues in
  List.filter
    (fun conflict =>
       JS.arrayIncludes issueIds (fst (cd_issues conflict))
       && JS.arrayIncludes issueIds (snd (cd_issues conflict)))
    MOCK_ISSUE_CONFLICTS.

End MockData.

(* ===================================================================== *)
(** * Static rosters (test/test-helpers.ts)                               *)
(* ===================================================================== *)

Module TestHelpers.

Definition mkPosition (issue : string) (stance : Stance) (strength : float)
    : CandidatePosition :=
  {| pos_issue := issue; pos_stance := stance; pos_strength := strength |}.

Definition createMockCandidates : list Candidate :=
  [ {| cand_id := "candidate-1"; cand_name := "Jane Smith"; cand_party := "Democrat";
       cand_office := "President";
       cand_positions :=
         [ mkPosition "Healthcare Reform" Support 0.9;
           mkPosition "Environmental Protection" Support 0.8;
           mkPosition "Tax Reform" Neutral 0.5 ] |};
    {| cand_id := "candidate-2"; cand_name := "John Doe"; cand_party := "Republican";
       cand_office := "President";
       cand_positions :=
         [ mkPosition "Tax Reform" Support 0.9;
           mkPosition "Second Amendment" Support 0.9;
           mkPosition "Healthcare Reform" Oppose 0.7 ] |};
    {| cand_id := "candidate-3"; cand_name := "Sam Johnson"; cand_party := "Independent";
       cand_office := "Senator";
       cand_positions :=
         [ mkPosition "Environmental Protection" Support 0.9;
           mkPosition "Education Funding" Support 0.8;
           mkPosition "Tax Reform" Support 0.6 ] |} ].

Definition createMockBallotMeasures : list BallotMeasure :=
  [ {| bm_id := "measure-1";
       bm_title := "Prop 123: Education Funding";
       bm_description := "Increases funding for public schools through a 0.5% sales tax";
       bm_applicableLocations := ["94110"; "94103"; "94107"];
       bm_supporters := ["Teachers Union"; "Parents Association"];
       bm_opposers := ["Taxpayers Association"; "Small Business Federation"];
       bm_categories := ["EDUCATION"; "ECONOMY"] |};
    {| bm_id := "measure-2";
       bm_title := "Prop 456: Transit Expansion";
       bm_description := "Authorizes $500M bond for public transit improvements";
       bm_applicableLocations := ["94110"; "94103"; "10001"; "10002"];
       bm_supporters := ["Transit Advocates"; "Climate Action Group"];
       bm_opposers := ["Taxpayers Association"];
       bm_categories := ["INFRASTRUCTURE"; "ENVIRONMENT"] |};
    {| bm_id := "measure-3";
       bm_title := "Prop 789: Healthcare Access (NY Only)";
       bm_description := "Expands healthcare access for low-income residents in NY";
       bm_applicableLocations := ["10001"; "10002"; "10003"];
       bm_supporters := ["Healthcare Workers Union NY"; "Community Clinics Association NY"];
       bm_opposers := ["Chamber of Commerce NY"];
       bm_categories := ["HEALTHCARE"; "SOCIAL_SERVICES"] |} ].

End TestHelpers.

(* ===================================================================== *)
(** * PriorityMappingService                                              *)
(* ===================================================================== *)

Module PriorityMappingService.

Import MockData.

Record ExtremePattern : Type := {
  ep_pattern : Regex.regex;
  ep_flagType : FlagType;
  ep_reason : string
}.

Definition wordThenWord (w : string) (r : Regex.regex) : Regex.regex :=
  Regex.Cat (Regex.wordI w) (Regex.Cat Regex.spaces r).

Definition EXTREME_PRIORITY_PATTERNS : list ExtremePattern :=
  [ {| ep_pattern :=
         wordThenWord "imprison" (Regex.Alt (Regex.wordI "judges") (Regex.wordI "officials"));
       ep_flagType := FlagExtreme;
       ep_reason := "Advocates for potentially extra-judicial actions." |};
    {| ep_pattern := wordThenWord "trade" (Regex.wordI "war");
       ep_flagType := FlagExtreme;
       ep_reason := "Suggests a drastic and potentially harmful economic policy." |};
    {| ep_pattern := wordThenWord "gold" (Regex.wordI "standard");
       ep_flagType := FlagOutOfScope;
       ep_reason := "Represents a niche economic theory not typically covered." |};
    {| ep_pattern :=
         wordThenWord "abolish" (Regex.Alt (Regex.wordI "taxes") (Regex.wordI "government"));
       ep_flagType := FlagExtreme;
       ep_reason := "Suggests a fundamental dismantling of core government functions." |} ].

Definition normalizeText (text : string) : string := JS.trim (JS.toLowerCase text).

Definition lengthQ (s : string) : Q := inject_Z (Z.of_nat (String.length s)).

(** [calculateTermMatch]; the quotient is the source's for a priority
    that is not the empty string. *)
Definition calculateTermMatch (priority : string) (terms : list string) : Q :=
  let normalizedPriority := normalizeText priority in
  fold_left
    (fun maxScore term =>
       let normalizedTerm := normalizeText term in
       if JS.includes normalizedPriority normalizedTerm then
         let score :=
           ((lengthQ term / lengthQ priority)
            * (if JS.startsWith normalizedPriority normalizedTerm then 12 # 10 else 1))%Q in
         Qmax maxScore score
       else maxScore)
    terms 0%Q.

Definition hasIssueId (mappedIssues : list PoliticalIssue) (id : string) : bool :=
  existsb (fun i => String.eqb (iss_id i) id) mappedIssues.

Definition approachesConflict (approach1 approach2 : PolicyApproach) : bool :=
  let lists a b :=
    match pa_conflictingApproaches a with
    | Some names => JS.arrayIncludes names (pa_name b)
    | None => false
    end in
  lists approach1 approach2 || lists approach2 approach1.

Definition approachConflict (issue1 issue2 : PoliticalIssue)
    (approach1 approach2 : PolicyApproach) : ConflictDefinition :=
  {| cd_issues := (iss_id issue1, iss_id issue2);
     cd_reason :=
       "Conflicting approaches: " ++ pa_name approach1 ++ " vs " ++ pa_name approach2;
     cd_severity := SevMedium;
     cd_type := CtImplementation;
     cd_possibleCompromises :=
       [ "Consider balanced approach between " ++ pa_name approach1
           ++ " and " ++ pa_name approach2;
         "Seek expert mediation for implementation strategy" ] |}.

Definition oppositionConflict (issue opposingIssue : PoliticalIssue)
    (opposingId : string) : ConflictDefinition :=
  {| cd_issues := (iss_id issue, opposingId);
     cd_reason :=
       "Direct policy opposition between " ++ iss_name issue
         ++ " and " ++ iss_name opposingIssue;
     cd_severity := SevHigh;
     cd_type := CtPolicy;
     cd_possibleCompromises :=
       [ "Seek balanced approach considering both perspectives";
         "Consider phased implementation to address concerns" ] |}.

(** First loop of [findPolicyConflicts]: the table entries whose pair is
    present. *)
Definition directConflicts (ISSUE_CONFLICTS : list ConflictDefinition)
    (mappedIssues : list PoliticalIssue) : list ConflictDefinition :=
  List.filter
    (fun conflict =>
       hasIssueId mappedIssues (fst (cd_issues conflict))
       && hasIssueId mappedIssues (snd (cd_issues conflict)))
    ISSUE_CONFLICTS.

(** Second loop: conflicting policy approaches of two issues that are
    not the same object ([issue1 === issue2] skips the pair). *)
Definition approachConflicts (mappedIssues : list (Obj PoliticalIssue))
    : list ConflictDefinition :=
  flat_map
    (fun issue1 =>
       match iss_policyApproaches (contents issue1) with
       | None => []
       | Some approaches1 =>
           flat_map
             (fun issue2 =>
                if sameObject issue1 issue2 then []
                else
                  match iss_policyApproaches (contents issue2) with
                  | None => []
                  | Some approaches2 =>
                      flat_map
                        (fun approach1 =>
                           flat_map
                             (fun approach2 =>
                                if approachesConflict approach1 approach2
                                then [approachConflict (contents issue1) (contents issue2)
                                        approach1 approach2]
                                else [])
                             approaches2)
                        approaches1
                  end)
             mappedIssues
       end)
    mappedIssues.

(** Third loop: declared opposing issues that are present. *)
Definition oppositionConflicts (mappedIssues : list PoliticalIssue) : list ConflictDefinition :=
  flat_map
    (fun issue =>
       match iss_opposingIssues issue with
       | None => []
       | Some opposing =>
           flat_map
             (fun opposingId =>
                match List.find (fun i => String.eqb (iss_id i) opposingId) mappedIssues with
                | Some opposingIssue => [oppositionConflict issue opposingIssue opposingId]
                | None => []
                end)
             opposing
       end)
    mappedIssues.

(** [findPolicyConflicts]; the table [ISSUE_CONFLICTS] of
    data/political-issues is a parameter.  The first and the third loop
    read the issues, the second one also tells the objects apart. *)
Definition findPolicyConflicts (ISSUE_CONFLICTS : list ConflictDefinition)
    (mappedIssues : list (Obj PoliticalIssue)) : list ConflictDefinition :=
  (directConflicts ISSUE_CONFLICTS (map contents mappedIssues)
     ++ approachConflicts mappedIssues
     ++ oppositionConflicts (map contents mappedIssues))%list.

(** The confidence [mapSinglePriority] gives one issue. *)
Definition singleConfidence (priority : string) (issue : PoliticalIssue) : Q :=
  let synonymMatch : Q :=
    if existsb
         (fun syn => String.eqb (normalizeText priority) (normalizeText syn))
         (iss_synonyms issue)
    then 1%Q else 0%Q in
  let termMatch :=
    calculateTermMatch priority (iss_synonyms issue ++ iss_relatedTerms issue)%list in
  Qmax synonymMatch (termMatch * iss_weight issue)%Q.


(** The patterns are tried in order; the first that matches wins. *)
Definition firstPattern (priority : string) : option ExtremePattern :=
  List.find (fun ep => Regex.test (ep_pattern ep) priority) EXTREME_PRIORITY_PATTERNS.

Definition isBlank (priority : string) : bool :=
  (String.length (JS.trim priority) =? 0)%nat.

(** One turn of the first loop of [analyzePriorities]. *)
Definition classify (acc : list FlaggedPriority * list string) (priority : string)
    : list FlaggedPriority * list string :=
  let '(flaggedPriorities, validPrioritiesToMap) := acc in
  if isBlank priority then acc
  else
    match firstPattern priority with
    | Some extremePattern =>
        ((flaggedPriorities
            ++ [ {| fp_userPriority := priority;
                    fp_flagType := ep_flagType extremePattern;
                    fp_reason := ep_reason extremePattern |} ])%list,
         validPrioritiesToMap)
    | None => (flaggedPriorities, (validPrioritiesToMap ++ [priority])%list)
    end.

Definition climateIssueLiteral : PoliticalIssue :=
  {| iss_id := "climate-change";
     iss_name := "Climate Change";
     iss_description :=
       Some "Policies related to addressing climate change and environmental protection";
     iss_category := ENVIRONMENT;
     iss_synonyms := ["climate"; "environment"; "green"; "sustainability"];
     iss_relatedTerms := ["global warming"; "carbon emissions"; "renewable energy"];
     iss_weight := 1;
     iss_policyApproaches := None;
     iss_opposingIssues := None |}.

(** The issues the body of the [map] callback works with after the call
    to [findIssuesByKeywords] and the climate [push]. *)
Definition matchingIssuesFor (priority : string) : list PoliticalIssue :=
  let matchingIssues := findIssuesByKeywords [priority] in
  if JS.includes (JS.toLowerCase priority) "climate" then
    if existsb (fun issue => String.eqb (iss_id issue) "climate-change") matchingIssues
    then matchingIssues
    else (matchingIssues ++ [climateIssueLiteral])%list
  else matchingIssues.

(** The callback of [validPrioritiesToMap.map]. *)
Definition mapValidPriority (priority : string) : MappedPriority :=
  let climateIssueFromMockData :=
    if JS.includes (JS.toLowerCase priority) "climate"
    then List.find (fun issue => String.eqb (iss_id issue) "climate_change")
           MOCK_POLITICAL_ISSUES
    else None in
  match climateIssueFromMockData with
  | Some climateIssue =>
      {| mp_userPriority := priority;
         mp_mappedIssues :=
           [ {| im_issue := climateIssue;
                im_confidence := 9 # 10;
                im_matchedTerms := ["climate change"; "climate"] |} ] |}
  | None =>
      let matchingIssues := matchingIssuesFor priority in
      if (length matchingIssues =? 0)%nat then
        let words := JS.splitWs (JS.toLowerCase priority) in
        let fallbackIssues :=
          List.filter
            (fun issue =>
               existsb
                 (fun word =>
                    JS.includes (JS.toLowerCase (iss_name issue)) word
                    || existsb (fun syn => JS.includes (JS.toLowerCase syn) word)
                         (iss_synonyms issue))
                 words)
            MOCK_POLITICAL_ISSUES in
        let issueToUse := nth 0 fallbackIssues firstMockIssue in
        {| mp_userPriority := priority;
           mp_mappedIssues :=
             [ {| im_issue := issueToUse;
                  im_confidence := 5 # 10;
                  im_matchedTerms := [priority] |} ] |}
      else
        {| mp_userPriority := priority;
           mp_mappedIssues :=
             map (fun issue =>
                    {| im_issue := issue;
                       im_confidence := 8 # 10;
                       im_matchedTerms := [priority] |})
               matchingIssues |}
  end.

(** [categoryCounts], in the order its keys are written. *)
Definition initialCategoryCounts : list (PoliticalCategory * nat) :=
  map (fun c => (c, 0%nat))
    [ EDUCATION; ECONOMY; HEALTHCARE; ENVIRONMENT; INFRASTRUCTURE;
      PUBLIC_SAFETY; SOCIAL_SERVICES; HOUSING; IMMIGRATION; FOREIGN_POLICY;
      CIVIL_RIGHTS; TAXATION; TECHNOLOGY; AGRICULTURE; ENERGY; DEFENSE;
      LABOR; TRANSPORTATION; CRIMINAL_JUSTICE; ELECTORAL_REFORM ].

(** [categoryCounts[category] += 1] *)
Definition bump (counts : list (PoliticalCategory * nat)) (category : PoliticalCategory)
    : list (PoliticalCategory * nat) :=
  map (fun '(c, n) => if bool_decide (c = category) then (c, S n) else (c, n)) counts.

(** One turn of [mappedPriorities.forEach] over the tallies; every
    category is a key of [categoryCounts]. *)
Definition tally (counts : list (PoliticalCategory * nat)) (mappedPriority : MappedPriority)
    : list (PoliticalCategory * nat) :=
  let issueCategories :=
    map (fun mi => iss_category (im_issue mi)) (mp_mappedIssues mappedPriority) in
  let counts := fold_left bump issueCategories counts in
  let lower := JS.toLowerCase (mp_userPriority mappedPriority) in
  let counts :=
    if JS.includes lower "economic justice" || JS.includes lower "advocate"
    then bump (bump counts SOCIAL_SERVICES) ECONOMY
    else counts in
  if JS.includes lower "environmental health"
  then bump (bump (bump counts SOCIAL_SERVICES) ENVIRONMENT) HEALTHCARE
  else counts.

Definition countQ (entry : PoliticalCategory * nat) : Q := inject_Z (Z.of_nat (snd entry)).

Definition analyzePriorities (priorities : list string) : PriorityAnalysis :=
  let '(flaggedPriorities, validPrioritiesToMap) := fold_left classify priorities ([], []) in
  let mappedPriorities := map mapValidPriority validPrioritiesToMap in
  let categoryCounts := fold_left tally mappedPriorities initialCategoryCounts in
  let dominantCategories :=
    map fst
      (firstn 3
         (JS.sortBy (fun a b => countQ b - countQ a)%Q
            (List.filter (fun entry => (0 <? snd entry)%nat) categoryCounts))) in
  let allIssues :=
    flat_map (fun mp => map im_issue (mp_mappedIssues mp)) mappedPriorities in
  let potentialConflicts := detectConflicts allIssues in
  {| mappedPriorities := mappedPriorities;
     dominantCategories := dominantCategories;
     potentialConflicts := potentialConflicts;
     flaggedPriorities := flaggedPriorities |}.

End PriorityMappingService.

(* ===================================================================== *)
(** * CandidateMatchingService                                            *)
(* ===================================================================== *)

Record MatchOptions : Type := {
  opt_mode : option Mode;
  opt_zipCode : option string
}.

Module CandidateMatchingService.

(** The test inside the two nested [forEach]s. *)
Definition positionHit (position : CandidatePosition) (priority : string) : bool :=
  let positionIssue := JS.toLowerCase (pos_issue position) in
  let priorityLower := JS.toLowerCase priority in
  JS.includes priorityLower positionIssue || JS.includes positionIssue priorityLower.

(** The running [alignmentScore] and [matchedPrioritiesSet]. *)
Definition scanPriority (position : CandidatePosition)
    (acc : float * list string) (priority : string) : float * list string :=
  if positionHit position priority
  then ((fst acc + 0.2 * pos_strength position)%float, JS.setAdd (snd acc) priority)
  else acc.

Definition scanPosition (userPriorities : list string)
    (acc : float * list string) (position : CandidatePosition) : float * list string :=
  fold_left (scanPriority position) userPriorities acc.

Definition scanCandidate (userPriorities : list string) (candidate : Candidate)
    : float * list string :=
  fold_left (scanPosition userPriorities) (cand_positions candidate) (0%float, []).

Definition matchCandidate (userPriorities : list string) (candidate : Candidate)
    : CandidateMatch :=
  let priorityKeywords := JS.toLowerCase (JS.join " " userPriorities) in
  let '(sum, matchedPrioritiesSet) := scanCandidate userPriorities candidate in
  let alignmentScore := JS.mathMin 1 sum in
  let alignmentScore :=
    if JS.includes priorityKeywords "climate" && String.eqb (cand_name candidate) "Sam Johnson"
    then 0.9%float
    else if JS.includes priorityKeywords "tax" && String.eqb (cand_name candidate) "John Doe"
    then 0.85%float
    else if JS.includes priorityKeywords "healthcare"
            && String.eqb (cand_name candidate) "Jane Smith"
    then 0.8%float
    else alignmentScore in
  let alignmentScore :=
    if JS.includes priorityKeywords "extremely specific" || (length userPriorities =? 0)%nat
    then 0.3%float
    else alignmentScore in
  let rationale := cand_name candidate ++ " aligns with your priorities" in
  let rationale :=
    if (0 <? length matchedPrioritiesSet)%nat
    then rationale ++ " on " ++ JS.join " and " matchedPrioritiesSet
    else match userPriorities with
         | first :: _ => rationale ++ " on " ++ first
         | [] => rationale
         end in
  {| cm_candidate := candidate;
     cm_alignmentScore := alignmentScore;
     cm_matchedPriorities :=
       if (0 <? length matchedPrioritiesSet)%nat
       then matchedPrioritiesSet else firstn 1 userPriorities;
     cm_rationale := rationale |}.

Definition findMatchingCandidates (priorityAnalysis : PriorityAnalysis)
    (options : option MatchOptions) : list CandidateMatch :=
  let candidates := TestHelpers.createMockCandidates in
  let userPriorities := map mp_userPriority (mappedPriorities priorityAnalysis) in
  let matches := map (matchCandidate userPriorities) candidates in
  JS.sortByNumber (fun a b => cm_alignmentScore b - cm_alignmentScore a)%float matches.

End CandidateMatchingService.

(* ===================================================================== *)
(** * BallotMeasureService                                                *)
(* ===================================================================== *)

Record MeasureOptions : Type := {
  mopt_mode : option Mode
}.

Module BallotMeasureService.

Definition measureHit (measure : BallotMeasure) (category priority : string) : bool :=
  let categoryLower := JS.toLowerCase category in
  let priorityLower := JS.toLowerCase priority in
  JS.includes priorityLower categoryLower
  || JS.includes (JS.toLowerCase (bm_title measure)) priorityLower
  || JS.includes (JS.toLowerCase (bm_description measure)) priorityLower.

Definition scanPriority (measure : BallotMeasure) (category : string)
    (acc : float * list string) (priority : string) : float * list string :=
  if measureHit measure category priority
  then ((fst acc + 0.1)%float, JS.setAdd (snd acc) priority)
  else acc.

Definition scanCategory (measure : BallotMeasure) (userPriorities : list string)
    (acc : float * list string) (category : string) : float * list string :=
  fold_left (scanPriority measure category) userPriorities acc.

Definition generateImpactAnalysis (measure : BallotMeasure)
    (priorityAnalysis : PriorityAnalysis) : MeasureImpactAnalysis :=
  {| positiveImpacts := ["Could improve quality of life"; "May address key community needs"];
     negativeImpacts := ["Potential tax implications"; "May have unintended consequences"];
     uncertainImpacts := ["Long-term effects unclear"; "Implementation timeline uncertain"] |}.

(** Reading [measure.categories[0].toLowerCase()] on a measure without
    categories. *)
Definition noFirstCategory : thrown :=
  ErrorObject "Cannot read properties of undefined (reading 'toLowerCase')".

(** The callback of [measures.map]. *)
Definition matchMeasure (priorityAnalysis : PriorityAnalysis) (zipCode : string)
    (userPriorities : list string) (locationCount : nat) (measure : BallotMeasure)
    : outcome BallotMeasureMatch :=
  let priorityKeywords := JS.toLowerCase (JS.join " " userPriorities) in
  let '(sum, relevantPrioritiesSet) :=
    fold_left (scanCategory measure userPriorities) (bm_categories measure)
      (0.5%float, []) in
  let relevanceScore := JS.mathMin 1 sum in
  let relevanceScore :=
    if JS.includes priorityKeywords "transport" && JS.includes (bm_title measure) "Transit"
    then 0.9%float
    else if JS.includes priorityKeywords "education"
            && JS.includes (bm_title measure) "Education"
    then 0.85%float
    else if JS.includes priorityKeywords "healthcare"
            && JS.includes (bm_title measure) "Healthcare"
    then 0.8%float
    else relevanceScore in
  let relevanceScore :=
    if JS.includes priorityKeywords "extremely specific" || (length userPriorities =? 0)%nat
    then 0.3%float
    else relevanceScore in
  let isFallback := (locationCount =? 0)%nat || String.eqb zipCode "00000" in
  match bm_categories measure with
  | [] => Threw noFirstCategory
  | firstCategory :: _ =>
      let explanation := "This measure relates to " ++ JS.toLowerCase firstCategory in
      let explanation :=
        match relevantPrioritiesSet with
        | firstRelevant :: _ =>
            explanation ++ " which aligns with your priority of " ++ firstRelevant
        | [] =>
            match userPriorities with
            | first :: _ =>
                explanation ++ " which may be relevant to your interest in " ++ first
            | [] => explanation
            end
        end in
      Returned
        {| bmm_ballotMeasure := measure;
           bmm_relevanceScore := relevanceScore;
           bmm_relevantPriorities :=
             if (0 <? length relevantPrioritiesSet)%nat
             then relevantPrioritiesSet else firstn 1 userPriorities;
           bmm_explanation := explanation;
           bmm_pros := ["Could benefit local communities"; "Addresses important issues"];
           bmm_cons := ["May increase costs"; "Implementation challenges exist"];
           bmm_impactAnalysis := generateImpactAnalysis measure priorityAnalysis;
           bmm_isFallback := isFallback |}
  end.

(** [arr.map(f)] for a callback that can throw: the first throw ends it. *)
Fixpoint mapOutcome {A B} (f : A -> outcome B) (l : list A) : outcome (list B) :=
  match l with
  | [] => Returned []
  | x :: l' =>
      match f x with
      | Threw e => Threw e
      | Returned y =>
          match mapOutcome f l' with
          | Threw e => Threw e
          | Returned ys => Returned (y :: ys)
          end
      end
  end.

(** [findRelevantMeasures] over a roster. *)
Definition findRelevantMeasuresIn (allMeasures : list BallotMeasure)
    (priorityAnalysis : PriorityAnalysis) (zipCode : string)
    (options : option MeasureOptions) : outcome (list BallotMeasureMatch) :=
  let userPriorities := map mp_userPriority (mappedPriorities priorityAnalysis) in
  let locationMeasures :=
    List.filter (fun measure => JS.arrayIncludes (bm_applicableLocations measure) zipCode)
      allMeasures in
  let measures :=
    if (0 <? length locationMeasures)%nat then locationMeasures else allMeasures in
  match mapOutcome
          (matchMeasure priorityAnalysis zipCode userPriorities (length locationMeasures))
          measures with
  | Threw e => Threw e
  | Returned result =>
      Returned
        (JS.sortByNumber (fun a b => bmm_relevanceScore b - bmm_relevanceScore a)%float
           result)
  end.

Definition findRelevantMeasures : PriorityAnalysis -> string -> option MeasureOptions
    -> outcome (list BallotMeasureMatch) :=
  findRelevantMeasuresIn TestHelpers.createMockBallotMeasures.

End BallotMeasureService.

(* ===================================================================== *)
(** * RecommendationService                                               *)
(* ===================================================================== *)

(** The three collaborators handed to the constructor.  Each may throw. *)
Record Services : Type := {
  priorityMapper : list string -> outcome PriorityAnalysis;
  candidateMatcher : PriorityAnalysis -> option MatchOptions -> outcome (list CandidateMatch);
  ballotMeasureAnalyzer :
    PriorityAnalysis -> string -> option MeasureOptions -> outcome (list BallotMeasureMatch)
}.

Inductive Service : Type := PriorityMapper | CandidateMatcher | MeasureMatcher.

#[global] Instance Service_eq_dec : EqDecision Service.
Proof. solve_decision. Defined.

(** What a call can change: the request object of the caller, the cache of
    the service instance, and the record of collaborator calls (what
    [toHaveBeenCalledTimes] reads on a test double). *)
Record World : Type := {
  request : RecommendationRequest;
  cache : gmap string RecommendationsResult;
  calls : list Service
}.

Module RecommendationService.

Definition M (A : Type) : Type := World -> outcome A * World.

Definition ret {A} (a : A) : M A := fun w => (Returned a, w).

Definition throw {A} (e : thrown) : M A := fun w => (Threw e, w).

Definition bind {A B} (m : M A) (k : A -> M B) : M B :=
  fun w =>
    match m w with
    | (Returned a, w') => k a w'
    | (Threw e, w') => (Threw e, w')
    end.

(** [try { m } catch (error) { handler error }] *)
Definition tryCatch {A} (m : M A) (handler : thrown -> M A) : M A :=
  fun w =>
    match m w with
    | (Returned a, w') => (Returned a, w')
    | (Threw e, w') => handler e w'
    end.

Notation "x <- m ;; k" := (bind m (fun x => k))
  (at level 100, m at next level, right associativity).
Notation "m ;;; k" := (bind m (fun _ => k))
  (at level 100, right associativity).

Definition getRequest : M RecommendationRequest := fun w => (Returned (request w), w).

(** A call to a collaborator is recorded, then made. *)
Definition invoke {A} (who : Service) (result : outcome A) : M A :=
  fun w =>
    (result,
     {| request := request w; cache := cache w; calls := (calls w ++ [who])%list |}).

Definition modeText (m : Mode) : string :=
  match m with
  | current => "current"
  | demo => "demo"
  end.

Definition field (name : string) : string := JSON.quote name ++ ":".

(** [JSON.stringify({ priorities, zipCode, mode })] *)
Definition stringifyKey (sortedPriorities : list string) (zip : string) (m : Mode) : string :=
  "{" ++ field "priorities" ++ JSON.stringifyArray sortedPriorities
      ++ "," ++ field "zipCode" ++ JSON.quote zip
      ++ "," ++ field "mode" ++ JSON.quote (modeText m) ++ "}".

(** [generateCacheKey]: [request.priorities.sort()] reorders the array of
    the request itself. *)
Definition generateCacheKey : M string :=
  fun w =>
    let sorted := JS.sort (priorities (request w)) in
    let request' :=
      {| priorities := sorted;
         zipCode := zipCode (request w);
         mode := mode (request w) |} in
    (Returned (stringifyKey sorted (zipCode request') (mode request')),
     {| request := request'; cache := cache w; calls := calls w |}).

(** [this.cache.has(key) ? this.cache.get(key) : undefined] *)
Definition cacheGet (key : string) : M (option RecommendationsResult) :=
  fun w => (Returned (cache w !! key), w).

(** [this.cache.set(key, result)] *)
Definition cacheSet (key : string) (result : RecommendationsResult) : M unit :=
  fun w =>
    (Returned tt,
     {| request := request w; cache := <[key := result]> (cache w); calls := calls w |}).

Definition generatePolicyRecommendations (priorityAnalysis : PriorityAnalysis)
    : PolicyRecommendations :=
  let top := map mp_userPriority (mappedPriorities priorityAnalysis) in
  {| topPolicies :=
       if (0 <? length top)%nat then top
       else ["No specific policy focus identified from priorities."];
     explanation := "These recommendations are based on your stated priorities." |}.

Definition stanceText (p : CandidatePosition) : string :=
  match pos_stance p with
  | Support => "Supports"
  | Oppose => "Opposes"
  | Neutral => "Neutral on"
  end.

(** [generatePositionSummary]; a [Candidate] always has its positions. *)
Definition generatePositionSummary (candidate : Candidate) : string :=
  JS.join ", "
    (map (fun p => stanceText p ++ " " ++ JS.toLowerCase (pos_issue p))
       (firstn 3 (cand_positions candidate))).

Definition generatePlatformHighlights (candidate : Candidate) : list string :=
  map (fun p => stanceText p ++ " " ++ pos_issue p) (cand_positions candidate).

Definition presentCandidate (m : CandidateMatch) : PresentedCandidate :=
  {| pc_name := cand_name (cm_candidate m);
     pc_office := cand_office (cm_candidate m);
     pc_party := cand_party (cm_candidate m);
     pc_positionSummary := generatePositionSummary (cm_candidate m);
     pc_platformHighlights := generatePlatformHighlights (cm_candidate m);
     pc_rationale := cm_rationale m;
     pc_officialWebsite :=
       "https://example.com/"
         ++ JS.replaceWs "-" (JS.toLowerCase (cand_name (cm_candidate m)));
     pc_alignmentScore := cm_alignmentScore m;
     pc_alignment :=
       if JS.gtNumber (cm_alignmentScore m) 0.7 then MarkAligned
       else if JS.gtNumber (cm_alignmentScore m) 0.4 then MarkPartial
       else MarkLow |}.

Definition presentMeasure (m : BallotMeasureMatch) : PresentedMeasure :=
  {| pm_title := bm_title (bmm_ballotMeasure m);
     pm_description := bm_description (bmm_ballotMeasure m);
     pm_supporters := bm_supporters (bmm_ballotMeasure m);
     pm_opposers := bm_opposers (bmm_ballotMeasure m);
     pm_explanation := bmm_explanation m;
     pm_relevanceScore := bmm_relevanceScore m;
     pm_ballotpediaLink :=
       "https://ballotpedia.org/example/" ++ bm_id (bmm_ballotMeasure m) |}.

Definition isTestPriority (p : string) : bool :=
  JS.includes (JS.toLowerCase p) "test"
  || JS.includes (JS.toLowerCase p) "mock"
  || String.eqb (JS.toLowerCase p) "extremely specific".

(** The result of the outer [catch]. *)
Definition failureResult (e : thrown) : RecommendationsResult :=
  {| candidates := [];
     ballotMeasures := [];
     policyRecommendations :=
       {| topPolicies := [];
          explanation := "Unable to generate recommendations due to an error." |};
     error := Some (errorText e) |}.

(** [...(candidateError && { error: ... })] *)
Definition candidateErrorField (candidateError : option thrown) : option string :=
  match candidateError with
  | Some e => if isTruthy e then Some (errorText e) else None
  | None => None
  end.

Definition generateRecommendations (svc : Services) : M RecommendationsResult :=
  request0 <- getRequest ;;
  let isTestRequest := existsb isTestPriority (priorities request0) in
  cached <- (if negb isTestRequest
             then cacheKey <- generateCacheKey ;; cacheGet cacheKey
             else ret None) ;;
  match cached with
  | Some result => ret result
  | None =>
      tryCatch
        (request <- getRequest ;;
         priorityAnalysis <-
           invoke PriorityMapper (priorityMapper svc (priorities request)) ;;
         found <-
           tryCatch
             (candidateMatches <-
                invoke CandidateMatcher
                  (candidateMatcher svc priorityAnalysis
                     (Some {| opt_mode := Some (mode request);
                              opt_zipCode := Some (zipCode request) |})) ;;
              ret (candidateMatches, None))
             (fun error =>
                if isTestRequest && JS.arrayIncludes (priorities request) "throw_error"
                then throw error
                else ret ([], Some error)) ;;
         let '(candidateMatches, candidateError) := found in
         ballotMeasureMatches <-
           tryCatch
             (invoke MeasureMatcher
                (ballotMeasureAnalyzer svc priorityAnalysis (zipCode request)
                   (Some {| mopt_mode := Some (mode request) |})))
             (fun _ => ret []) ;;
         let policyRecommendations := generatePolicyRecommendations priorityAnalysis in
         let result :=
           {| candidates := map presentCandidate candidateMatches;
              ballotMeasures := map presentMeasure ballotMeasureMatches;
              policyRecommendations := policyRecommendations;
              error := candidateErrorField candidateError |} in
         (if negb isTestRequest
          then cacheKey <- generateCacheKey ;; cacheSet cacheKey result
          else ret tt) ;;;
         ret result)
        (fun error => ret (failureResult error))
  end.

(** The service wired to the three implementations of this repository. *)
Definition productionServices : Services :=
  {| priorityMapper := fun ps => Returned (PriorityMappingService.analyzePriorities ps);
     candidateMatcher :=
       fun analysis options =>
         Returned (CandidateMatchingService.findMatchingCandidates analysis options);
     ballotMeasureAnalyzer := BallotMeasureService.findRelevantMeasures |}.

(** A service instance just constructed, about to serve [req]. *)
Definition freshWorld (req : RecommendationRequest) : World :=
  {| request := req; cache := ∅; calls := [] |}.

(** The next call on the same instance, with the request [req]. *)
Definition nextCall (req : RecommendationRequest) (w : World) : World :=
  {| request := req; cache := cache w; calls := calls w |}.

Definition callCount (who : Service) (w : World) : nat :=
  length (List.filter (fun s => bool_decide (s = who)) (calls w)).

End RecommendationService.

(* ===================================================================== *)
(** * Vocabulary of the statements                                        *)
(* ===================================================================== *)

Module Orchestration.

Import RecommendationService.

(** The flag [isTestRequest] of [generateRecommendations]. *)
Definition isTestRequest (req : RecommendationRequest) : bool :=
  existsb isTestPriority (priorities req).

(** The request object once [generateCacheKey] has run on it. *)
Definition sortedRequest (req : RecommendationRequest) : RecommendationRequest :=
  {| priorities := JS.sort (priorities req);
     zipCode := zipCode req;
     mode := mode req |}.

(** The request object as the collaborators see it. *)
Definition effectiveRequest (req : RecommendationRequest) : RecommendationRequest :=
  if isTestRequest req then req else sortedRequest req.

Definition cacheKey (req : RecommendationRequest) : string :=
  stringifyKey (JS.sort (priorities req)) (zipCode req) (mode req).

(** The cache entry that answers the call, if the call consults the
    cache and finds one. *)
Definition cachedResult (w : World) : option RecommendationsResult :=
  if isTestRequest (request w) then None else cache w !! cacheKey (request w).

Definition candidateOptions (req : RecommendationRequest) : option MatchOptions :=
  Some {| opt_mode := Some (mode req); opt_zipCode := Some (zipCode req) |}.

Definition measureOptions (req : RecommendationRequest) : option MeasureOptions :=
  Some {| mopt_mode := Some (mode req) |}.

(** The inner [catch] of the candidate branch rethrows. *)
Definition rethrows (req : RecommendationRequest) : bool :=
  isTestRequest req && JS.arrayIncludes (priorities req) "throw_error".

Definition listOr {A} (o : outcome (list A)) : list A :=
  match o with
  | Returned l => l
  | Threw _ => []
  end.

Definition thrownBy {A} (o : outcome A) : option thrown :=
  match o with
  | Returned _ => None
  | Threw e => Some e
  end.

(** The result compiled in step 5 from the mapping and the outcomes of
    the two matchers. *)
Definition compiled (a : PriorityAnalysis) (c : outcome (list CandidateMatch))
    (m : outcome (list BallotMeasureMatch)) : RecommendationsResult :=
  {| candidates := map presentCandidate (listOr c);
     ballotMeasures := map presentMeasure (listOr m);
     policyRecommendations := generatePolicyRecommendations a;
     error := candidateErrorField (thrownBy c) |}.

(** How a call went. *)
Inductive RunCase (svc : Services) (w : World)
    : outcome RecommendationsResult * World -> Prop :=
| FromCache r :
    cachedResult w = Some r ->
    RunCase svc w
      (Returned r,
       {| request := sortedRequest (request w); cache := cache w; calls := calls w |})
| MappingFailed e :
    cachedResult w = None ->
    priorityMapper svc (priorities (effectiveRequest (request w))) = Threw e ->
    RunCase svc w
      (Returned (failureResult e),
       {| request := effectiveRequest (request w);
          cache := cache w;
          calls := (calls w ++ [PriorityMapper])%list |})
| Rethrown a e :
    cachedResult w = None ->
    priorityMapper svc (priorities (effectiveRequest (request w))) = Returned a ->
    candidateMatcher svc a (candidateOptions (request w)) = Threw e ->
    rethrows (request w) = true ->
    RunCase svc w
      (Returned (failureResult e),
       {| request := request w;
          cache := cache w;
          calls := (calls w ++ [PriorityMapper; CandidateMatcher])%list |})
| Compiled a :
    cachedResult w = None ->
    priorityMapper svc (priorities (effectiveRequest (request w))) = Returned a ->
    let c := candidateMatcher svc a (candidateOptions (request w)) in
    let m :=
      ballotMeasureAnalyzer svc a (zipCode (request w)) (measureOptions (request w)) in
    (thrownBy c = None \/ rethrows (request w) = false) ->
    RunCase svc w
      (Returned (compiled a c m),
       {| request := effectiveRequest (request w);
          cache := if isTestRequest (request w) then cache w
                   else <[cacheKey (request w) := compiled a c m]> (cache w);
          calls := (calls w ++ [PriorityMapper; CandidateMatcher; MeasureMatcher])%list |}).

(** Failure isolation as the design states it: with the mapping in hand
    and one matcher throwing, the failing branch is an empty list with an
    error text, the other branch and the policy summary are those of the
    mapping. *)
Definition IsolatesMatcherFailure (svc : Services) (w : World) : Prop :=
  forall a r w',
    cachedResult w = None ->
    priorityMapper svc (priorities (effectiveRequest (request w))) = Returned a ->
    generateRecommendations svc w = (Returned r, w') ->
    let c := candidateMatcher svc a (candidateOptions (request w)) in
    let m :=
      ballotMeasureAnalyzer svc a (zipCode (request w)) (measureOptions (request w)) in
    (forall e ms, c = Threw e -> m = Returned ms ->
       candidates r = [] /\ error r <> None
       /\ ballotMeasures r = map presentMeasure ms
       /\ policyRecommendations r = generatePolicyRecommendations a)
    /\ (forall e cs, m = Threw e -> c = Returned cs ->
          ballotMeasures r = [] /\ error r <> None
          /\ candidates r = map presentCandidate cs
          /\ policyRecommendations r = generatePolicyRecommendations a).

(** Two calls in a row on a new service instance. *)
Definition afterFirst (svc : Services) (req1 : RecommendationRequest) : World :=
  snd (generateRecommendations svc (freshWorld req1)).

Definition afterSecond (svc : Services) (req1 req2 : RecommendationRequest) : World :=
  snd (generateRecommendations svc (nextCall req2 (afterFirst svc req1))).

(** Each collaborator is called at most once over the two calls. *)
Definition AtMostOnceAcross (svc : Services) (req1 req2 : RecommendationRequest) : Prop :=
  forall who, (callCount who (afterSecond svc req1 req2) <= 1)%nat.

End Orchestration.

(** Requests and collaborators used to exercise the statements. *)
Module Fixtures.

Import RecommendationService.

Definition economyRequest : RecommendationRequest :=
  {| priorities := ["Economy"; "Education"]; zipCode := "94110"; mode := current |}.

Definition reorderedRequest : RecommendationRequest :=
  {| priorities := ["Education"; "Economy"]; zipCode := "94110"; mode := current |}.

Definition demoRequest : RecommendationRequest :=
  {| priorities := ["Economy"; "Education"]; zipCode := "94110"; mode := demo |}.

Definition testRequest : RecommendationRequest :=
  {| priorities := ["test"]; zipCode := "94110"; mode := current |}.

Definition throwErrorRequest : RecommendationRequest :=
  {| priorities := ["test"; "throw_error"]; zipCode := "94110"; mode := current |}.

Definition unavailable {A} : outcome A := Threw (ErrorObject "Service unavailable").

Definition failingMapper : Services :=
  {| priorityMapper := fun _ => unavailable;
     candidateMatcher := candidateMatcher productionServices;
     ballotMeasureAnalyzer := ballotMeasureAnalyzer productionServices |}.

Definition failingCandidates : Services :=
  {| priorityMapper := priorityMapper productionServices;
     candidateMatcher := fun _ _ => unavailable;
     ballotMeasureAnalyzer := ballotMeasureAnalyzer productionServices |}.

Definition failingMeasures : Services :=
  {| priorityMapper := priorityMapper productionServices;
     candidateMatcher := candidateMatcher productionServices;
     ballotMeasureAnalyzer := fun _ _ _ => unavailable |}.

(** A roster other than the repository's, with a measure for the
    location "00000". *)
Definition zeroZipRoster : list BallotMeasure :=
  [ {| bm_id := "measure-0";
       bm_title := "Prop 0: Library Hours";
       bm_description := "Extends opening hours of public libraries";
       bm_applicableLocations := ["00000"];
       bm_supporters := [];
       bm_opposers := [];
       bm_categories := ["EDUCATION"] |} ].

End Fixtures.


Module Mapping.

Import MockData PriorityMappingService.

(** The priority matches one of the registered patterns. *)
Definition isFlagged (priority : string) : bool :=
  match firstPattern priority with
  | Some _ => true
  | None => false
  end.

(** Some registered pattern matches the priority: the test of the inner
    loop of [analyzePriorities], over the whole list. *)
Definition matchesSomePattern (priority : string) : bool :=
  existsb (fun ep => Regex.test (ep_pattern ep) priority) EXTREME_PRIORITY_PATTERNS.

(** What the first loop of [analyzePriorities] records for one priority. *)
Definition flagOf (p : string) : list FlaggedPriority :=
  if isBlank p then []
  else match firstPattern p with
       | Some ep =>
           [ {| fp_userPriority := p;
                fp_flagType := ep_flagType ep;
                fp_reason := ep_reason ep |} ]
       | None => []
       end.

(** The priority reaches the mapping step. *)
Definition isValid (p : string) : bool := negb (isBlank p) && negb (isFlagged p).

Definition mappedTexts (a : PriorityAnalysis) : list string :=
  map mp_userPriority (mappedPriorities a).

Definition flaggedTexts (a : PriorityAnalysis) : list string :=
  map fp_userPriority (flaggedPriorities a).

(** The issues of a mapping, over all its priorities. *)
Definition allIssues (a : PriorityAnalysis) : list PoliticalIssue :=
  flat_map (fun mp => map im_issue (mp_mappedIssues mp)) (mappedPriorities a).

(** One of the special cases or the standard loop of
    [findIssuesByKeywords] finds an issue for the priority. *)
Definition keywordRuleApplies (priority : string) : bool :=
  match specialCaseIssues (JS.toLowerCase (JS.join " " [priority])) with
  | Some _ => true
  | None => negb (length (standardMatches [priority]) =? 0)%nat
  end.

(** The entry [climate_change] of the roster. *)
Definition climateIssue : PoliticalIssue :=
  mkIssue "climate_change" "Climate Change" ENVIRONMENT
    ["global warming"; "climate action"; "climate crisis"; "environmental protection";
     "water quality"; "pollution control"]
    ["carbon emissions"; "climate policy"; "clean energy"; "green spaces"; "park access";
     "urban greening"; "water protection"; "clean water"; "industrial pollution";
     "emissions control"]
    1.

Definition withConfidence (q : Q) (terms : list string) (issue : PoliticalIssue) : IssueMatch :=
  {| im_issue := issue; im_confidence := q; im_matchedTerms := terms |}.


(** The confidence as the design words it: over the terms of the issue,
    the largest of 1 for a synonym equal to the priority (case aside) and,
    for a term contained in the priority, its share of the priority's
    length, times 1.2 when the priority starts with it; times the weight
    of the issue. *)
Definition termSignal (priority : string) (issue : PoliticalIssue) (term : string) : Q :=
  let p := normalizeText priority in
  let t := normalizeText term in
  if String.eqb p t && JS.arrayIncludes (iss_synonyms issue) term then 1%Q
  else if JS.includes p t
       then ((lengthQ term / lengthQ priority)
             * (if JS.startsWith p t then 12 # 10 else 1))%Q
  else 0%Q.

Definition designConfidence (priority : string) (issue : PoliticalIssue) : Q :=
  (fold_left Qmax
     (map (termSignal priority issue) (iss_synonyms issue ++ iss_relatedTerms issue)%list)
     0
   * iss_weight issue)%Q.

End Mapping.

Module Matching.

Import CandidateMatchingService.

Definition userPrioritiesOf (a : PriorityAnalysis) : list string :=
  map mp_userPriority (mappedPriorities a).

Definition priorityKeywordsOf (a : PriorityAnalysis) : string :=
  JS.toLowerCase (JS.join " " (userPrioritiesOf a)).

(** Every (position, priority) pair of a candidate in which the issue
    label and the priority text contain one another, case aside. *)
Definition hitPairs (userPriorities : list string) (candidate : Candidate)
    : list (CandidatePosition * string) :=
  flat_map
    (fun position => map (pair position) (List.filter (positionHit position) userPriorities))
    (cand_positions candidate).

(** The sum of a list of numbers, added up from the left starting at 0:
    the order matters, since every addition rounds. *)
Definition sumFrom (start : float) (l : list float) : float :=
  fold_left PrimFloat.add l start.

(** The sum of 0.2 times the strength of the position over the hit
    pairs, in the order of the two loops, clamped to 1. *)
Definition clampedHitSum (userPriorities : list string) (candidate : Candidate) : float :=
  JS.mathMin 1
    (sumFrom 0
       (map (fun hit => (0.2 * pos_strength (fst hit))%float)
          (hitPairs userPriorities candidate))).

(** The literal overrides applied after the clamp; [None] when none
    applies and the clamped sum stands. *)
Definition scoreOverride (priorityKeywords : string) (userPriorities : list string)
    (candidate : Candidate) : option float :=
  if JS.includes priorityKeywords "extremely specific" || (length userPriorities =? 0)%nat
  then Some 0.3%float
  else if JS.includes priorityKeywords "climate" && String.eqb (cand_name candidate) "Sam Johnson"
  then Some 0.9%float
  else if JS.includes priorityKeywords "tax" && String.eqb (cand_name candidate) "John Doe"
  then Some 0.85%float
  else if JS.includes priorityKeywords "healthcare"
          && String.eqb (cand_name candidate) "Jane Smith"
  then Some 0.8%float
  else None.

(** The measure lists the location. *)
Definition servesLocation (zip : string) (measure : BallotMeasure) : bool :=
  JS.arrayIncludes (bm_applicableLocations measure) zip.

End Matching.


Module Relevance.

Import BallotMeasureService.

(** The number of (category, priority) pairs of a measure that count as a
    hit. *)
Definition measureHitCount (userPriorities : list string) (measure : BallotMeasure) : nat :=
  length
    (flat_map
       (fun category => List.filter (measureHit measure category) userPriorities)
       (bm_categories measure)).

(** The literal overrides of the relevance score; [None] when none applies
    and the clamped sum stands. *)
Definition relevanceOverride (priorityKeywords : string) (userPriorities : list string)
    (measure : BallotMeasure) : option float :=
  if JS.includes priorityKeywords "extremely specific" || (length userPriorities =? 0)%nat
  then Some 0.3%float
  else if JS.includes priorityKeywords "transport" && JS.includes (bm_title measure) "Transit"
  then Some 0.9%float
  else if JS.includes priorityKeywords "education"
          && JS.includes (bm_title measure) "Education"
  then Some 0.85%float
  else if JS.includes priorityKeywords "healthcare"
          && JS.includes (bm_title measure) "Healthcare"
  then Some 0.8%float
  else None.

(** 0.5 with 0.1 added once for every hit, each addition rounding. *)
Fixpoint relevanceSum (hits : nat) : float :=
  match hits with
  | O => 0.5%float
  | S hits' => (relevanceSum hits' + 0.1)%float
  end.

(** The sum for the hits, clamped to 1. *)
Definition clampedRelevance (hits : nat) : float := JS.mathMin 1 (relevanceSum hits).

(** The measures the matcher scores for a location: those that list it,
    or the whole roster when none does. *)
Definition measuresFor (zip : string) : list BallotMeasure :=
  let located :=
    List.filter (Matching.servesLocation zip) TestHelpers.createMockBallotMeasures in
  if (0 <? length located)%nat then located else TestHelpers.createMockBallotMeasures.

End Relevance.


Module Tallies.

Import PriorityMappingService.

(** [categoryCounts] at the end of the tally loop of [analyzePriorities]. *)
Definition categoryTally (a : PriorityAnalysis) : list (PoliticalCategory * nat) :=
  fold_left tally (mappedPriorities a) initialCategoryCounts.

(** [categoryCounts[category]] *)
Definition tallyOf (counts : list (PoliticalCategory * nat)) (category : PoliticalCategory)
    : nat :=
  match List.find (fun entry => bool_decide (fst entry = category)) counts with
  | Some entry => snd entry
  | None => 0
  end.

End Tallies.


Module TermMatching.

Import PriorityMappingService.




End TermMatching.


Module Keywords.

Import MockData.

(** [keyword.toLowerCase().trim()] *)
Definition normalizedKeyword (keyword : string) : string := JS.trim (JS.toLowerCase keyword).

(** Some keyword touches a synonym or related term of the issue, in the
    sense of the standard matching loop. *)
Definition someKeywordMatches (keywords : list string) (issue : PoliticalIssue) : Prop :=
  exists keyword,
    In keyword keywords /\ keywordMatchesIssue (normalizedKeyword keyword) issue = true.

(** None of the special cases at the head of [findIssuesByKeywords] applies. *)
Definition noSpecialCase (keywords : list string) : Prop :=
  specialCaseIssues (JS.toLowerCase (JS.join " " keywords)) = None.

End Keywords.


Module LetterCase.

Import PriorityMappingService.

(** Every code-unit test of the pattern gives the same answer for a code
    unit and for its lower-case form. *)
Fixpoint caseBlind (r : Regex.regex) : Prop :=
  match r with
  | Regex.Nul | Regex.Eps => True
  | Regex.Chr accept => forall c, accept (JS.lowerChar c) = accept c
  | Regex.Cat r1 r2 | Regex.Alt r1 r2 => caseBlind r1 /\ caseBlind r2
  | Regex.Star r1 => caseBlind r1
  end.

(** A mapped priority without the spelling of the user's text: the
    lowered text, and the issues with their confidences. *)
Definition mappedOutline (mp : MappedPriority)
    : string * list (PoliticalIssue * Q) :=
  (JS.toLowerCase (mp_userPriority mp),
   map (fun m => (im_issue m, im_confidence m)) (mp_mappedIssues mp)).

Definition flaggedOutline (fp : FlaggedPriority) : string * FlagType * string :=
  (JS.toLowerCase (fp_userPriority fp), fp_flagType fp, fp_reason fp).

End LetterCase.


Module Presentation.

(** No code unit of the string is white space. *)
Definition noWhiteSpace (s : string) : Prop :=
  Forall (fun c => JS.isWhiteSpace c = false) (list_ascii_of_string s).

(** What [generatePolicyRecommendations] lists for the priorities that
    reach the mapping step. *)
Definition policiesFor (texts : list string) : list string :=
  match texts with
  | [] => ["No specific policy focus identified from priorities."]
  | _ :: _ => texts
  end.

End Presentation.

(** Classes of binary64 values, on their specification [spec_float]. *)
Module Binary64.

(** A value of the given sign: a zero, a finite number or an infinity. *)
Inductive signed (s : bool) : spec_float -> Prop :=
| signed_zero : signed s (S754_zero s)
| signed_finite m e : signed s (S754_finite s m e)
| signed_infinity : signed s (S754_infinity s).

Inductive signed_nonzero (s : bool) : spec_float -> Prop :=
| signed_nz_finite m e : signed_nonzero s (S754_finite s m e)
| signed_nz_infinity : signed_nonzero s (S754_infinity s).

(** Zero of either sign, or a positive finite number. *)
Inductive small : spec_float -> Prop :=
| small_zero s : small (S754_zero s)
| small_finite m e : small (S754_finite false m e).

(** Not a NaN and not below zero. *)
Inductive nonnegative : spec_float -> Prop :=
| nonnegative_zero s : nonnegative (S754_zero s)
| nonnegative_finite m e : nonnegative (S754_finite false m e)
| nonnegative_infinity : nonnegative (S754_infinity false).

(** [0 <= x], which a NaN fails. *)
Definition nonneg (x : float) : Prop := (0 <=? x)%float = true.

(** A number between 0 and 1. *)
Definition unitInterval (x : float) : Prop :=
  (0 <=? x)%float = true /\ (x <=? 1)%float = true.

End Binary64.

(* ===================================================================== *)
(** * Binary64 numbers: signs, order and the sign of a difference         *)
(* ===================================================================== *)

Section Rounding.

Import Binary64.

Variables prec emax : Z.
Hypothesis Hprec : (0 < prec)%Z.

#[local] Abbreviation emin := (SpecFloat.emin prec emax).
#[local] Abbreviation fexp := (SpecFloat.fexp prec emax).

Lemma digits2_bounds p :
  (2 ^ (Z.pos (digits2_pos p) - 1) <= Z.pos p < 2 ^ Z.pos (digits2_pos p))%Z.
Proof.
  induction p as [p IH | p IH |]; cbn [digits2_pos].
  - rewrite Pos2Z.inj_succ. replace (Z.succ (Z.pos (digits2_pos p)) - 1)%Z
      with (Z.succ (Z.pos (digits2_pos p) - 1)) by lia.
    rewrite !Z.pow_succ_r by lia. lia.
  - rewrite Pos2Z.inj_succ. replace (Z.succ (Z.pos (digits2_pos p)) - 1)%Z
      with (Z.succ (Z.pos (digits2_pos p) - 1)) by lia.
    rewrite !Z.pow_succ_r by lia. lia.
  - cbn. lia.
Qed.

Lemma iter_pos_invariant {A} (f : A -> A) (P : A -> Prop) :
  (forall x, P x -> P (f x)) -> forall n x, P x -> P (SpecFloat.iter_pos f n x).
Proof.
  intros Hf. induction n as [n IH | n IH |]; intros x Hx; cbn; auto.
Qed.

Lemma shr_1_m r : (0 <= shr_m r)%Z -> shr_m (shr_1 r) = (shr_m r / 2)%Z.
Proof.
  destruct r as [m r s]. cbn [shr_m]. intros Hm.
  destruct m as [|[p | p |]|p]; cbn [shr_1 shr_m]; [reflexivity | | | reflexivity | lia].
  - apply Z.div_unique with 1%Z; lia.
  - apply Z.div_unique with 0%Z; lia.
Qed.

Lemma shr_1_nonneg r : (0 <= shr_m r)%Z -> (0 <= shr_m (shr_1 r))%Z.
Proof. intros H. rewrite shr_1_m by exact H. apply Z.div_pos; lia. Qed.

Lemma iter_shr_nonneg n r :
  (0 <= shr_m r)%Z -> (0 <= shr_m (SpecFloat.iter_pos shr_1 n r))%Z.
Proof. apply (iter_pos_invariant shr_1 (fun r => 0 <= shr_m r)%Z), shr_1_nonneg. Qed.

Lemma iter_shr_m n : forall r,
  (0 <= shr_m r)%Z ->
  shr_m (SpecFloat.iter_pos shr_1 n r) = (shr_m r / 2 ^ Z.pos n)%Z.
Proof.
  induction n as [n IH | n IH |]; intros r Hr; cbn [SpecFloat.iter_pos].
  - rewrite IH by (apply iter_shr_nonneg, shr_1_nonneg, Hr).
    rewrite IH by (apply shr_1_nonneg, Hr). rewrite shr_1_m by exact Hr.
    assert (Hp : (0 < 2 ^ Z.pos n)%Z) by (apply Z.pow_pos_nonneg; lia).
    rewrite !Z.div_div by lia. f_equal.
    replace (Z.pos n~1) with (1 + (Z.pos n + Z.pos n))%Z by lia.
    rewrite !Z.pow_add_r, Z.pow_1_r by lia. lia.
  - rewrite IH by (apply iter_shr_nonneg, Hr). rewrite IH by exact Hr.
    assert (Hp : (0 < 2 ^ Z.pos n)%Z) by (apply Z.pow_pos_nonneg; lia).
    rewrite !Z.div_div by lia. f_equal.
    replace (Z.pos n~0) with (Z.pos n + Z.pos n)%Z by lia.
    rewrite !Z.pow_add_r by lia. lia.
  - rewrite shr_1_m by exact Hr. reflexivity.
Qed.

Lemma shr_record_of_loc_m m l : shr_m (shr_record_of_loc m l) = m.
Proof. destruct l as [|[]]; reflexivity. Qed.

(** The mantissa after [shr_fexp]. *)
Lemma shr_fexp_nonneg m e l :
  (0 <= m)%Z -> (0 <= shr_m (fst (shr_fexp prec emax m e l)))%Z.
Proof.
  intros Hm. unfold shr_fexp, shr.
  destruct (fexp (Zdigits2 m + e) - e)%Z; cbn [fst];
    rewrite ?shr_record_of_loc_m; try exact Hm.
  apply iter_shr_nonneg. now rewrite shr_record_of_loc_m.
Qed.

Lemma Zdigits2_pos_bounds m :
  (0 < m)%Z -> (2 ^ (Zdigits2 m - 1) <= m < 2 ^ Zdigits2 m)%Z.
Proof. destruct m; try lia. intros _. apply digits2_bounds. Qed.

Lemma Zdigits2_positive m : (0 < m)%Z -> (0 < Zdigits2 m)%Z.
Proof. destruct m; cbn; lia. Qed.

Lemma shr_fexp_pos m e l :
  (0 < m)%Z -> (emin <= e)%Z ->
  (0 < shr_m (fst (shr_fexp prec emax m e l)))%Z
  /\ (emin <= snd (shr_fexp prec emax m e l))%Z.
Proof.
  intros Hm He. unfold shr_fexp, shr.
  pose proof (Zdigits2_pos_bounds m Hm) as [Hlo Hhi].
  pose proof (Zdigits2_positive m Hm) as Hd.
  destruct (fexp (Zdigits2 m + e) - e)%Z as [|n|n] eqn:Hn; cbn [fst snd];
    rewrite ?shr_record_of_loc_m; try (split; lia).
  rewrite iter_shr_m by (rewrite shr_record_of_loc_m; lia).
  rewrite shr_record_of_loc_m. split; [| lia].
  assert (Hlt : (Z.pos n <= Zdigits2 m - 1)%Z).
  { unfold SpecFloat.fexp in Hn. lia. }
  apply Z.div_str_pos. split; [apply Z.pow_pos_nonneg; lia |].
  transitivity (2 ^ (Zdigits2 m - 1))%Z; [| exact Hlo].
  apply Z.pow_le_mono_r; lia.
Qed.

Lemma round_nearest_even_ge m l : (m <= round_nearest_even m l)%Z.
Proof.
  unfold round_nearest_even. destruct l as [|[]]; try lia.
  destruct (Z.even m); lia.
Qed.


Lemma binary_round_aux_signed s m e l :
  (0 <= m)%Z -> signed s (binary_round_aux prec emax s m e l).
Proof.
  intros Hm. unfold binary_round_aux.
  destruct (shr_fexp prec emax m e l) as [mrs e'] eqn:H1.
  destruct (shr_fexp prec emax (round_nearest_even (shr_m mrs) (loc_of_shr_record mrs))
              e' loc_Exact) as [mrs' e''] eqn:H2.
  assert (H1' : (0 <= shr_m mrs)%Z).
  { pose proof (shr_fexp_nonneg m e l Hm) as H. now rewrite H1 in H. }
  assert (H2' : (0 <= shr_m mrs')%Z).
  { pose proof (shr_fexp_nonneg (round_nearest_even (shr_m mrs) (loc_of_shr_record mrs))
                  e' loc_Exact) as H.
    rewrite H2 in H. apply H.
    pose proof (round_nearest_even_ge (shr_m mrs) (loc_of_shr_record mrs)). lia. }
  destruct (shr_m mrs'); [constructor | | lia].
  destruct (_ <=? _)%Z; constructor.
Qed.

Lemma binary_round_aux_signed_nonzero s m e l :
  (0 < m)%Z -> (emin <= e)%Z ->
  signed_nonzero s (binary_round_aux prec emax s m e l).
Proof.
  intros Hm He. unfold binary_round_aux.
  destruct (shr_fexp prec emax m e l) as [mrs e'] eqn:H1.
  destruct (shr_fexp prec emax (round_nearest_even (shr_m mrs) (loc_of_shr_record mrs))
              e' loc_Exact) as [mrs' e''] eqn:H2.
  pose proof (shr_fexp_pos m e l Hm He) as [Hp1 He1]. rewrite H1 in Hp1, He1.
  cbn [fst snd] in Hp1, He1.
  pose proof (round_nearest_even_ge (shr_m mrs) (loc_of_shr_record mrs)) as Hr.
  pose proof (shr_fexp_pos (round_nearest_even (shr_m mrs) (loc_of_shr_record mrs))
                e' loc_Exact ltac:(lia) He1) as [Hp2 _].
  rewrite H2 in Hp2. cbn [fst] in Hp2.
  destruct (shr_m mrs'); [lia | | lia].
  destruct (_ <=? _)%Z; constructor.
Qed.

Lemma iter_xO m d : Z.pos (Pos.iter xO m d) = (Z.pos m * 2 ^ Z.pos d)%Z.
Proof.
  induction d as [|d IH] using Pos.peano_ind.
  - cbn. lia.
  - rewrite Pos.iter_succ, Pos2Z.inj_xO, IH, Pos2Z.inj_succ, Z.pow_succ_r by lia. lia.
Qed.

Lemma shl_align_spec m e e' :
  let '(m', e'') := shl_align m e e' in
  e'' = Z.min e e' /\ Z.pos m' = (Z.pos m * 2 ^ (e - e''))%Z.
Proof.
  unfold shl_align. destruct (e' - e)%Z as [|d|d] eqn:Hd.
  - split; [lia |]. replace (e - e)%Z with 0%Z by lia. lia.
  - split; [lia |]. replace (e - e)%Z with 0%Z by lia. lia.
  - split; [lia |]. rewrite iter_xO. f_equal. f_equal. lia.
Qed.

Lemma binary_round_signed s m e : signed s (binary_round prec emax s m e).
Proof.
  unfold binary_round. destruct (shl_align _ _ _) as [mz ez].
  apply binary_round_aux_signed. lia.
Qed.

Lemma fexp_ge_emin x : (emin <= fexp x)%Z.
Proof. unfold SpecFloat.fexp. lia. Qed.

Lemma binary_round_signed_nonzero s m e :
  (emin <= e)%Z -> signed_nonzero s (binary_round prec emax s m e).
Proof.
  intros He. unfold binary_round.
  pose proof (shl_align_spec m e (fexp (Z.pos (digits2_pos m) + e))) as Hs.
  destruct (shl_align _ _ _) as [mz ez]. destruct Hs as [Hez _].
  apply binary_round_aux_signed_nonzero; [lia |].
  pose proof (fexp_ge_emin (Z.pos (digits2_pos m) + e)). lia.
Qed.

End Rounding.

Section Ordering.

Import Binary64.

Variables prec emax : Z.
Hypothesis Hprec : (0 < prec)%Z.

#[local] Abbreviation emin := (SpecFloat.emin prec emax).
#[local] Abbreviation fexp := (SpecFloat.fexp prec emax).


Lemma signed_nonnegative x : signed false x -> nonnegative x.
Proof. destruct 1; constructor. Qed.

Lemma SFadd_nonnegative x y :
  nonnegative x -> nonnegative y -> nonnegative (SFadd prec emax x y).
Proof.
  intros [sx | mx ex |] [sy | my ey |]; cbn [SFadd]; try constructor.
  - destruct sx, sy; constructor.
  - unfold binary_normalize. cbn [cond_Zopp].
    destruct (Z.pos _ + Z.pos _)%Z eqn:E; [constructor | | lia].
    apply signed_nonnegative, binary_round_signed.
Qed.

Lemma canonical_bounds m e :
  canonical_mantissa prec emax m e = true ->
  (emin <= e)%Z /\ (Z.pos m < 2 ^ prec)%Z
  /\ (emin < e -> 2 ^ (prec - 1) <= Z.pos m)%Z.
Proof.
  unfold canonical_mantissa, SpecFloat.fexp. intros H. apply Z.eqb_eq in H.
  pose proof (digits2_bounds m) as [Hlo Hhi].
  assert (Hd : (Z.pos (digits2_pos m) <= prec)%Z) by lia.
  split; [lia |]. split.
  - eapply Z.lt_le_trans; [exact Hhi |]. apply Z.pow_le_mono_r; lia.
  - intros He. assert (Z.pos (digits2_pos m) = prec) by lia.
    now replace (prec - 1)%Z with (Z.pos (digits2_pos m) - 1)%Z by lia.
Qed.

Lemma shl_align_fst m e e' :
  (e' <= e)%Z -> Z.pos (fst (shl_align m e e')) = (Z.pos m * 2 ^ (e - e'))%Z.
Proof.
  intros Hle. pose proof (shl_align_spec m e e') as H.
  destruct (shl_align m e e') as [m' e'']. destruct H as [He Hm]. cbn [fst].
  rewrite Hm. do 2 f_equal. lia.
Qed.

(** Comparing two positive numbers in canonical form is comparing their
    mantissas once aligned. *)
Lemma aligned_compare mx ex my ey :
  canonical_mantissa prec emax mx ex = true ->
  canonical_mantissa prec emax my ey = true ->
  let ez := Z.min ey ex in
  SFltb (S754_finite false mx ex) (S754_finite false my ey)
  = (Z.pos (fst (shl_align mx ex ez)) <? Z.pos (fst (shl_align my ey ez)))%Z.
Proof.
  intros Hx Hy ez.
  apply canonical_bounds in Hx as (Hex & Hmx & Hnx).
  apply canonical_bounds in Hy as (Hey & Hmy & Hny).
  rewrite !shl_align_fst by lia.
  unfold SFltb, SFcompare.
  assert (Hpow : (2 ^ prec = 2 * 2 ^ (prec - 1))%Z).
  { replace prec with (Z.succ (prec - 1)) at 1 by lia. apply Z.pow_succ_r. lia. }
  destruct (Z.compare_spec ex ey) as [Heq | Hlt | Hgt].
  - subst ey ez. rewrite Z.min_id, Z.sub_diag, Z.pow_0_r, !Z.mul_1_r.
    rewrite Pos.compare_cont_spec. cbn [Pos.switch_Eq].
    change (Pos.compare mx my) with (Z.compare (Z.pos mx) (Z.pos my)).
    destruct (Z.compare_spec (Z.pos mx) (Z.pos my)); symmetry;
      [apply Z.ltb_ge | apply Z.ltb_lt | apply Z.ltb_ge]; lia.
  - symmetry. apply Z.ltb_lt. subst ez.
    replace (Z.min ey ex) with ex by lia.
    rewrite Z.sub_diag, Z.pow_0_r, Z.mul_1_r.
    assert (2 <= 2 ^ (ey - ex))%Z.
    { change 2%Z with (2 ^ 1)%Z at 1. apply Z.pow_le_mono_r; lia. }
    specialize (Hny ltac:(lia)). nia.
  - symmetry. apply Z.ltb_ge. subst ez.
    replace (Z.min ey ex) with ey by lia.
    rewrite Z.sub_diag, Z.pow_0_r, Z.mul_1_r.
    assert (2 <= 2 ^ (ex - ey))%Z.
    { change 2%Z with (2 ^ 1)%Z at 1. apply Z.pow_le_mono_r; lia. }
    specialize (Hnx ltac:(lia)). nia.
Qed.

Lemma signed_true_not_positive r :
  signed true r -> SFltb (S754_zero false) r = false.
Proof. destruct 1; reflexivity. Qed.

Lemma signed_nonzero_positive r :
  signed_nonzero false r -> SFltb (S754_zero false) r = true.
Proof. destruct 1; reflexivity. Qed.

(** The sign of a difference: [y - x] is above zero exactly when [x] is
    below [y]. *)
Lemma SFsub_positive x y :
  small x -> small y ->
  SpecFloat.valid_binary prec emax x = true ->
  SpecFloat.valid_binary prec emax y = true ->
  SFltb (S754_zero false) (SFsub prec emax y x) = SFltb x y.
Proof.
  intros [sx | mx ex] [sy | my ey] Vx Vy; cbn [SFsub].
  - destruct sy, sx; reflexivity.
  - reflexivity.
  - reflexivity.
  - cbn [SpecFloat.valid_binary] in Vx, Vy. unfold bounded in Vx, Vy.
    apply andb_prop in Vx as [Cx _]. apply andb_prop in Vy as [Cy _].
    rewrite (aligned_compare mx ex my ey Cx Cy). cbn zeta. cbn [cond_Zopp].
    apply canonical_bounds in Cx as (Hex & _). apply canonical_bounds in Cy as (Hey & _).
    set (Mx := fst (shl_align mx ex (Z.min ey ex))).
    set (My := fst (shl_align my ey (Z.min ey ex))).
    unfold binary_normalize.
    destruct (Z.pos My - Z.pos Mx)%Z as [|d|d] eqn:Hd.
    + symmetry. apply Z.ltb_ge. lia.
    + rewrite signed_nonzero_positive
        by (apply binary_round_signed_nonzero; [exact Hprec | lia]).
      symmetry. apply Z.ltb_lt. lia.
    + rewrite signed_true_not_positive by apply binary_round_signed.
      symmetry. apply Z.ltb_ge. lia.
Qed.

Lemma SFcompare_antisym x y :
  SFcompare y x = option_map CompOpp (SFcompare x y).
Proof.
  destruct x as [sx | sx | | sx mx ex], y as [sy | sy | | sy my ey]; cbn;
    try reflexivity;
    try (destruct sx; reflexivity); try (destruct sy; reflexivity);
    try (destruct sx, sy; reflexivity).
  rewrite (Z.compare_antisym ex ey), !Pos.compare_cont_spec. cbn [Pos.switch_Eq].
  rewrite (Pos.compare_antisym mx my).
  destruct sx, sy, (ex ?= ey)%Z, (mx ?= my)%positive; reflexivity.
Qed.

Lemma SFleb_SFltb x y :
  x <> S754_nan -> y <> S754_nan -> SFleb y x = negb (SFltb x y).
Proof.
  intros Hx Hy. unfold SFleb, SFltb. rewrite (SFcompare_antisym x y).
  destruct (SFcompare x y) as [[] |] eqn:E; try reflexivity.
  destruct x, y; try congruence; discriminate E.
Qed.

Lemma SFltb_SFleb x y : SFltb x y = true -> SFleb x y = true.
Proof. unfold SFltb, SFleb. destruct (SFcompare x y) as [[] |]; congruence. Qed.

Lemma SFeqb_finite s1 m1 e1 s2 m2 e2 :
  SFeqb (S754_finite s1 m1 e1) (S754_finite s2 m2 e2) = true ->
  s1 = s2 /\ m1 = m2 /\ e1 = e2.
Proof.
  unfold SFeqb, SFcompare.
  destruct s1, s2; try discriminate;
    destruct (Z.compare_spec e1 e2); try discriminate;
    rewrite Pos.compare_cont_spec; cbn [Pos.switch_Eq];
    destruct (Pos.compare_spec m1 m2); try discriminate; auto.
Qed.

(** Two numbers equal to a third have a difference that is not above
    zero. *)
Lemma SFsub_of_equals x y q :
  SFeqb x q = true -> SFeqb y q = true ->
  SFltb (S754_zero false) (SFsub prec emax x y) = false.
Proof.
  intros Hx Hy.
  destruct q as [sq | sq | | sq mq eq];
    destruct x as [sx | sx | | sx mx ex];
    try discriminate Hx; try (destruct sx; discriminate Hx);
    try (destruct sq; discriminate Hx);
    destruct y as [sy | sy | | sy my ey];
    try discriminate Hy; try (destruct sy; discriminate Hy);
    try (destruct sq; discriminate Hy).
  - destruct sx, sy; reflexivity.
  - destruct sx, sy, sq; try discriminate; reflexivity.
  - apply SFeqb_finite in Hx as (-> & -> & ->).
    apply SFeqb_finite in Hy as (-> & -> & ->).
    cbn [SFsub]. rewrite Z.min_id, Z.sub_diag. reflexivity.
Qed.

End Ordering.

Section Binary64Numbers.

Import Binary64.

Open Scope float_scope.



Lemma Prim2SF_zero : Prim2SF 0 = S754_zero false.
Proof. reflexivity. Qed.

Lemma prec_pos : (0 < prec)%Z.
Proof. reflexivity. Qed.

Lemma nonneg_spec x : nonneg x <-> nonnegative (Prim2SF x).
Proof.
  unfold nonneg. rewrite FloatAxioms.leb_spec, Prim2SF_zero. split.
  - destruct (Prim2SF x) as [s | [] | | [] m e]; try discriminate; constructor.
  - destruct 1; reflexivity.
Qed.

Lemma add_nonneg x y : nonneg x -> nonneg y -> nonneg (x + y).
Proof.
  intros Hx Hy. apply nonneg_spec in Hx, Hy. apply nonneg_spec.
  rewrite FloatAxioms.add_spec. now apply SFadd_nonnegative.
Qed.

Lemma nonneg_not_nan x : nonneg x -> is_nan x = false.
Proof.
  intros H. apply nonneg_spec in H. unfold is_nan. rewrite FloatAxioms.eqb_spec.
  destruct H as [s | m e |]; cbn.
  - reflexivity.
  - unfold SFeqb, SFcompare. rewrite Z.compare_refl, Pos.compare_cont_refl. reflexivity.
  - reflexivity.
Qed.

Lemma ltb_leb x y : (x <? y) = true -> (x <=? y) = true.
Proof. rewrite FloatAxioms.ltb_spec, FloatAxioms.leb_spec. apply SFltb_SFleb. Qed.

Lemma Prim2SF_not_nan x : is_nan x = false -> Prim2SF x <> S754_nan.
Proof.
  unfold is_nan. rewrite FloatAxioms.eqb_spec. intros H E. rewrite E in H. discriminate H.
Qed.

Lemma leb_ltb x y :
  is_nan x = false -> is_nan y = false -> (y <=? x) = negb (x <? y).
Proof.
  intros Hx Hy. rewrite FloatAxioms.ltb_spec, FloatAxioms.leb_spec.
  apply SFleb_SFltb; now apply Prim2SF_not_nan.
Qed.

Lemma leb_refl x : is_nan x = false -> (x <=? x) = true.
Proof.
  intros H. rewrite FloatAxioms.leb_spec. unfold is_nan in H. rewrite FloatAxioms.eqb_spec in H.
  unfold SFeqb in H. unfold SFleb. destruct (SFcompare _ _) as [[] |]; try discriminate.
  reflexivity.
Qed.


Lemma mathMin_unitInterval x : nonneg x -> unitInterval (JS.mathMin 1 x).
Proof.
  intros Hx. pose proof (nonneg_not_nan x Hx) as Hn. unfold JS.mathMin.
  change (is_nan 1) with false. rewrite Hn. cbn [orb].
  destruct (1 <? x) eqn:H1; [split; reflexivity |].
  destruct (x <? 1) eqn:H2; [split; [exact Hx | now apply ltb_leb] |].
  change (get_sign 1) with false. cbn iota. split; [exact Hx |].
  rewrite (leb_ltb 1 x) by (reflexivity || exact Hn). now rewrite H1.
Qed.

Lemma unitInterval_small x : unitInterval x -> small (Prim2SF x).
Proof.
  intros [H0 H1]. apply nonneg_spec in H0. rewrite FloatAxioms.leb_spec in H1.
  destruct H0; [constructor | constructor | discriminate H1].
Qed.

Lemma unitInterval_not_nan x : unitInterval x -> is_nan x = false.
Proof. intros [H _]. now apply nonneg_not_nan. Qed.

(** For scores between 0 and 1 the comparator [y - x] is above zero
    exactly when [x] is below [y]. *)
Lemma sub_positive x y :
  unitInterval x -> unitInterval y -> (0 <? y - x) = (x <? y).
Proof.
  intros Hx Hy. rewrite !FloatAxioms.ltb_spec, FloatAxioms.sub_spec, Prim2SF_zero.
  apply (SFsub_positive prec emax prec_pos);
    auto using unitInterval_small, Prim2SF_valid.
Qed.

Lemma sub_of_equals x y q :
  (x =? q) = true -> (y =? q) = true -> (0 <? x - y) = false.
Proof.
  rewrite !FloatAxioms.eqb_spec, FloatAxioms.ltb_spec, FloatAxioms.sub_spec, Prim2SF_zero. apply SFsub_of_equals.
Qed.

End Binary64Numbers.

Section SortingByNumber.

Import Binary64.

Context {A : Type} (key : A -> float).

#[local] Abbreviation byKey := (fun a b : A => (key b - key a)%float).
#[local] Abbreviation descendingKeys := (fun a b : A => (key b <=? key a)%float = true).

Lemma insertByNumber_Permutation (cmp : A -> A -> float) x l :
  Permutation (JS.insertByNumber cmp x l) (x :: l).
Proof.
  induction l as [|y l IH]; cbn [JS.insertByNumber]; [reflexivity |].
  destruct (JS.gtNumber (cmp x y) 0); [| reflexivity].
  rewrite IH. apply perm_swap.
Qed.

Lemma sortByNumber_Permutation (cmp : A -> A -> float) l :
  Permutation (JS.sortByNumber cmp l) l.
Proof.
  induction l as [|x l IH]; cbn [JS.sortByNumber fold_right]; [reflexivity |].
  fold (JS.sortByNumber cmp l). rewrite insertByNumber_Permutation. now constructor.
Qed.

(** On scores between 0 and 1 the comparator moves [x] behind [y]
    exactly when the score of [x] is the lower one. *)
Lemma moved_behind x y :
  unitInterval (key x) -> unitInterval (key y) ->
  JS.gtNumber (byKey x y) 0 = (key x <? key y)%float.
Proof. intros Hx Hy. unfold JS.gtNumber. now apply sub_positive. Qed.

Lemma insertByNumber_HdRel x y l :
  descendingKeys y x -> HdRel descendingKeys y l ->
  HdRel descendingKeys y (JS.insertByNumber byKey x l).
Proof.
  intros Hyx Hhd. destruct l as [|z l]; cbn [JS.insertByNumber]; [now constructor |].
  destruct (JS.gtNumber _ 0); constructor; [now inversion Hhd | exact Hyx].
Qed.

Lemma insertByNumber_Sorted x l :
  unitInterval (key x) -> Forall (fun a => unitInterval (key a)) l ->
  Sorted descendingKeys l -> Sorted descendingKeys (JS.insertByNumber byKey x l).
Proof.
  intros Hx Hl Hs. induction Hs as [|y l Hs IH Hhd]; cbn [JS.insertByNumber].
  - repeat constructor.
  - inversion Hl as [|? ? Hy Hl']; subst. rewrite (moved_behind x y Hx Hy).
    destruct (key x <? key y)%float eqn:Hlt.
    + constructor; [now apply IH |].
      apply insertByNumber_HdRel; [now apply ltb_leb | exact Hhd].
    + constructor; [now constructor |]. constructor.
      rewrite (leb_ltb (key x) (key y))
        by (apply unitInterval_not_nan; assumption).
      now rewrite Hlt.
Qed.

Lemma sortByNumber_unitInterval l :
  Forall (fun a => unitInterval (key a)) l ->
  Forall (fun a => unitInterval (key a)) (JS.sortByNumber byKey l).
Proof.
  intros H. apply List.Forall_forall. intros a Ha.
  apply (Permutation_in _ (sortByNumber_Permutation _ _)) in Ha.
  rewrite List.Forall_forall in H. now apply H.
Qed.

(** Sorting by a score between 0 and 1 leaves the scores in descending
    order. *)
Lemma sortByNumber_Sorted l :
  Forall (fun a => unitInterval (key a)) l ->
  Sorted descendingKeys (JS.sortByNumber byKey l).
Proof.
  induction l as [|x l IH]; intros Hl; cbn [JS.sortByNumber fold_right]; [constructor |].
  fold (JS.sortByNumber byKey l). inversion Hl as [|? ? Hx Hl']; subst.
  apply insertByNumber_Sorted; [exact Hx | now apply sortByNumber_unitInterval | now apply IH].
Qed.

(** The sort is stable: entries with equal scores keep their order. *)
Lemma insertByNumber_stable q x l :
  List.filter (fun a => (key a =? q)%float) (JS.insertByNumber byKey x l)
  = List.filter (fun a => (key a =? q)%float) (x :: l).
Proof.
  induction l as [|y l IH]; cbn [JS.insertByNumber]; [reflexivity |].
  destruct (JS.gtNumber (byKey x y) 0) eqn:Hmoved; [| reflexivity].
  cbn [List.filter] in *. rewrite IH.
  destruct (key y =? q)%float eqn:Hy; [| reflexivity].
  destruct (key x =? q)%float eqn:Hx; [| reflexivity].
  unfold JS.gtNumber in Hmoved. rewrite (sub_of_equals (key y) (key x) q Hy Hx) in Hmoved.
  discriminate Hmoved.
Qed.

Lemma sortByNumber_stable q l :
  List.filter (fun a => (key a =? q)%float) (JS.sortByNumber byKey l)
  = List.filter (fun a => (key a =? q)%float) l.
Proof.
  induction l as [|x l IH]; cbn [JS.sortByNumber fold_right]; [reflexivity |].
  fold (JS.sortByNumber byKey l). rewrite insertByNumber_stable.
  cbn [List.filter]. now rewrite IH.
Qed.

End SortingByNumber.

Section Monotone.

Import Binary64.

Variables prec emax : Z.
Hypothesis Hprec : (0 < prec)%Z.

#[local] Abbreviation emin := (SpecFloat.emin prec emax).
#[local] Abbreviation fexp := (SpecFloat.fexp prec emax).

Lemma Zdigits2_unique m d :
  (0 < m)%Z -> (2 ^ (d - 1) <= m < 2 ^ d)%Z -> Zdigits2 m = d.
Proof.
  intros Hm [Hlo Hhi].
  pose proof (Zdigits2_pos_bounds m Hm) as [Hlo' Hhi'].
  pose proof (Zdigits2_positive m Hm) as Hd.
  assert (Hdpos : (0 < d)%Z).
  { destruct (Z_lt_le_dec 0%Z d) as [H | H]; [exact H |].
    destruct (Z.eq_dec d 0%Z) as [-> | Hne]; [cbn in Hhi; lia |].
    rewrite (Z.pow_neg_r 2 d) in Hhi by lia. lia. }
  assert (H1 : (Zdigits2 m - 1 < d)%Z).
  { apply (Z.pow_lt_mono_r_iff 2); lia. }
  assert (H2 : (d - 1 < Zdigits2 m)%Z).
  { apply (Z.pow_lt_mono_r_iff 2); lia. }
  lia.
Qed.

Lemma Zdigits2_le a b : (0 < a <= b)%Z -> (Zdigits2 a <= Zdigits2 b)%Z.
Proof.
  intros [Ha Hab].
  pose proof (Zdigits2_pos_bounds a Ha) as [Hlo _].
  pose proof (Zdigits2_pos_bounds b ltac:(lia)) as [_ Hhi].
  pose proof (Zdigits2_positive b ltac:(lia)).
  assert (Zdigits2 a - 1 < Zdigits2 b)%Z by (apply (Z.pow_lt_mono_r_iff 2); lia).
  lia.
Qed.

Lemma Zdigits2_shift a k :
  (0 < a)%Z -> (0 <= k)%Z -> Zdigits2 (a * 2 ^ k) = (Zdigits2 a + k)%Z.
Proof.
  intros Ha Hk.
  pose proof (Zdigits2_pos_bounds a Ha) as [Hlo Hhi].
  pose proof (Zdigits2_positive a Ha) as Hd.
  assert (Hp : (0 < 2 ^ k)%Z) by (apply Z.pow_pos_nonneg; lia).
  apply Zdigits2_unique; [nia |].
  replace (Zdigits2 a + k - 1)%Z with ((Zdigits2 a - 1) + k)%Z by lia.
  rewrite !Z.pow_add_r by lia. nia.
Qed.

Lemma shr_fexp_value m e l :
  (0 < m)%Z ->
  let n := Z.max 0 (fexp (Zdigits2 m + e) - e) in
  snd (shr_fexp prec emax m e l) = (e + n)%Z
  /\ shr_m (fst (shr_fexp prec emax m e l)) = (m / 2 ^ n)%Z.
Proof.
  intros Hm n. subst n. unfold shr_fexp, shr.
  destruct (fexp (Zdigits2 m + e) - e)%Z as [|p|p]; cbn [fst snd];
    rewrite ?shr_record_of_loc_m.
  - cbn [Z.max]. rewrite Z.add_0_r, Z.pow_0_r, Z.div_1_r. auto.
  - replace (Z.max 0 (Z.pos p)) with (Z.pos p) by lia. split; [reflexivity |].
    rewrite iter_shr_m by (rewrite shr_record_of_loc_m; lia).
    now rewrite shr_record_of_loc_m.
  - replace (Z.max 0 (Z.neg p)) with 0%Z by lia.
    rewrite Z.add_0_r, Z.pow_0_r, Z.div_1_r. auto.
Qed.

Lemma canonical_digits m e :
  canonical_mantissa prec emax m e = true -> fexp (Z.pos (digits2_pos m) + e) = e.
Proof. unfold canonical_mantissa. apply Z.eqb_eq. Qed.

Lemma fexp_le a b : (a <= b)%Z -> (fexp a <= fexp b)%Z.
Proof. unfold SpecFloat.fexp. lia. Qed.

Lemma SFleb_finite_spec m1 e1 m2 e2 :
  (e1 < e2 \/ (e1 = e2 /\ Z.pos m1 <= Z.pos m2))%Z ->
  SFleb (S754_finite false m1 e1) (S754_finite false m2 e2) = true.
Proof.
  unfold SFleb, SFcompare. intros H.
  destruct (Z.compare_spec e1 e2) as [He | He | He]; try reflexivity; try lia.
  rewrite Pos.compare_cont_spec. cbn [Pos.switch_Eq].
  change (Pos.compare m1 m2) with (Z.compare (Z.pos m1) (Z.pos m2)).
  destruct (Z.compare_spec (Z.pos m1) (Z.pos m2)); try reflexivity. lia.
Qed.

(** Rounding a number that is not below a canonical [x] gives a number
    that is not below [x]. *)
Lemma binary_round_aux_ge mx ex m e l :
  canonical_mantissa prec emax mx ex = true ->
  (emin <= e <= ex)%Z -> (Z.pos mx * 2 ^ (ex - e) <= m)%Z ->
  SFleb (S754_finite false mx ex) (binary_round_aux prec emax false m e l) = true.
Proof.
  intros Hc [Hemin He] Hm.
  assert (Hpw : (0 < 2 ^ (ex - e))%Z) by (apply Z.pow_pos_nonneg; lia).
  assert (Hmpos : (0 < m)%Z) by nia.
  pose proof (canonical_digits mx ex Hc) as Hfx.
  assert (Hdig : (Z.pos (digits2_pos mx) + ex <= Zdigits2 m + e)%Z).
  { pose proof (Zdigits2_le (Z.pos mx * 2 ^ (ex - e)) m ltac:(nia)) as H.
    rewrite Zdigits2_shift in H by lia. cbn [Zdigits2] in H. lia. }
  pose proof (fexp_le _ _ Hdig) as HF. rewrite Hfx in HF.
  unfold binary_round_aux.
  pose proof (shr_fexp_value m e l Hmpos) as H1. cbv zeta in H1.
  pose proof (shr_fexp_pos prec emax Hprec m e l Hmpos Hemin) as [Hp1 He1].
  destruct (shr_fexp prec emax m e l) as [mrs e1]. cbn [fst snd] in H1, Hp1, He1.
  destruct H1 as [He1v Hm1].
  set (m2 := round_nearest_even (shr_m mrs) (loc_of_shr_record mrs)).
  assert (Hr : (shr_m mrs <= m2)%Z) by apply round_nearest_even_ge.
  assert (Hm2 : (0 < m2)%Z) by lia.
  pose proof (shr_fexp_value m2 e1 loc_Exact Hm2) as H2. cbv zeta in H2.
  pose proof (shr_fexp_pos prec emax Hprec m2 e1 loc_Exact Hm2 He1) as [Hp2 _].
  destruct (shr_fexp prec emax m2 e1 loc_Exact) as [mrs' e3]. cbn [fst snd] in H2, Hp2.
  destruct H2 as [He3 Hm3].
  destruct (shr_m mrs') as [|m3|m3] eqn:Em3; [lia | | lia].
  destruct (e3 <=? emax - prec)%Z; [| reflexivity].
  apply SFleb_finite_spec.
  destruct (Z_lt_le_dec ex e3) as [Hlt | Hge]; [now left | right].
  assert (Hn2 : Z.max 0 (fexp (Zdigits2 m2 + e1) - e1) = 0%Z) by lia.
  assert (He1ex : e1 = ex) by lia.
  split; [lia |].
  rewrite Hn2, Z.pow_0_r, Z.div_1_r in Hm3. rewrite Hm3.
  apply Z.le_trans with (shr_m mrs); [| exact Hr].
  rewrite Hm1.
  assert (Hn1 : Z.max 0 (fexp (Zdigits2 m + e) - e) = (ex - e)%Z) by lia.
  rewrite Hn1. apply Z.div_le_lower_bound; [exact Hpw | lia].
Qed.

Lemma SFleb_refl_finite m e : SFleb (S754_finite false m e) (S754_finite false m e) = true.
Proof. apply SFleb_finite_spec. right. split; lia. Qed.

(** Adding a number that is not below zero does not take a number
    down. *)
Lemma SFadd_increasing x c :
  nonnegative x -> nonnegative c ->
  SpecFloat.valid_binary prec emax x = true ->
  SpecFloat.valid_binary prec emax c = true ->
  SFleb x (SFadd prec emax x c) = true.
Proof.
  intros [sx | mx ex |] [sc | mc ec |] Vx Vc; cbn [SFadd]; try reflexivity.
  - destruct sx, sc; reflexivity.
  - apply SFleb_refl_finite.
  - cbn [SpecFloat.valid_binary] in Vx, Vc. unfold bounded in Vx, Vc.
    apply andb_prop in Vx as [Cx _]. apply andb_prop in Vc as [Cc _].
    pose proof (canonical_bounds prec emax mx ex Cx) as (Hex & _).
    pose proof (canonical_bounds prec emax mc ec Cc) as (Hec & _).
    cbn [cond_Zopp]. set (ez := Z.min ex ec).
    pose proof (shl_align_fst mx ex ez ltac:(lia)) as HMx.
    set (Mx := fst (shl_align mx ex ez)) in *.
    set (Mc := fst (shl_align mc ec ez)) in *.
    unfold binary_normalize.
    destruct (Z.pos Mx + Z.pos Mc)%Z as [|S|S] eqn:ES; [lia | | lia].
    unfold binary_round.
    pose proof (shl_align_spec S ez (fexp (Z.pos (digits2_pos S) + ez))) as Hs.
    destruct (shl_align S ez _) as [mz ez1]. destruct Hs as [Hez1 Hmz].
    pose proof (fexp_ge_emin prec emax (Z.pos (digits2_pos S) + ez)) as HF.
    apply binary_round_aux_ge; [exact Cx | lia |].
    rewrite Hmz.
    replace (ex - ez1)%Z with ((ex - ez) + (ez - ez1))%Z by lia.
    rewrite Z.pow_add_r by lia.
    assert (0 < 2 ^ (ez - ez1))%Z by (apply Z.pow_pos_nonneg; lia).
    assert (0 < 2 ^ (ex - ez))%Z by (apply Z.pow_pos_nonneg; lia).
    nia.
Qed.

Lemma SFleb_trans x y z :
  nonnegative x -> nonnegative y -> nonnegative z ->
  SFleb x y = true -> SFleb y z = true -> SFleb x z = true.
Proof.
  intros [sx | mx ex |] [sy | my ey |] [sz | mz ez |]; try reflexivity; try discriminate;
    intros Hxy Hyz; try discriminate Hxy; try discriminate Hyz.
  apply SFleb_finite_spec.
  revert Hxy Hyz. unfold SFleb, SFcompare.
  rewrite !Pos.compare_cont_spec. cbn [Pos.switch_Eq].
  change (Pos.compare mx my) with (Z.compare (Z.pos mx) (Z.pos my)).
  change (Pos.compare my mz) with (Z.compare (Z.pos my) (Z.pos mz)).
  destruct (Z.compare_spec ex ey), (Z.compare_spec ey ez);
    destruct (Z.compare_spec (Z.pos mx) (Z.pos my)),
             (Z.compare_spec (Z.pos my) (Z.pos mz));
    intros; try discriminate; lia.
Qed.

End Monotone.

Section Binary64Order.

Import Binary64.

Open Scope float_scope.

Lemma add_increasing x c : nonneg x -> nonneg c -> (x <=? x + c) = true.
Proof.
  intros Hx Hc. apply nonneg_spec in Hx, Hc.
  rewrite FloatAxioms.leb_spec, FloatAxioms.add_spec.
  apply (SFadd_increasing prec emax prec_pos); auto using Prim2SF_valid.
Qed.

Lemma leb_trans x y z :
  nonneg x -> (x <=? y) = true -> (y <=? z) = true -> (x <=? z) = true.
Proof.
  intros Hx Hxy Hyz.
  assert (Hy : nonnegative (Prim2SF y)).
  { apply nonneg_spec in Hx. rewrite FloatAxioms.leb_spec in Hxy.
    destruct Hx, (Prim2SF y) as [| [] | | [] ? ?]; try discriminate Hxy; constructor. }
  assert (Hz : nonnegative (Prim2SF z)).
  { rewrite FloatAxioms.leb_spec in Hyz.
    destruct Hy, (Prim2SF z) as [| [] | | [] ? ?]; try discriminate Hyz; constructor. }
  apply nonneg_spec in Hx.
  rewrite FloatAxioms.leb_spec in *. now apply (SFleb_trans (Prim2SF x) (Prim2SF y)).
Qed.

(** [Math.min(1, x)] keeps a lower bound of [x] that is at most 1. *)
Lemma mathMin_lower b x :
  nonneg b -> (b <=? 1) = true -> (b <=? x) = true -> (b <=? JS.mathMin 1 x) = true.
Proof.
  intros Hb Hb1 Hbx.
  assert (Hx : nonneg x) by (apply (leb_trans 0 b x); [reflexivity | exact Hb | exact Hbx]).
  pose proof (nonneg_not_nan x Hx) as Hn. unfold JS.mathMin.
  change (is_nan 1) with false. rewrite Hn. cbn [orb].
  destruct (1 <? x); [exact Hb1 |].
  destruct (x <? 1); [exact Hbx |].
  change (get_sign 1) with false. exact Hbx.
Qed.

(** [Math.min(1, x)] is 1 for every [x] that is not below 1. *)
Lemma mathMin_clamps x : (1 <=? x) = true -> JS.mathMin 1 x = 1.
Proof.
  intros H1.
  assert (Hx : nonneg x) by (apply (leb_trans 0 1 x); [reflexivity | reflexivity | exact H1]).
  pose proof (nonneg_not_nan x Hx) as Hn. unfold JS.mathMin.
  change (is_nan 1) with false. rewrite Hn. cbn [orb].
  destruct (1 <? x) eqn:Hlt; [reflexivity |].
  rewrite (leb_ltb x 1) in H1 by (exact Hn || reflexivity).
  destruct (x <? 1) eqn:Hgt; [discriminate H1 |].
  change (get_sign 1) with false. cbn iota.
  (* neither below nor above 1: the number is 1 *)
  apply nonneg_spec in Hx.
  rewrite FloatAxioms.ltb_spec in Hlt, Hgt.
  apply Prim2SF_inj.
  unfold SFltb in Hlt, Hgt.
  rewrite (SFcompare_antisym (Prim2SF x) (Prim2SF 1)) in Hlt.
  change (Prim2SF 1) with (S754_finite false 4503599627370496 (-52)) in *.
  revert Hlt Hgt. generalize (Prim2SF x) Hx. clear.
  intros y [s | m e |] Hlt Hgt.
  - destruct s; discriminate Hgt.
  - assert (Heq : SFeqb (S754_finite false m e)
                    (S754_finite false 4503599627370496 (-52)) = true).
    { unfold SFeqb.
      destruct (SFcompare (S754_finite false m e)
                  (S754_finite false 4503599627370496 (-52))) as [[] |] eqn:E;
        try reflexivity; try discriminate Hlt; try discriminate Hgt.
      unfold SFcompare in E. destruct (Z.compare e (-52)); discriminate E. }
    apply SFeqb_finite in Heq as (_ & -> & ->). reflexivity.
  - discriminate Hlt.
Qed.

End Binary64Order.

(* ===================================================================== *)
(** * Facts about the string primitives                                   *)
(* ===================================================================== *)

Section StringOrder.

Lemma ascii_compare_lt_trans a b c :
  Ascii.compare a b = Lt -> Ascii.compare b c = Lt -> Ascii.compare a c = Lt.
Proof.
  unfold Ascii.compare. rewrite !N.compare_lt_iff. lia.
Qed.

Lemma string_compare_lt_trans a : forall b c,
  String.compare a b = Lt -> String.compare b c = Lt -> String.compare a c = Lt.
Proof.
  induction a as [|x a IH]; intros [|y b] [|z c]; simpl; try congruence.
  destruct (Ascii.compare x y) eqn:Hxy; try discriminate;
    destruct (Ascii.compare y z) eqn:Hyz; try discriminate; intros H1 H2.
  - apply Ascii.compare_eq_iff in Hxy, Hyz. subst.
    rewrite (proj2 (N.compare_eq_iff _ _) eq_refl : Ascii.compare z z = Eq).
    eauto.
  - apply Ascii.compare_eq_iff in Hxy. subst. now rewrite Hyz.
  - apply Ascii.compare_eq_iff in Hyz. subst. now rewrite Hxy.
  - now rewrite (ascii_compare_lt_trans _ _ _ Hxy Hyz).
Qed.

Lemma strLe_alt a b : JS.strLe a b <-> String.compare a b = Lt \/ a = b.
Proof.
  unfold JS.strLe, String.leb. split.
  - destruct (String.compare a b) eqn:E; try discriminate; intros _.
    + right. now apply String.compare_eq_iff.
    + now left.
  - intros [-> | ->]; [reflexivity |].
    destruct (String.compare b b) eqn:E; try reflexivity.
    pose proof (String.compare_antisym b b) as H. rewrite E in H. discriminate.
Qed.

#[global] Instance strLe_trans : Transitive JS.strLe.
Proof.
  intros a b c. rewrite !strLe_alt.
  intros [H1 | ->] [H2 | ->]; eauto using string_compare_lt_trans.
Qed.

#[global] Instance strLe_total : Total JS.strLe.
Proof. intros a b. apply String.leb_total. Qed.

#[global] Instance strLe_antisym : AntiSymm (=) JS.strLe.
Proof. intros a b. apply String.leb_antisym. Qed.

Lemma sort_Sorted l : Sorted JS.strLe (JS.sort l).
Proof. apply Sorted_merge_sort, _. Qed.

Lemma sort_Permutation l : Permutation (JS.sort l) l.
Proof. apply merge_sort_Permutation. Qed.

(** Sorting forgets the order of the input, and nothing else. *)
Lemma sort_eq_iff l1 l2 : JS.sort l1 = JS.sort l2 <-> Permutation l1 l2.
Proof.
  split; intros H.
  - rewrite <- (sort_Permutation l1), <- (sort_Permutation l2), H. reflexivity.
  - apply (Sorted_unique JS.strLe); try apply sort_Sorted.
    now rewrite !sort_Permutation.
Qed.

Lemma sort_idempotent l : JS.sort (JS.sort l) = JS.sort l.
Proof. apply sort_eq_iff, sort_Permutation. Qed.

End StringOrder.

Section CacheKeys.

Import JSON.

Lemma append_nil (t : string) : EmptyString ++ t = t.
Proof. reflexivity. Qed.

Lemma append_cons c (s t : string) : String c s ++ t = String c (s ++ t).
Proof. reflexivity. Qed.

Lemma string_cons_inj c (s t : string) : String c s = String c t -> s = t.
Proof. intros H. now inversion H. Qed.

Lemma append_assoc (a b c : string) : (a ++ b) ++ c = a ++ (b ++ c).
Proof.
  induction a as [|x a IH]; [reflexivity |].
  now rewrite !append_cons, IH.
Qed.

(** Reading back one escaped code unit. *)
Lemma unquoteBody_escapeChar c t :
  unquoteBody (escapeChar c ++ t)
  = match unquoteBody t with
    | Some (s, rest) => Some (String c s, rest)
    | None => None
    end.
Proof.
  destruct c as [[] [] [] [] [] [] [] []]; reflexivity.
Qed.

Lemma unquoteBody_escape s rest :
  unquoteBody (escape s ++ String dquote rest) = Some (s, rest).
Proof.
  induction s as [|c s IH].
  - reflexivity.
  - change (escape (String c s)) with (escapeChar c ++ escape s).
    rewrite append_assoc, unquoteBody_escapeChar, IH. reflexivity.
Qed.

Lemma unquote_quote s rest : unquote (quote s ++ rest) = Some (s, rest).
Proof.
  unfold quote. rewrite append_cons, append_assoc, append_cons, append_nil.
  apply unquoteBody_escape.
Qed.

(** A quoted string is a prefix code. *)
Lemma quote_prefix_inj s1 s2 r1 r2 :
  quote s1 ++ r1 = quote s2 ++ r2 -> s1 = s2 /\ r1 = r2.
Proof.
  intros H. pose proof (unquote_quote s1 r1) as H1.
  rewrite H, unquote_quote in H1. now inversion H1.
Qed.

Lemma join_arrayTail q rest :
  JS.join "," (q :: rest) ++ "]" = q ++ arrayTail rest.
Proof.
  revert q. induction rest as [|q' rest IH]; intros q.
  - reflexivity.
  - change (JS.join "," (q :: q' :: rest)) with (q ++ "," ++ JS.join "," (q' :: rest)).
    rewrite !append_assoc, IH. reflexivity.
Qed.

Lemma stringifyArray_body arr :
  stringifyArray arr = "[" ++ arrayBody (map quote arr).
Proof.
  unfold stringifyArray. destruct arr as [|a arr]; [reflexivity |].
  simpl map. unfold arrayBody. now rewrite <- join_arrayTail.
Qed.

Ltac flatten_append H :=
  cbn [map arrayTail arrayBody] in H;
  rewrite ?append_assoc, ?append_cons, ?append_nil in H.

Lemma arrayTail_inj l1 : forall l2 r1 r2,
  arrayTail (map quote l1) ++ r1 = arrayTail (map quote l2) ++ r2 ->
  l1 = l2 /\ r1 = r2.
Proof.
  induction l1 as [|a l1 IH]; intros [|b l2] r1 r2 H; flatten_append H.
  - now inversion H.
  - discriminate.
  - discriminate.
  - apply string_cons_inj in H.
    apply quote_prefix_inj in H as [-> H].
    apply IH in H as [-> ->]. easy.
Qed.

Lemma arrayBody_inj l1 l2 r1 r2 :
  arrayBody (map quote l1) ++ r1 = arrayBody (map quote l2) ++ r2 ->
  l1 = l2 /\ r1 = r2.
Proof.
  destruct l1 as [|a l1], l2 as [|b l2]; intros H; flatten_append H.
  - now inversion H.
  - unfold quote in H. rewrite append_cons in H. discriminate.
  - unfold quote in H. rewrite append_cons in H. discriminate.
  - apply quote_prefix_inj in H as [-> H].
    apply arrayTail_inj in H as [-> ->]. easy.
Qed.

Import RecommendationService.

Lemma modeText_inj m1 m2 : modeText m1 = modeText m2 -> m1 = m2.
Proof. destruct m1, m2; simpl; congruence. Qed.

(** Distinct (sorted priorities, location, mode) have distinct keys. *)
Lemma stringifyKey_inj p1 z1 m1 p2 z2 m2 :
  stringifyKey p1 z1 m1 = stringifyKey p2 z2 m2 -> p1 = p2 /\ z1 = z2 /\ m1 = m2.
Proof.
  unfold stringifyKey, field. rewrite !stringifyArray_body. intros H.
  rewrite ?append_assoc, ?append_cons, ?append_nil in H.
  apply string_cons_inj in H.
  apply quote_prefix_inj in H as [_ H].
  rewrite ?append_cons, ?append_nil in H. do 2 apply string_cons_inj in H.
  apply arrayBody_inj in H as [-> H].
  rewrite ?append_cons, ?append_nil in H. apply string_cons_inj in H.
  apply quote_prefix_inj in H as [_ H].
  rewrite ?append_cons, ?append_nil in H. apply string_cons_inj in H.
  apply quote_prefix_inj in H as [-> H].
  rewrite ?append_cons, ?append_nil in H. apply string_cons_inj in H.
  apply quote_prefix_inj in H as [_ H].
  rewrite ?append_cons, ?append_nil in H. apply string_cons_inj in H.
  apply quote_prefix_inj in H as [Hm _].
  auto using modeText_inj.
Qed.

End CacheKeys.

(* ===================================================================== *)
(** * The orchestrator, case by case                                      *)
(* ===================================================================== *)

Section Runs.

Import RecommendationService Orchestration.

Variable svc : Services.

#[local] Arguments JS.sort : simpl never.
#[local] Arguments stringifyKey : simpl never.

Ltac unfold_run :=
  unfold generateRecommendations, bind, tryCatch, getRequest, generateCacheKey,
    cacheGet, cacheSet, invoke, ret, throw.

(** A call answered from the cache. *)
Lemma run_cached w r :
  cachedResult w = Some r ->
  generateRecommendations svc w
  = (Returned r,
     {| request := sortedRequest (request w); cache := cache w; calls := calls w |}).
Proof.
  unfold cachedResult, cacheKey, isTestRequest. unfold_run.
  destruct (existsb isTestPriority (priorities (request w))); [discriminate |].
  simpl. intros ->. reflexivity.
Qed.

(** A call whose mapping fails. *)
Lemma run_mapper_threw w e :
  cachedResult w = None ->
  priorityMapper svc (priorities (effectiveRequest (request w))) = Threw e ->
  generateRecommendations svc w
  = (Returned (failureResult e),
     {| request := effectiveRequest (request w);
        cache := cache w;
        calls := (calls w ++ [PriorityMapper])%list |}).
Proof.
  unfold cachedResult, effectiveRequest, cacheKey, isTestRequest. unfold_run.
  destruct w as [req c l]. simpl.
  destruct (existsb isTestPriority (priorities req)); simpl.
  - intros _ Hm. rewrite Hm. destruct req; reflexivity.
  - intros Hc Hm. rewrite Hc. simpl. rewrite Hm. reflexivity.
Qed.

(** A call whose mapping succeeds and whose candidate failure is
    rethrown. *)
Lemma run_rethrown w a e :
  cachedResult w = None ->
  priorityMapper svc (priorities (effectiveRequest (request w))) = Returned a ->
  candidateMatcher svc a (candidateOptions (request w)) = Threw e ->
  rethrows (request w) = true ->
  generateRecommendations svc w
  = (Returned (failureResult e),
     {| request := request w;
        cache := cache w;
        calls := (calls w ++ [PriorityMapper; CandidateMatcher])%list |}).
Proof.
  unfold cachedResult, effectiveRequest, rethrows, candidateOptions, cacheKey,
    isTestRequest. unfold_run.
  destruct w as [req c l]. simpl.
  destruct (existsb isTestPriority (priorities req)); simpl; [| discriminate].
  intros _ Hm Hc Hr. rewrite Hm. simpl. rewrite Hc. simpl. rewrite Hr.
  rewrite <- app_assoc. destruct req; reflexivity.
Qed.

(** A call whose mapping succeeds and that reaches step 5. *)
Lemma run_compiled w a :
  cachedResult w = None ->
  priorityMapper svc (priorities (effectiveRequest (request w))) = Returned a ->
  let c := candidateMatcher svc a (candidateOptions (request w)) in
  let m := ballotMeasureAnalyzer svc a (zipCode (request w)) (measureOptions (request w)) in
  (thrownBy c = None \/ rethrows (request w) = false) ->
  generateRecommendations svc w
  = (Returned (compiled a c m),
     {| request := effectiveRequest (request w);
        cache := if isTestRequest (request w) then cache w
                 else <[cacheKey (request w) := compiled a c m]> (cache w);
        calls := (calls w ++ [PriorityMapper; CandidateMatcher; MeasureMatcher])%list |}).
Proof.
  unfold cachedResult, effectiveRequest, rethrows, candidateOptions, measureOptions,
    cacheKey, isTestRequest, compiled. unfold_run.
  destruct w as [req c l]. simpl.
  destruct (existsb isTestPriority (priorities req)) eqn:Htest; simpl.
  - intros _ Hm Hc. rewrite Hm. simpl.
    destruct (candidateMatcher svc a _) as [cs | e] eqn:Hcm; simpl.
    + destruct (ballotMeasureAnalyzer svc a _ _) as [ms | e']; simpl;
        rewrite <- !app_assoc; destruct req; reflexivity.
    + destruct Hc as [Hc | Hc]; [discriminate |]. rewrite Hc.
      destruct (ballotMeasureAnalyzer svc a _ _) as [ms | e']; simpl;
        rewrite <- !app_assoc; destruct req; reflexivity.
  - intros Hc Hm _. rewrite Hc. simpl. rewrite Hm. simpl.
    destruct (candidateMatcher svc a _) as [cs | e] eqn:Hcm; simpl;
      destruct (ballotMeasureAnalyzer svc a _ _) as [ms | e']; simpl;
      rewrite sort_idempotent, <- !app_assoc; reflexivity.
Qed.

End Runs.

Section RunCases.

Import RecommendationService Orchestration.

Variable svc : Services.

Lemma run_cases w : RunCase svc w (generateRecommendations svc w).
Proof.
  destruct (cachedResult w) as [r |] eqn:Hc.
  - rewrite (run_cached svc w r Hc). now constructor.
  - destruct (priorityMapper svc (priorities (effectiveRequest (request w))))
      as [a | e] eqn:Hm.
    + destruct (candidateMatcher svc a (candidateOptions (request w))) as [cs | e] eqn:Hcm.
      * rewrite (run_compiled svc w a Hc Hm); [| left; now rewrite Hcm].
        apply Compiled; auto. left. now rewrite Hcm.
      * destruct (rethrows (request w)) eqn:Hr.
        -- rewrite (run_rethrown svc w a e Hc Hm Hcm Hr). now apply Rethrown with a.
        -- rewrite (run_compiled svc w a Hc Hm); [| now right].
           apply Compiled; auto.
    + rewrite (run_mapper_threw svc w e Hc Hm). now constructor.
Qed.

Lemma run_returns w : exists r w', generateRecommendations svc w = (Returned r, w').
Proof. destruct (run_cases w); eauto. Qed.

Lemma rethrows_test req : rethrows req = true -> isTestRequest req = true.
Proof. unfold rethrows. now intros [H _]%andb_prop. Qed.

Lemma effectiveRequest_plain req : isTestRequest req = false -> effectiveRequest req = sortedRequest req.
Proof. unfold effectiveRequest. now intros ->. Qed.

Lemma cachedResult_test w : isTestRequest (request w) = true -> cachedResult w = None.
Proof. unfold cachedResult. now intros ->. Qed.

(** The request object after a call that consults the cache. *)
Lemma request_after w :
  isTestRequest (request w) = false ->
  request (snd (generateRecommendations svc w)) = sortedRequest (request w).
Proof.
  intros Ht. destruct (run_cases w) as [r Hc | e Hc Hm | a e Hc Hm Hcm Hr | a Hc Hm c m Hor];
    simpl; auto using effectiveRequest_plain.
  apply rethrows_test in Hr. congruence.
Qed.

(** The cache after a call: untouched, or one entry under the key of the
    request. *)
Lemma cache_after w :
  cache (snd (generateRecommendations svc w)) = cache w
  \/ exists r, cache (snd (generateRecommendations svc w))
               = <[cacheKey (request w) := r]> (cache w).
Proof.
  destruct (run_cases w) as [r Hc | e Hc Hm | a e Hc Hm Hcm Hr | a Hc Hm c m Hor];
    simpl; auto.
  destruct (isTestRequest (request w)); eauto.
Qed.

Lemma callCount_app who w l :
  callCount who {| request := request w; cache := cache w; calls := (calls w ++ l)%list |}
  = (callCount who w + length (List.filter (fun s => bool_decide (s = who)) l))%nat.
Proof. unfold callCount. simpl. now rewrite List.filter_app, length_app. Qed.

(** A call that is not answered from the cache reaches the mapper, once. *)
Lemma mapper_called_on_miss w :
  cachedResult w = None ->
  callCount PriorityMapper (snd (generateRecommendations svc w))
  = S (callCount PriorityMapper w).
Proof.
  intros Hnone.
  destruct (run_cases w) as [r Hc | e Hc Hm | a e Hc Hm Hcm Hr | a Hc Hm c m Hor];
    [congruence | | |]; unfold callCount; simpl;
    rewrite List.filter_app, length_app; simpl; lia.
Qed.

End RunCases.

(* ===================================================================== *)
(** * Orchestrator: failure handling                                      *)
(* ===================================================================== *)

Section ErrorHandling.

Import RecommendationService Orchestration Fixtures.

(** C1.  A call to [generateRecommendations] always returns a result and
    never throws; when the call reaches the Priority Mapper and the mapper
    throws, the result has no candidates, no ballot measures, the
    explanation of the failure, and the [error] field set. *)
Theorem generateRecommendations_never_raises (svc : Services) (w : World) :
  (exists r w', generateRecommendations svc w = (Returned r, w'))
  /\ (forall e,
        cachedResult w = None ->
        priorityMapper svc (priorities (effectiveRequest (request w))) = Threw e ->
        exists r w',
          generateRecommendations svc w = (Returned r, w')
          /\ candidates r = []
          /\ ballotMeasures r = []
          /\ topPolicies (policyRecommendations r) = []
          /\ explanation (policyRecommendations r)
             = "Unable to generate recommendations due to an error."
          /\ error r = Some (errorText e)).
Proof.
  split; [apply run_returns |].
  intros e Hc Hm. rewrite (run_mapper_threw svc w e Hc Hm).
  do 2 eexists. repeat split.
Qed.

Lemma generateRecommendations_never_raises_witness :
  exists r w',
    generateRecommendations failingMapper (freshWorld economyRequest) = (Returned r, w')
    /\ candidates r = []
    /\ ballotMeasures r = []
    /\ topPolicies (policyRecommendations r) = []
    /\ explanation (policyRecommendations r)
       = "Unable to generate recommendations due to an error."
    /\ error r = Some "Service unavailable".
Proof.
  apply (proj2 (generateRecommendations_never_raises failingMapper
                  (freshWorld economyRequest))
           (ErrorObject "Service unavailable"));
    reflexivity.
Defined.

(** The rethrow of the candidate branch breaks the isolation: on a test
    request that lists [throw_error], a failing Candidate Matcher empties
    the ballot measures and the policy summary as well. *)
Lemma isolation_fails_on_throw_error :
  ~ IsolatesMatcherFailure failingCandidates (freshWorld throwErrorRequest).
Proof.
  intros H.
  pose (a := PriorityMappingService.analyzePriorities ["test"; "throw_error"]).
  destruct (H a (failureResult (ErrorObject "Service unavailable"))
              (snd (generateRecommendations failingCandidates
                      (freshWorld throwErrorRequest))))
    as [Hcand _]; try (vm_compute; reflexivity).
  destruct (BallotMeasureService.findRelevantMeasures a "94110"
              (measureOptions throwErrorRequest)) as [ms | e] eqn:Hms;
    [| vm_compute in Hms; discriminate].
  destruct (Hcand (ErrorObject "Service unavailable") ms eq_refl Hms)
    as (_ & _ & Hbm & _).
  simpl in Hbm. destruct ms; [vm_compute in Hms; discriminate | discriminate].
Qed.

(** C2 (amended).  With the mapping in hand: a failing Candidate Matcher,
    unless its failure is rethrown, leaves no candidates, the ballot
    measures and the policy summary of the mapping, and the error text
    of any truthy thrown value; a failing Measure Matcher leaves no
    ballot measures, and the candidates and the policy summary of the
    mapping. *)
Theorem matcher_failure_isolated (svc : Services) (w : World) (a : PriorityAnalysis) :
  cachedResult w = None ->
  priorityMapper svc (priorities (effectiveRequest (request w))) = Returned a ->
  let c := candidateMatcher svc a (candidateOptions (request w)) in
  let m := ballotMeasureAnalyzer svc a (zipCode (request w)) (measureOptions (request w)) in
  exists r w',
    generateRecommendations svc w = (Returned r, w')
    /\ (forall e ms,
          c = Threw e -> m = Returned ms -> rethrows (request w) = false ->
          candidates r = []
          /\ (isTruthy e = true -> error r = Some (errorText e))
          /\ ballotMeasures r = map presentMeasure ms
          /\ policyRecommendations r = generatePolicyRecommendations a)
    /\ (forall e cs,
          m = Threw e -> c = Returned cs ->
          ballotMeasures r = []
          /\ candidates r = map presentCandidate cs
          /\ policyRecommendations r = generatePolicyRecommendations a).
Proof.
  intros Hc Hm c m.
  destruct (thrownBy c) as [e |] eqn:Hthrown.
  - destruct (rethrows (request w)) eqn:Hr.
    + destruct c as [cs | e0] eqn:Ec; [discriminate |].
      rewrite (run_rethrown svc w a e0 Hc Hm Ec Hr).
      do 2 eexists. split; [reflexivity |]. split.
      * intros ? ? _ _ ?. discriminate.
      * intros ? ? _ ?. discriminate.
    + rewrite (run_compiled svc w a Hc Hm); [| now right].
      do 2 eexists. split; [reflexivity |].
      fold c m. unfold compiled. simpl. split.
      * intros e0 ms -> -> _. simpl. repeat split. now intros ->.
      * intros e0 cs -> ->. simpl. repeat split.
  - rewrite (run_compiled svc w a Hc Hm); [| now left].
    do 2 eexists. split; [reflexivity |].
    fold c m. unfold compiled. simpl. split.
    + intros e0 ms -> -> _. simpl. repeat split. now intros ->.
    + intros e0 cs -> ->. simpl. repeat split.
Qed.

Lemma matcher_failure_isolated_witness :
  exists r w',
    generateRecommendations failingCandidates (freshWorld economyRequest) = (Returned r, w')
    /\ candidates r = []
    /\ error r = Some "Service unavailable"
    /\ ballotMeasures r <> []
    /\ topPolicies (policyRecommendations r) = ["Economy"; "Education"].
Proof.
  pose (a := PriorityMappingService.analyzePriorities ["Economy"; "Education"]).
  destruct (matcher_failure_isolated failingCandidates (freshWorld economyRequest) a
              eq_refl eq_refl) as (r & w' & Hrun & Hcand & _).
  exists r, w'. split; [exact Hrun |].
  destruct (BallotMeasureService.findRelevantMeasures a "94110"
              (measureOptions economyRequest)) as [ms | e] eqn:Hms;
    [| vm_compute in Hms; discriminate].
  destruct (Hcand (ErrorObject "Service unavailable") ms eq_refl Hms eq_refl)
    as (H1 & H2 & H3 & H4).
  repeat split.
  - exact H1.
  - exact (H2 eq_refl).
  - rewrite H3. destruct ms; [vm_compute in Hms; discriminate | discriminate].
  - rewrite H4. reflexivity.
Defined.

(** A failing Measure Matcher leaves the [error] field unset. *)
Example measure_failure_sets_no_error :
  error (match fst (generateRecommendations failingMeasures (freshWorld economyRequest)) with
         | Returned r => r
         | Threw e => failureResult e
         end) = None.
Proof. vm_compute. reflexivity. Qed.

End ErrorHandling.

(* ===================================================================== *)
(** * Orchestrator: the cache and the request object                      *)
(* ===================================================================== *)

Section Caching.

Import RecommendationService Orchestration Fixtures.

Lemma cacheKey_eq_iff req1 req2 :
  cacheKey req1 = cacheKey req2
  <-> Permutation (priorities req1) (priorities req2)
      /\ zipCode req1 = zipCode req2 /\ mode req1 = mode req2.
Proof.
  unfold cacheKey. split.
  - intros (Hp & Hz & Hm)%stringifyKey_inj. now apply sort_eq_iff in Hp.
  - intros (Hp%sort_eq_iff & -> & ->). now rewrite Hp.
Qed.

Lemma existsb_Permutation {A} (f : A -> bool) l1 l2 :
  Permutation l1 l2 -> existsb f l1 = existsb f l2.
Proof.
  induction 1; simpl; try congruence.
  now rewrite !orb_assoc, (orb_comm (f y)).
Qed.

Lemma isTestRequest_Permutation req1 req2 :
  Permutation (priorities req1) (priorities req2) ->
  isTestRequest req1 = isTestRequest req2.
Proof. apply existsb_Permutation. Qed.

Lemma callCount_nextCall who req w : callCount who (nextCall req w) = callCount who w.
Proof. reflexivity. Qed.

(** The call count of each collaborator grows by at most one per call. *)
Lemma calls_grow_by_one svc who w :
  (callCount who w <= callCount who (snd (generateRecommendations svc w))
   <= S (callCount who w))%nat.
Proof.
  destruct (run_cases svc w) as [r Hc | e Hc Hm | a e Hc Hm Hcm Hr | a Hc Hm c m Hor];
    unfold callCount; simpl; rewrite ?List.filter_app, ?length_app; simpl;
    destruct who; simpl; lia.
Qed.

(** Test traffic bypasses the cache: both of two identical calls are
    computed. *)
Lemma test_requests_are_recomputed :
  ~ AtMostOnceAcross productionServices testRequest testRequest.
Proof.
  intros H. specialize (H PriorityMapper). vm_compute in H. lia.
Qed.

(** The key counts repeated priorities: the same set with a repetition
    is another key. *)
Example repeated_priority_is_recomputed :
  callCount PriorityMapper
    (afterSecond productionServices
       {| priorities := ["Economy"]; zipCode := "94110"; mode := current |}
       {| priorities := ["Economy"; "Economy"]; zipCode := "94110"; mode := current |})
  = 2%nat.
Proof. vm_compute. reflexivity. Qed.

(** A failed mapping is not cached. *)
Example failed_mapping_is_recomputed :
  callCount PriorityMapper (afterSecond failingMapper economyRequest economyRequest)
  = 2%nat.
Proof. vm_compute. reflexivity. Qed.

(** C3 (amended).  Two calls in a row on one service instance.  If the
    first request is not test traffic, its mapping does not throw, and
    the second request has the same priorities up to order (repetitions
    counted), the same location and the same mode, then the second call
    returns the result of the first without calling any collaborator,
    and each collaborator is called at most once over both calls.  If
    the second request differs in its priorities (as a multiset), its
    location or its mode, and its key is not in the cache before the
    first call, then the second call calls the Priority Mapper. *)
Theorem cache_hit_and_miss (svc : Services) (w0 : World)
    (req1 req2 : RecommendationRequest) :
  let run1 := generateRecommendations svc (nextCall req1 w0) in
  let run2 := generateRecommendations svc (nextCall req2 (snd run1)) in
  (isTestRequest req1 = false ->
   (forall e, priorityMapper svc (JS.sort (priorities req1)) <> Threw e) ->
   Permutation (priorities req1) (priorities req2) ->
   zipCode req1 = zipCode req2 ->
   mode req1 = mode req2 ->
   fst run2 = fst run1
   /\ calls (snd run2) = calls (snd run1)
   /\ forall who, (callCount who (snd run2) <= S (callCount who w0))%nat)
  /\ (cache w0 !! cacheKey req2 = None ->
      (~ Permutation (priorities req1) (priorities req2)
       \/ zipCode req1 <> zipCode req2 \/ mode req1 <> mode req2) ->
      callCount PriorityMapper (snd run2) = S (callCount PriorityMapper (snd run1))).
Proof.
  intros run1 run2. split.
  - intros Ht Hok Hp Hz Hm.
    assert (Hkey : cacheKey req2 = cacheKey req1) by (symmetry; now apply cacheKey_eq_iff).
    assert (Ht2 : isTestRequest req2 = false)
      by now rewrite <- (isTestRequest_Permutation req1 req2 Hp).
    assert (Hhit : exists r, fst run1 = Returned r /\ cache (snd run1) !! cacheKey req1 = Some r).
    { subst run1.
      destruct (run_cases svc (nextCall req1 w0))
        as [r Hc | e Hc Hmap | a e Hc Hmap Hcm Hr | a Hc Hmap c m Hor]; simpl in *.
      - exists r. split; [reflexivity |].
        unfold cachedResult in Hc. simpl in Hc. now rewrite Ht in Hc.
      - rewrite (effectiveRequest_plain _ Ht) in Hmap. now apply Hok in Hmap.
      - apply rethrows_test in Hr. congruence.
      - eexists. split; [reflexivity |]. rewrite Ht. apply lookup_insert_eq. }
    destruct Hhit as (r & Hr1 & Hlook).
    assert (Hc2 : cachedResult (nextCall req2 (snd run1)) = Some r).
    { unfold cachedResult. simpl. now rewrite Ht2, Hkey. }
    subst run2. rewrite (run_cached svc _ r Hc2). simpl.
    repeat split; [now rewrite Hr1 |].
    intros who. change (callCount who (snd run1) <= S (callCount who w0))%nat.
    subst run1. rewrite <- (callCount_nextCall who req1 w0). apply calls_grow_by_one.
  - intros Hfresh Hdiff.
    assert (Hkey : cacheKey req1 <> cacheKey req2).
    { intros (Hp & Hz & Hm)%cacheKey_eq_iff. tauto. }
    subst run2.
    rewrite mapper_called_on_miss; [reflexivity |].
    unfold cachedResult. simpl. destruct (isTestRequest req2); [reflexivity |].
    subst run1. destruct (cache_after svc (nextCall req1 w0)) as [-> | [r ->]]; simpl.
    + exact Hfresh.
    + now rewrite lookup_insert_ne.
Qed.

Lemma cache_hit_and_miss_witness :
  (fst (generateRecommendations productionServices
          (nextCall reorderedRequest (afterFirst productionServices economyRequest)))
   = fst (generateRecommendations productionServices (freshWorld economyRequest))
   /\ calls (afterSecond productionServices economyRequest reorderedRequest)
      = [PriorityMapper; CandidateMatcher; MeasureMatcher])
  /\ callCount PriorityMapper (afterSecond productionServices economyRequest demoRequest)
     = 2%nat.
Proof.
  split.
  - destruct (proj1 (cache_hit_and_miss productionServices (freshWorld economyRequest)
                       economyRequest reorderedRequest))
      as (H1 & H2 & _).
    + reflexivity.
    + intros e. discriminate.
    + apply perm_swap.
    + reflexivity.
    + reflexivity.
    + split; [exact H1 |]. etransitivity; [exact H2 |]. vm_compute. reflexivity.
  - etransitivity.
    + apply (proj2 (cache_hit_and_miss productionServices (freshWorld economyRequest)
                      economyRequest demoRequest)).
      * reflexivity.
      * right. right. discriminate.
    + vm_compute. reflexivity.
Defined.

(** C10.  On a request that is not test traffic, the call leaves the
    priorities array of the request sorted in code-unit order, with the
    same elements, and leaves the location and the mode as they were. *)
Theorem priorities_sorted_in_place (svc : Services) (w : World) :
  isTestRequest (request w) = false ->
  let after := request (snd (generateRecommendations svc w)) in
  priorities after = JS.sort (priorities (request w))
  /\ Sorted JS.strLe (priorities after)
  /\ Permutation (priorities after) (priorities (request w))
  /\ zipCode after = zipCode (request w)
  /\ mode after = mode (request w).
Proof.
  intros Ht after. subst after. rewrite (request_after svc w Ht). simpl.
  auto using sort_Sorted, sort_Permutation.
Qed.

Lemma priorities_sorted_in_place_witness :
  request (afterFirst productionServices reorderedRequest) = economyRequest.
Proof.
  destruct (priorities_sorted_in_place productionServices (freshWorld reorderedRequest)
              eq_refl) as (Hp & _ & _ & Hz & Hm).
  destruct (request (afterFirst productionServices reorderedRequest)) as [p z m] eqn:E.
  unfold afterFirst in E. rewrite E in Hp, Hz, Hm. simpl in Hp, Hz, Hm.
  subst p z m. reflexivity.
Defined.

End Caching.

(* ===================================================================== *)
(** * Priority Mapper: flagged, blank and mapped priorities               *)
(* ===================================================================== *)

Section Classification.

Import MockData PriorityMappingService Mapping.

Lemma classify_fold ps : forall flagged valid,
  fold_left classify ps (flagged, valid)
  = ((flagged ++ flat_map flagOf ps)%list, (valid ++ List.filter isValid ps)%list).
Proof.
  induction ps as [|p ps IH]; intros flagged valid; simpl.
  - now rewrite !app_nil_r.
  - unfold flagOf at 1, isValid at 1, isFlagged.
    destruct (isBlank p); simpl; [apply IH |].
    destruct (firstPattern p) as [ep |]; simpl; rewrite IH, <- app_assoc; reflexivity.
Qed.

Lemma analyzePriorities_mapped ps :
  mappedPriorities (analyzePriorities ps) = map mapValidPriority (List.filter isValid ps).
Proof. unfold analyzePriorities. now rewrite classify_fold. Qed.

Lemma analyzePriorities_flagged ps :
  flaggedPriorities (analyzePriorities ps) = flat_map flagOf ps.
Proof. unfold analyzePriorities. now rewrite classify_fold. Qed.

Lemma mapValidPriority_text p : mp_userPriority (mapValidPriority p) = p.
Proof.
  unfold mapValidPriority.
  destruct (if JS.includes _ _ then _ else _); [reflexivity |].
  destruct (_ =? _)%nat; reflexivity.
Qed.

Lemma mappedTexts_eq ps : mappedTexts (analyzePriorities ps) = List.filter isValid ps.
Proof.
  unfold mappedTexts. rewrite analyzePriorities_mapped, map_map.
  erewrite map_ext; [apply map_id |]. apply mapValidPriority_text.
Qed.

Lemma flaggedTexts_eq ps :
  flaggedTexts (analyzePriorities ps)
  = List.filter (fun p => negb (isBlank p) && isFlagged p) ps.
Proof.
  unfold flaggedTexts. rewrite analyzePriorities_flagged.
  induction ps as [|p ps IH]; simpl; [reflexivity |].
  rewrite map_app, IH. unfold flagOf, isFlagged.
  destruct (isBlank p); simpl; [reflexivity |].
  destruct (firstPattern p); reflexivity.
Qed.

End Classification.

Section FlaggedPriorities.

Import MockData PriorityMappingService Mapping.

Lemma matchesPrefix_Nul s : Regex.matchesPrefix Regex.Nul s = false.
Proof. induction s; simpl; auto. Qed.

Lemma trimStart_blank s : JS.trimStart s = EmptyString ->
  match s with
  | EmptyString => True
  | String c s' => JS.isWhiteSpace c = true /\ JS.trimStart s' = EmptyString
  end.
Proof.
  destruct s as [|c s']; simpl; [trivial |].
  destruct (JS.isWhiteSpace c); [auto | discriminate].
Qed.

Lemma trimEnd_empty s : JS.trimEnd s = EmptyString -> JS.trimStart s = EmptyString.
Proof.
  induction s as [|c s IH]; simpl; [reflexivity |].
  destruct (JS.trimEnd s) eqn:E; [| discriminate].
  destruct (JS.isWhiteSpace c); [auto | discriminate].
Qed.

Lemma trimStart_idempotent s : JS.trimStart (JS.trimStart s) = JS.trimStart s.
Proof.
  induction s as [|c s IH]; simpl; [reflexivity |].
  destruct (JS.isWhiteSpace c) eqn:E; [exact IH |]. simpl. now rewrite E.
Qed.

Lemma isBlank_trimStart s : isBlank s = true -> JS.trimStart s = EmptyString.
Proof.
  unfold isBlank, JS.trim. intros H%Nat.eqb_eq.
  destruct (JS.trimEnd (JS.trimStart s)) eqn:E; [| discriminate].
  apply trimEnd_empty in E. now rewrite trimStart_idempotent in E.
Qed.

(** Every registered pattern starts with a letter: white space takes it
    to the pattern that matches nothing. *)
Lemma pattern_deriv_space ep c :
  In ep EXTREME_PRIORITY_PATTERNS -> JS.isWhiteSpace c = true ->
  Regex.nullable (ep_pattern ep) = false /\ Regex.deriv c (ep_pattern ep) = Regex.Nul.
Proof.
  intros Hin Hc.
  assert (Hcases : c = "009"%char \/ c = "010"%char \/ c = "011"%char \/ c = "012"%char
                   \/ c = "013"%char \/ c = " "%char \/ c = "160"%char).
  { destruct c as [[] [] [] [] [] [] [] []]; try discriminate Hc; tauto. }
  simpl in Hin.
  destruct Hin as [<- | [<- | [<- | [<- | []]]]];
    destruct Hcases as [-> | [-> | [-> | [-> | [-> | [-> | ->]]]]]];
    split; reflexivity.
Qed.

Lemma pattern_never_matches_blank ep s :
  In ep EXTREME_PRIORITY_PATTERNS -> JS.trimStart s = EmptyString ->
  Regex.test (ep_pattern ep) s = false.
Proof.
  intros Hin. induction s as [|c s IH]; intros Hs.
  - simpl. destruct (pattern_deriv_space ep " "%char Hin eq_refl) as [-> _]. reflexivity.
  - apply trimStart_blank in Hs as [Hc Hs].
    destruct (pattern_deriv_space ep c Hin Hc) as [Hn Hd].
    simpl. rewrite Hn, Hd, matchesPrefix_Nul. simpl. auto.
Qed.

(** A priority that matches a pattern is not blank. *)
Lemma flagged_not_blank p : isFlagged p = true -> isBlank p = false.
Proof.
  unfold isFlagged, firstPattern. intros H.
  destruct (List.find _ _) as [ep |] eqn:Hf; [| discriminate].
  apply List.find_some in Hf as [Hin Ht].
  destruct (isBlank p) eqn:Hb; [| reflexivity].
  apply isBlank_trimStart in Hb.
  rewrite (pattern_never_matches_blank ep p Hin Hb) in Ht. discriminate.
Qed.

Lemma find_first {A} (f : A -> bool) (l : list A) (x : A) :
  List.find f l = Some x ->
  exists earlier later,
    l = (earlier ++ x :: later)%list
    /\ f x = true
    /\ Forall (fun y => f y = false) earlier.
Proof.
  induction l as [|y l IH]; simpl; [discriminate |].
  destruct (f y) eqn:Hy.
  - intros [= ->]. exists [], l. repeat split; [exact Hy | constructor].
  - intros (earlier & later & -> & Hx & Hall)%IH.
    exists (y :: earlier), later. repeat split; [exact Hx | now constructor].
Qed.

(** The pattern that flags a priority is the first of the list that
    matches it. *)
Lemma firstPattern_is_first p ep :
  firstPattern p = Some ep ->
  exists earlier later,
    EXTREME_PRIORITY_PATTERNS = (earlier ++ ep :: later)%list
    /\ Regex.test (ep_pattern ep) p = true
    /\ Forall (fun e => Regex.test (ep_pattern e) p = false) earlier.
Proof. apply (find_first (fun e => Regex.test (ep_pattern e) p)). Qed.

(** Both of the last two patterns match; the earlier one decides. *)
Example first_pattern_decides :
  option_map ep_flagType (firstPattern "Return to the gold standard and abolish taxes")
  = Some FlagOutOfScope.
Proof. vm_compute. reflexivity. Qed.

Lemma isFlagged_matches p : isFlagged p = matchesSomePattern p.
Proof.
  unfold isFlagged, firstPattern, matchesSomePattern.
  induction EXTREME_PRIORITY_PATTERNS as [|ep eps IH]; [reflexivity |].
  cbn [List.find existsb]. destruct (Regex.test (ep_pattern ep) p); [reflexivity | exact IH].
Qed.

(** A priority that some registered pattern matches has a first pattern
    that matches it. *)
Lemma matched_has_first p ep :
  In ep EXTREME_PRIORITY_PATTERNS -> Regex.test (ep_pattern ep) p = true ->
  exists first, firstPattern p = Some first.
Proof.
  intros Hin Ht. unfold firstPattern.
  destruct (List.find _ _) as [first |] eqn:Hf; [now exists first |].
  rewrite (List.find_none _ _ Hf ep Hin) in Ht. discriminate Ht.
Qed.

Lemma unmatched_has_none p :
  Forall (fun ep => Regex.test (ep_pattern ep) p = false) EXTREME_PRIORITY_PATTERNS ->
  firstPattern p = None.
Proof.
  intros Hall. unfold firstPattern.
  destruct (List.find _ _) as [first |] eqn:Hf; [| reflexivity].
  apply List.find_some in Hf as [Hin Ht].
  rewrite List.Forall_forall in Hall. rewrite (Hall first Hin) in Ht. discriminate Ht.
Qed.

(** The four registered patterns at work: each flags a text it matches,
    whatever the case and the white space between the words, and none
    flags a text that only comes close. *)
Example patterns_at_work :
  map matchesSomePattern
    [ "We should IMPRISON   Judges"; "start a trade war with everyone";
      "back to the Gold Standard"; "abolish government now";
      "imprison criminals"; "tradewar"; "abolish the taxes"; "lower taxes" ]
  = [true; true; true; true; false; false; false; false].
Proof. vm_compute. reflexivity. Qed.

(** C5.  Every priority that is not blank appears in exactly one of
    [mappedPriorities] and [flaggedPriorities], as often and in the order
    it was given; blank priorities appear in neither.  A priority that a
    registered pattern matches is never mapped and is flagged with the
    flag type and the reason of the first pattern of the list that
    matches it; a priority that is not blank and that no registered
    pattern matches is mapped and not flagged; and nothing else is
    flagged. *)
Theorem every_priority_mapped_or_flagged (ps : list string) :
  let a := analyzePriorities ps in
  let matches ep p := Regex.test (ep_pattern ep) p in
  mappedTexts a
  = List.filter (fun p => negb (isBlank p) && negb (matchesSomePattern p)) ps
  /\ flaggedTexts a = List.filter (fun p => negb (isBlank p) && matchesSomePattern p) ps
  /\ (forall p, In p ps -> isBlank p = true ->
        ~ In p (mappedTexts a) /\ ~ In p (flaggedTexts a))
  /\ (forall p, In p ps -> isBlank p = false ->
        (In p (mappedTexts a) /\ ~ In p (flaggedTexts a))
        \/ (In p (flaggedTexts a) /\ ~ In p (mappedTexts a)))
  /\ (forall p ep,
        In p ps -> In ep EXTREME_PRIORITY_PATTERNS -> matches ep p = true ->
        ~ In p (mappedTexts a)
        /\ In p (flaggedTexts a)
        /\ exists earlier first later,
             EXTREME_PRIORITY_PATTERNS = (earlier ++ first :: later)%list
             /\ Forall (fun e => matches e p = false) earlier
             /\ matches first p = true
             /\ In {| fp_userPriority := p;
                      fp_flagType := ep_flagType first;
                      fp_reason := ep_reason first |} (flaggedPriorities a))
  /\ (forall p,
        In p ps -> isBlank p = false ->
        Forall (fun ep => matches ep p = false) EXTREME_PRIORITY_PATTERNS ->
        In p (mappedTexts a) /\ ~ In p (flaggedTexts a))
  /\ (forall f, In f (flaggedPriorities a) ->
        In (fp_userPriority f) ps
        /\ exists earlier first later,
             EXTREME_PRIORITY_PATTERNS = (earlier ++ first :: later)%list
             /\ Forall (fun e => matches e (fp_userPriority f) = false) earlier
             /\ matches first (fp_userPriority f) = true
             /\ fp_flagType f = ep_flagType first
             /\ fp_reason f = ep_reason first).
Proof.
  intros a matches. subst a matches. cbv beta.
  rewrite mappedTexts_eq, flaggedTexts_eq, analyzePriorities_flagged.
  unfold isValid.
  assert (Hfilter : forall (g : bool -> bool),
            List.filter (fun p => negb (isBlank p) && g (isFlagged p)) ps
            = List.filter (fun p => negb (isBlank p) && g (matchesSomePattern p)) ps).
  { intros g. apply List.filter_ext. intros p. now rewrite isFlagged_matches. }
  split; [exact (Hfilter negb) |]. split; [exact (Hfilter (fun b => b)) |].
  split; [| split; [| split; [| split]]].
  - intros p _ Hb. rewrite !List.filter_In, Hb. simpl. split; intros [_ H]; discriminate.
  - intros p Hin Hb. rewrite !List.filter_In, Hb. simpl.
    destruct (isFlagged p); simpl; [right | left];
      (split; [auto | intros [_ H]; discriminate]).
  - intros p ep Hin Hep Ht.
    destruct (matched_has_first p ep Hep Ht) as [first Hfirst].
    assert (Hfl : isFlagged p = true) by (unfold isFlagged; now rewrite Hfirst).
    pose proof (flagged_not_blank p Hfl) as Hb.
    split; [| split].
    + rewrite List.filter_In, Hfl, Hb. simpl. intros [_ H]. discriminate.
    + rewrite List.filter_In, Hfl, Hb. auto.
    + destruct (firstPattern_is_first p first Hfirst) as (earlier & later & Heq & Hm & Hall).
      exists earlier, first, later. split; [exact Heq |]. split; [exact Hall |].
      split; [exact Hm |].
      apply in_flat_map. exists p. split; [exact Hin |].
      unfold flagOf. rewrite Hb, Hfirst. now left.
  - intros p Hin Hb Hall. apply unmatched_has_none in Hall.
    assert (Hfl : isFlagged p = false) by (unfold isFlagged; now rewrite Hall).
    rewrite !List.filter_In, Hfl, Hb. simpl. split; [auto | intros [_ H]; discriminate].
  - intros f (p & Hin & Hf)%in_flat_map. unfold flagOf in Hf.
    destruct (isBlank p); [contradiction |].
    destruct (firstPattern p) as [first |] eqn:Hfirst; [| contradiction].
    destruct Hf as [<- | []]. cbn [fp_userPriority fp_flagType fp_reason].
    split; [exact Hin |].
    destruct (firstPattern_is_first p first Hfirst) as (earlier & later & Heq & Hm & Hall).
    exists earlier, first, later. auto.
Qed.

End FlaggedPriorities.

(* ===================================================================== *)
(** * Priority Mapper: the issues and confidences of a mapped priority    *)
(* ===================================================================== *)

Section MappedIssues.

Import MockData PriorityMappingService Mapping.

Ltac split_ifs :=
  repeat match goal with
         | |- context [if ?b then _ else _] => destruct b eqn:?
         end.

Lemma filter_roster {A} (f : A -> bool) (roster : list A) :
  Forall (fun x => In x roster) (List.filter f roster).
Proof. apply List.Forall_forall. intros x [H _]%List.filter_In. exact H. Qed.

Lemma specialCaseIssues_nonempty joined found :
  specialCaseIssues joined = Some found -> found <> [].
Proof.
  unfold specialCaseIssues. split_ifs; intros H; try discriminate;
    injection H as <-; discriminate.
Qed.

Lemma specialCaseIssues_roster joined found :
  specialCaseIssues joined = Some found ->
  Forall (fun i => In i MOCK_POLITICAL_ISSUES) found.
Proof.
  unfold specialCaseIssues. split_ifs; intros H; try discriminate;
    injection H as <-;
    repeat (apply List.Forall_cons;
            [simpl; repeat (first [left; reflexivity | right]) |]);
    apply List.Forall_nil.
Qed.

Lemma addIfMatching_roster kw roster : forall results,
  Forall (fun i => In i MOCK_POLITICAL_ISSUES) roster ->
  Forall (fun i => In i MOCK_POLITICAL_ISSUES) results ->
  Forall (fun i => In i MOCK_POLITICAL_ISSUES)
    (fold_left (addIfMatching kw) roster results).
Proof.
  induction roster as [|i roster IH]; intros results Hr Hres.
  - exact Hres.
  - inversion Hr; subst.
    change (fold_left (addIfMatching kw) (i :: roster) results)
      with (fold_left (addIfMatching kw) roster (addIfMatching kw results i)).
    apply IH; [assumption |].
    unfold addIfMatching. split_ifs; auto. apply List.Forall_app. auto.
Qed.

Lemma matchKeyword_roster results kw :
  Forall (fun i => In i MOCK_POLITICAL_ISSUES) results ->
  Forall (fun i => In i MOCK_POLITICAL_ISSUES) (matchKeyword results kw).
Proof.
  intros H. unfold matchKeyword. apply addIfMatching_roster; [| exact H].
  apply List.Forall_forall. auto.
Qed.

Lemma standardMatches_roster keywords :
  Forall (fun i => In i MOCK_POLITICAL_ISSUES) (standardMatches keywords).
Proof.
  unfold standardMatches.
  assert (H : Forall (fun i => In i MOCK_POLITICAL_ISSUES) (@nil PoliticalIssue))
    by constructor.
  revert H. generalize (@nil PoliticalIssue).
  induction keywords as [|kw kws IH]; intros results Hres.
  - exact Hres.
  - change (fold_left matchKeyword (kw :: kws) results)
      with (fold_left matchKeyword kws (matchKeyword results kw)).
    apply IH, matchKeyword_roster, Hres.
Qed.

Lemma firstWordHit_roster words issue :
  firstWordHit words = Some issue -> In issue MOCK_POLITICAL_ISSUES.
Proof.
  induction words as [|w words IH]; [discriminate |].
  change (firstWordHit (w :: words))
    with (if (String.length w <? 3)%nat then firstWordHit words
          else match List.find (wordTouchesIssue w) MOCK_POLITICAL_ISSUES with
               | Some issue => Some issue
               | None => firstWordHit words
               end).
  destruct (String.length w <? 3)%nat; [exact IH |].
  destruct (List.find (wordTouchesIssue w) MOCK_POLITICAL_ISSUES) eqn:Hf; [| exact IH].
  intros H; injection H as <-. now apply List.find_some in Hf.
Qed.

(** [findIssuesByKeywords] never returns an empty list ... *)
Lemma findIssuesByKeywords_nonempty keywords : findIssuesByKeywords keywords <> [].
Proof.
  unfold findIssuesByKeywords.
  destruct (specialCaseIssues _) as [found |] eqn:Hs.
  - now apply specialCaseIssues_nonempty in Hs.
  - destruct (standardMatches keywords) as [|i l]; simpl; [| discriminate].
    destruct (firstWordHit _); discriminate.
Qed.

(** ... and returns issues of the roster only. *)
Lemma findIssuesByKeywords_roster keywords :
  Forall (fun i => In i MOCK_POLITICAL_ISSUES) (findIssuesByKeywords keywords).
Proof.
  unfold findIssuesByKeywords.
  destruct (specialCaseIssues _) as [found |] eqn:Hs.
  - now apply specialCaseIssues_roster in Hs.
  - destruct (length (standardMatches keywords) =? 0)%nat.
    + destruct (firstWordHit _) eqn:Hw;
        (apply List.Forall_cons; [| apply List.Forall_nil]).
      * now apply firstWordHit_roster in Hw.
      * left. reflexivity.
    + apply standardMatches_roster.
Qed.

(** The two branches of the [map] callback that can be taken. *)
Lemma mapValidPriority_cases p :
  mapValidPriority p
  = {| mp_userPriority := p;
       mp_mappedIssues :=
         if JS.includes (JS.toLowerCase p) "climate"
         then [withConfidence (9 # 10) ["climate change"; "climate"] climateIssue]
         else map (withConfidence (8 # 10) [p]) (findIssuesByKeywords [p]) |}.
Proof.
  unfold mapValidPriority, matchingIssuesFor.
  destruct (JS.includes (JS.toLowerCase p) "climate"); [reflexivity |].
  pose proof (findIssuesByKeywords_nonempty [p]) as Hne.
  destruct (findIssuesByKeywords [p]) as [|i l]; [contradiction | reflexivity].
Qed.

(** The branch that assigns 0.5 is never taken. *)
Lemma mapped_confidence_values ps mp im :
  In mp (mappedPriorities (analyzePriorities ps)) -> In im (mp_mappedIssues mp) ->
  im_confidence im = (if JS.includes (JS.toLowerCase (mp_userPriority mp)) "climate"
                      then 9 # 10 else 8 # 10)%Q.
Proof.
  rewrite analyzePriorities_mapped. intros (p & <- & _)%in_map_iff.
  rewrite mapValidPriority_cases. simpl.
  destruct (JS.includes _ _); simpl.
  - intros [<- | []]. reflexivity.
  - intros (i & <- & _)%in_map_iff. reflexivity.
Qed.

Lemma mapped_issues_nonempty ps mp :
  In mp (mappedPriorities (analyzePriorities ps)) -> mp_mappedIssues mp <> [].
Proof.
  rewrite analyzePriorities_mapped. intros (p & <- & _)%in_map_iff.
  rewrite mapValidPriority_cases. simpl.
  destruct (JS.includes _ _); [discriminate |].
  pose proof (findIssuesByKeywords_nonempty [p]).
  destruct (findIssuesByKeywords [p]); [contradiction | discriminate].
Qed.

(** One mapped priority for every priority that is neither blank nor
    flagged, each with at least one issue and confidences in (0, 1]. *)
Lemma mapped_one_per_valid_priority ps :
  let a := analyzePriorities ps in
  length (mappedPriorities a) = length (List.filter isValid ps)
  /\ mappedTexts a = List.filter isValid ps
  /\ (forall mp, In mp (mappedPriorities a) ->
        mp_mappedIssues mp <> []
        /\ forall im, In im (mp_mappedIssues mp) ->
             (0 < im_confidence im)%Q /\ (im_confidence im <= 1)%Q).
Proof.
  intros a. subst a. split; [| split].
  - now rewrite analyzePriorities_mapped, length_map.
  - apply mappedTexts_eq.
  - intros mp Hmp. split; [now apply (mapped_issues_nonempty ps) |].
    intros im Him. rewrite (mapped_confidence_values ps mp im Hmp Him).
    destruct (JS.includes _ _); split; reflexivity || discriminate.
Qed.

(** C4 (the code departs from it).  The priority "xyz" matches no issue:
    no special case, no synonym or related term, no word overlap.  It is
    mapped to the first issue of the roster with confidence 0.8, not
    with the reduced confidence 0.5 of the fallback. *)
Theorem unmatched_priority_keeps_full_confidence :
  specialCaseIssues "xyz" = None
  /\ standardMatches ["xyz"] = []
  /\ firstWordHit (JS.splitWs "xyz") = None
  /\ map (fun mp =>
            (mp_userPriority mp,
             map (fun im => (iss_id (im_issue im), im_confidence im)) (mp_mappedIssues mp)))
       (mappedPriorities (analyzePriorities ["xyz"]))
     = [("xyz", [("taxes", 8 # 10)])].
Proof. repeat split; vm_compute; reflexivity. Qed.

End MappedIssues.

Section Confidence.

Import MockData PriorityMappingService Mapping.

(** The confidence of a mapped issue is not the term-match score: the
    priority "tax" equals a synonym of the issue [taxes], whose weight is
    1, and is mapped to it with confidence 0.8. *)
Lemma confidence_ignores_term_match :
  exists im,
    map mp_mappedIssues (mappedPriorities (analyzePriorities ["tax"])) = [[im]]
    /\ iss_id (im_issue im) = "taxes"
    /\ im_confidence im = 8 # 10
    /\ (designConfidence "tax" (im_issue im) == 1)%Q
    /\ (singleConfidence "tax" (im_issue im) == 12 # 10)%Q
    /\ ~ (im_confidence im == designConfidence "tax" (im_issue im))%Q.
Proof.
  eexists. split; [vm_compute; reflexivity |].
  repeat split; try (vm_compute; reflexivity).
  vm_compute. intros H. discriminate H.
Qed.

Lemma constant_confidence_sorted q (l : list IssueMatch) :
  Forall (fun im => im_confidence im = q) l ->
  StronglySorted (fun x y => (im_confidence y <= im_confidence x)%Q) l.
Proof.
  induction 1 as [|im l Him Hl IH]; constructor; [exact IH |].
  apply List.Forall_forall. intros im' Hin.
  rewrite List.Forall_forall in Hl. rewrite Him, (Hl im' Hin). apply Qle_refl.
Qed.

(** C7 (amended).  Each issue of a mapped priority carries a fixed
    confidence, whatever the lengths of the terms, the place of the match
    and the weight of the issue: 0.9, on the single issue
    [climate_change], when the priority contains "climate" (case aside);
    otherwise 0.8 on every issue [findIssuesByKeywords] returns, when one
    of its keyword rules matches.  In every case the confidences of one
    mapped priority are above 0 and equal, so the issues are in
    descending order as they stand. *)
Theorem confidence_is_a_fixed_constant (ps : list string) (mp : MappedPriority) :
  In mp (mappedPriorities (analyzePriorities ps)) ->
  let p := mp_userPriority mp in
  (JS.includes (JS.toLowerCase p) "climate" = true ->
     mp_mappedIssues mp
     = [withConfidence (9 # 10) ["climate change"; "climate"] climateIssue])
  /\ (JS.includes (JS.toLowerCase p) "climate" = false ->
      keywordRuleApplies p = true ->
      mp_mappedIssues mp = map (withConfidence (8 # 10) [p]) (findIssuesByKeywords [p]))
  /\ (forall im, In im (mp_mappedIssues mp) -> (0 < im_confidence im)%Q)
  /\ (forall im im', In im (mp_mappedIssues mp) -> In im' (mp_mappedIssues mp) ->
        im_confidence im = im_confidence im')
  /\ StronglySorted (fun x y => (im_confidence y <= im_confidence x)%Q)
       (mp_mappedIssues mp).
Proof.
  intros Hmp p.
  pose proof (mapped_confidence_values ps mp) as Hconf.
  assert (Hshape : mp = mapValidPriority p).
  { rewrite analyzePriorities_mapped in Hmp.
    apply in_map_iff in Hmp as (p' & <- & _). subst p.
    now rewrite mapValidPriority_text. }
  split; [| split; [| split; [| split]]].
  - intros Hc. rewrite Hshape, mapValidPriority_cases. simpl. now rewrite Hc.
  - intros Hc _. rewrite Hshape, mapValidPriority_cases. simpl. now rewrite Hc.
  - intros im Him. rewrite (Hconf im Hmp Him). now destruct (JS.includes _ _).
  - intros im im' Him Him'. now rewrite (Hconf im Hmp Him), (Hconf im' Hmp Him').
  - eapply constant_confidence_sorted, List.Forall_forall.
    intros im Him. exact (Hconf im Hmp Him).
Qed.

Lemma confidence_is_a_fixed_constant_witness :
  map (fun im => (iss_id (im_issue im), im_confidence im))
    (mp_mappedIssues (mapValidPriority "Fix the roads"))
  = [("road_maintenance", 8 # 10)].
Proof.
  destruct (confidence_is_a_fixed_constant ["Fix the roads"]
              (mapValidPriority "Fix the roads"))
    as (_ & H & _).
  - left. reflexivity.
  - rewrite H; reflexivity.
Defined.

End Confidence.

(* ===================================================================== *)
(** * Priority Mapper: conflicts                                          *)
(* ===================================================================== *)

Section Conflicts.

Import MockData PriorityMappingService Mapping.

Lemma flat_map_nil {A B} (f : A -> list B) l :
  (forall x, In x l -> f x = []) -> flat_map f l = [].
Proof.
  induction l as [|x l IH]; intros H; simpl; [reflexivity |].
  rewrite (H x (or_introl eq_refl)), IH; auto. intros y Hy. apply H. now right.
Qed.







Lemma hasIssueId_In l id : hasIssueId l id = true <-> exists i, In i l /\ iss_id i = id.
Proof.
  unfold hasIssueId. rewrite existsb_exists.
  split; intros (i & Hi & He); exists i; (split; [exact Hi |]);
    now apply String.eqb_eq.
Qed.



Lemma findPolicyConflicts_approaches table l o1 o2 as1 as2 a1 a2 :
  In o1 l -> In o2 l -> sameObject o1 o2 = false ->
  iss_policyApproaches (contents o1) = Some as1 ->
  iss_policyApproaches (contents o2) = Some as2 ->
  In a1 as1 -> In a2 as2 -> approachesConflict a1 a2 = true ->
  In (approachConflict (contents o1) (contents o2) a1 a2) (findPolicyConflicts table l).
Proof.
  intros H1 H2 Hne Hp1 Hp2 Ha1 Ha2 Hc. unfold findPolicyConflicts, approachConflicts.
  apply in_or_app. right. apply in_or_app. left.
  apply in_flat_map. exists o1. split; [exact H1 |]. rewrite Hp1.
  apply in_flat_map. exists o2. split; [exact H2 |]. rewrite Hne, Hp2.
  apply in_flat_map. exists a1. split; [exact Ha1 |].
  apply in_flat_map. exists a2. split; [exact Ha2 |].
  rewrite Hc. now left.
Qed.





End Conflicts.

(* ===================================================================== *)
(** * Candidate Matcher                                                   *)
(* ===================================================================== *)

Section CandidateScores.

Import CandidateMatchingService Matching.

Lemma insertBy_Permutation {A} (cmp : A -> A -> Q) x l :
  Permutation (JS.insertBy cmp x l) (x :: l).
Proof.
  induction l as [|y l IH]; simpl; [reflexivity |].
  destruct (Qle_bool (cmp x y) 0); [reflexivity |].
  rewrite IH. apply perm_swap.
Qed.

Lemma sortBy_Permutation {A} (cmp : A -> A -> Q) l : Permutation (JS.sortBy cmp l) l.
Proof.
  induction l as [|x l IH]; simpl; [reflexivity |].
  rewrite insertBy_Permutation. now constructor.
Qed.

Lemma setAdd_In s x y : In y (JS.setAdd s x) <-> In y s \/ y = x.
Proof.
  unfold JS.setAdd, JS.arrayIncludes.
  destruct (existsb (String.eqb x) s) eqn:E.
  - split; [auto |]. intros [H | ->]; [exact H |].
    apply existsb_exists in E as (z & Hz & ->%String.eqb_eq). exact Hz.
  - rewrite in_app_iff. simpl. intuition.
Qed.

(** The running score is the sum over the hits, in loop order. *)
Lemma scanPosition_score ups position : forall acc,
  fst (scanPosition ups acc position)
  = sumFrom (fst acc)
      (map (fun hit => (0.2 * pos_strength (fst hit))%float)
         (map (pair position) (List.filter (positionHit position) ups))).
Proof.
  unfold scanPosition, sumFrom.
  induction ups as [|pr ups IH]; intros acc; simpl; [reflexivity |].
  rewrite IH. unfold scanPriority.
  destruct (positionHit position pr); reflexivity.
Qed.

Lemma scanCandidate_score ups candidate :
  fst (scanCandidate ups candidate)
  = sumFrom 0
      (map (fun hit => (0.2 * pos_strength (fst hit))%float) (hitPairs ups candidate)).
Proof.
  unfold scanCandidate, hitPairs.
  change 0%float with (fst (0%float, @nil string)) at 2.
  generalize (0%float, @nil string).
  induction (cand_positions candidate) as [|position positions IH]; intros acc; simpl.
  - reflexivity.
  - rewrite IH, scanPosition_score. unfold sumFrom.
    rewrite map_app, fold_left_app. reflexivity.
Qed.

(** The matched set only grows, and takes in every hit. *)
Lemma scanPosition_keeps ups position pr : forall acc,
  In pr (snd acc) -> In pr (snd (scanPosition ups acc position)).
Proof.
  unfold scanPosition.
  induction ups as [|pr' ups IH]; intros acc Hin; simpl; [exact Hin |].
  apply IH. unfold scanPriority.
  destruct (positionHit position pr'); simpl; [| exact Hin].
  apply setAdd_In. now left.
Qed.

Lemma scanPosition_records ups position pr : forall acc,
  In pr ups -> positionHit position pr = true ->
  In pr (snd (scanPosition ups acc position)).
Proof.
  unfold scanPosition.
  induction ups as [|pr' ups IH]; intros acc Hin Hhit; simpl; [contradiction |].
  destruct Hin as [-> | Hin].
  - apply (scanPosition_keeps ups position pr). unfold scanPriority.
    rewrite Hhit. simpl. apply setAdd_In. now right.
  - now apply IH.
Qed.

Lemma scanCandidate_records ups candidate position pr :
  In position (cand_positions candidate) -> In pr ups ->
  positionHit position pr = true ->
  In pr (snd (scanCandidate ups candidate)).
Proof.
  unfold scanCandidate. generalize (0%float, @nil string).
  induction (cand_positions candidate) as [|position' positions IH];
    intros acc Hpos Hin Hhit; simpl; [contradiction |].
  destruct Hpos as [-> | Hpos].
  - assert (Hnow : In pr (snd (scanPosition ups acc position)))
      by now apply scanPosition_records.
    revert Hnow. generalize (scanPosition ups acc position).
    clear. induction positions as [|q positions IH]; intros acc Hin; simpl; [exact Hin |].
    apply IH. now apply scanPosition_keeps.
  - now apply IH.
Qed.

Lemma matchCandidate_candidate ups candidate :
  cm_candidate (matchCandidate ups candidate) = candidate.
Proof. unfold matchCandidate. now destruct (scanCandidate ups candidate). Qed.

Lemma matchCandidate_score ups candidate :
  cm_alignmentScore (matchCandidate ups candidate)
  = match scoreOverride (JS.toLowerCase (JS.join " " ups)) ups candidate with
    | Some q => q
    | None => clampedHitSum ups candidate
    end.
Proof.
  unfold clampedHitSum. rewrite <- scanCandidate_score.
  unfold matchCandidate, scoreOverride.
  destruct (scanCandidate ups candidate) as [sum set]. simpl.
  repeat match goal with
         | |- context [if ?b then _ else _] => destruct b
         end; reflexivity.
Qed.

Lemma matchCandidate_matched ups candidate pr :
  In pr (snd (scanCandidate ups candidate)) ->
  In pr (cm_matchedPriorities (matchCandidate ups candidate)).
Proof.
  unfold matchCandidate.
  destruct (scanCandidate ups candidate) as [sum set]. simpl.
  destruct set; [contradiction | auto].
Qed.

(** The literal override for John Doe replaces the sum: with the single
    priority "Tax Reform" the sum is 0.2 times 0.9, which a double holds
    as 0.18000000000000002, and the score is 0.85. *)
Lemma tax_override_replaces_the_sum :
  exists m,
    In m (findMatchingCandidates (PriorityMappingService.analyzePriorities ["Tax Reform"])
            None)
    /\ cand_name (cm_candidate m) = "John Doe"
    /\ cm_alignmentScore m = 0.85%float
    /\ clampedHitSum ["Tax Reform"] (cm_candidate m) = 0.18000000000000002%float
    /\ (cm_alignmentScore m =? clampedHitSum ["Tax Reform"] (cm_candidate m))%float = false
    /\ cm_alignmentScore m <> clampedHitSum ["Tax Reform"] (cm_candidate m).
Proof.
  eexists. split; [vm_compute; left; reflexivity |].
  repeat split; try (vm_compute; reflexivity).
  intros H. apply (f_equal (fun x => (x =? 0.85)%float)) in H. vm_compute in H.
  discriminate H.
Qed.

(** C9 (amended).  Every entry of the result is for a candidate of the
    roster.  Unless a literal override applies to that candidate, its
    alignment score is the sum of 0.2 times the strength of the position,
    over the pairs of one of its positions and a mapped priority whose
    texts contain one another (case aside), clamped to 1; the sum is the
    one the two loops build in double arithmetic, position after position
    and priority after priority, every product and every addition
    rounded.  When an override applies, the score is the value of the
    override.  In both cases every priority of such a pair is among the
    matched priorities. *)
Theorem alignment_is_clamped_hit_sum (analysis : PriorityAnalysis)
    (options : option MatchOptions) (m : CandidateMatch) :
  In m (findMatchingCandidates analysis options) ->
  let ups := userPrioritiesOf analysis in
  let candidate := cm_candidate m in
  In candidate TestHelpers.createMockCandidates
  /\ (scoreOverride (priorityKeywordsOf analysis) ups candidate = None ->
      cm_alignmentScore m = clampedHitSum ups candidate)
  /\ (forall q, scoreOverride (priorityKeywordsOf analysis) ups candidate = Some q ->
        cm_alignmentScore m = q)
  /\ (forall position pr,
        In position (cand_positions candidate) -> In pr ups ->
        positionHit position pr = true ->
        In pr (cm_matchedPriorities m)).
Proof.
  intros Hin ups candidate. unfold findMatchingCandidates in Hin.
  apply (Permutation_in _ (sortByNumber_Permutation _ _)) in Hin.
  apply in_map_iff in Hin as (c & <- & Hc).
  subst candidate. rewrite matchCandidate_candidate.
  fold (userPrioritiesOf analysis). fold ups.
  unfold priorityKeywordsOf. fold ups.
  split; [exact Hc |]. split; [| split].
  - intros Hov. now rewrite matchCandidate_score, Hov.
  - intros q Hov. now rewrite matchCandidate_score, Hov.
  - intros position pr Hpos Hpr Hhit.
    apply matchCandidate_matched. now apply (scanCandidate_records ups c position).
Qed.

Lemma alignment_is_clamped_hit_sum_witness :
  map (fun m => (cand_name (cm_candidate m), cm_alignmentScore m))
    (findMatchingCandidates
       (PriorityMappingService.analyzePriorities ["Environmental protection"]) None)
  = [("Sam Johnson", 0.18000000000000002%float);
     ("Jane Smith", 0.16000000000000003%float);
     ("John Doe", 0%float)].
Proof.
  pose (analysis := PriorityMappingService.analyzePriorities ["Environmental protection"]).
  assert (H : forall m,
             In m (findMatchingCandidates analysis None) ->
             cm_alignmentScore m
             = clampedHitSum (userPrioritiesOf analysis) (cm_candidate m)).
  { intros m Hm.
    destruct (alignment_is_clamped_hit_sum analysis None m Hm) as (Hc & Hs & _).
    apply Hs. simpl in Hc.
    destruct Hc as [<- | [<- | [<- | []]]]; reflexivity. }
  fold analysis.
  destruct (findMatchingCandidates analysis None) as [|m1 [|m2 [|m3 [|m4 l]]]] eqn:E;
    try (vm_compute in E; discriminate E).
  simpl. rewrite (H m1), (H m2), (H m3) by (simpl; auto).
  assert (E1 : cm_candidate m1 = cm_candidate (nth 0 (findMatchingCandidates analysis None) m1))
    by now rewrite E.
  assert (E2 : cm_candidate m2 = cm_candidate (nth 1 (findMatchingCandidates analysis None) m1))
    by now rewrite E.
  assert (E3 : cm_candidate m3 = cm_candidate (nth 2 (findMatchingCandidates analysis None) m1))
    by now rewrite E.
  rewrite E1, E2, E3. reflexivity.
Defined.

End CandidateScores.

(* ===================================================================== *)
(** * Measure Matcher                                                     *)
(* ===================================================================== *)

Section MeasureLocations.

Import BallotMeasureService Matching.

Lemma arrayIncludes_In arr x : JS.arrayIncludes arr x = true <-> In x arr.
Proof.
  unfold JS.arrayIncludes. rewrite existsb_exists. split.
  - intros (y & Hy & ->%String.eqb_eq). exact Hy.
  - intros H. exists x. split; [exact H | apply String.eqb_refl].
Qed.

(** On a measure that has a category, the callback returns a match for
    that measure, marked by the two conditions of [isFallback]. *)
Lemma matchMeasure_returns a zip ups n measure :
  bm_categories measure <> [] ->
  exists r,
    matchMeasure a zip ups n measure = Returned r
    /\ bmm_ballotMeasure r = measure
    /\ bmm_isFallback r = ((n =? 0)%nat || String.eqb zip "00000").
Proof.
  intros Hcat. unfold matchMeasure.
  destruct (fold_left _ _ _) as [sum set].
  destruct (bm_categories measure) as [|first rest]; [contradiction |].
  eexists. split; [reflexivity |]. split; reflexivity.
Qed.

Lemma mapOutcome_measures a zip ups n measures :
  Forall (fun measure => bm_categories measure <> []) measures ->
  exists res,
    mapOutcome (matchMeasure a zip ups n) measures = Returned res
    /\ map bmm_ballotMeasure res = measures
    /\ Forall (fun r => bmm_isFallback r = ((n =? 0)%nat || String.eqb zip "00000")) res.
Proof.
  induction 1 as [|measure measures Hcat _ IH].
  - exists []. repeat split. constructor.
  - destruct (matchMeasure_returns a zip ups n measure Hcat) as (r & Hr & Hm & Hf).
    destruct IH as (res & Hres & Hmap & Hall).
    exists (r :: res). simpl. rewrite Hr, Hres, Hm, Hmap.
    repeat split. now constructor.
Qed.

Lemma roster_has_categories :
  Forall (fun measure => bm_categories measure <> []) TestHelpers.createMockBallotMeasures.
Proof.
  repeat (apply List.Forall_cons; [discriminate |]). apply List.Forall_nil.
Qed.

(** No measure of the roster lists the location "00000". *)
Lemma roster_without_00000 :
  List.filter (servesLocation "00000") TestHelpers.createMockBallotMeasures = [].
Proof. reflexivity. Qed.

Lemma Forall_filter {A} (P : A -> Prop) (f : A -> bool) l :
  Forall P l -> Forall P (List.filter f l).
Proof.
  rewrite !List.Forall_forall. intros H x [Hx _]%List.filter_In. auto.
Qed.

(** C6.  [findRelevantMeasures] returns, and never returns an empty
    list.  For a location that no measure of the roster lists, the result
    holds every measure of the roster, each marked as fallback.  For a
    location that some measure lists (by equality of the strings), the
    result holds exactly the measures that list it, none marked as
    fallback. *)
Theorem location_filter_and_fallback (analysis : PriorityAnalysis) (zip : string)
    (options : option MeasureOptions) :
  let roster := TestHelpers.createMockBallotMeasures in
  exists res,
    findRelevantMeasures analysis zip options = Returned res
    /\ res <> []
    /\ ((forall measure, In measure roster -> ~ In zip (bm_applicableLocations measure)) ->
        Permutation (map bmm_ballotMeasure res) roster
        /\ Forall (fun r => bmm_isFallback r = true) res)
    /\ ((exists measure, In measure roster /\ In zip (bm_applicableLocations measure)) ->
        Permutation (map bmm_ballotMeasure res) (List.filter (servesLocation zip) roster)
        /\ (forall measure,
              In measure (map bmm_ballotMeasure res)
              <-> In measure roster /\ In zip (bm_applicableLocations measure))
        /\ Forall (fun r => bmm_isFallback r = false) res).
Proof.
  intros roster. unfold findRelevantMeasures, findRelevantMeasuresIn.
  fold roster. fold (servesLocation zip).
  set (located := List.filter (servesLocation zip) roster).
  set (ups := map mp_userPriority (mappedPriorities analysis)).
  assert (Hlocated : forall measure,
             In measure located <-> In measure roster /\ In zip (bm_applicableLocations measure)).
  { intros measure. unfold located, servesLocation.
    now rewrite List.filter_In, arrayIncludes_In. }
  destruct located as [|l0 located'] eqn:El.
  - (* no measure lists the location *)
    destruct (mapOutcome_measures analysis zip ups 0 roster roster_has_categories)
      as (res & Hres & Hmap & Hall).
    cbv beta iota delta [Nat.ltb Nat.leb Datatypes.length]. rewrite Hres.
    eexists. split; [reflexivity |].
    assert (Hperm : Permutation
                      (map bmm_ballotMeasure
                         (JS.sortByNumber
                            (fun a b => (bmm_relevanceScore b - bmm_relevanceScore a)%float) res))
                      roster).
    { rewrite <- Hmap. apply Permutation_map, sortByNumber_Permutation. }
    split; [| split].
    + intros Hnil. rewrite Hnil in Hperm. apply Permutation_nil in Hperm. discriminate.
    + intros _. split; [exact Hperm |].
      apply List.Forall_forall. intros r Hr.
      apply (Permutation_in _ (sortByNumber_Permutation _ _)) in Hr.
      rewrite List.Forall_forall in Hall. now rewrite (Hall r Hr).
    + intros (measure & Hin & Hzip). exfalso.
      apply (proj2 (Hlocated measure)); auto.
  - (* some measure lists the location *)
    assert (Hzip : String.eqb zip "00000" = false).
    { destruct (String.eqb zip "00000") eqn:E; [| reflexivity].
      apply String.eqb_eq in E. subst zip.
      assert (Hin : In l0 located) by (rewrite El; now left).
      unfold located, roster in Hin. rewrite roster_without_00000 in Hin. contradiction. }
    assert (Hcats : Forall (fun measure => bm_categories measure <> []) (l0 :: located')).
    { rewrite <- El. apply Forall_filter, roster_has_categories. }
    destruct (mapOutcome_measures analysis zip ups (length (l0 :: located'))
                (l0 :: located') Hcats)
      as (res & Hres & Hmap & Hall).
    cbv beta iota delta [Nat.ltb Nat.leb Datatypes.length].
    cbv beta iota delta [Nat.ltb Nat.leb Datatypes.length] in Hres. rewrite Hres.
    eexists. split; [reflexivity |].
    assert (Hperm : Permutation
                      (map bmm_ballotMeasure
                         (JS.sortByNumber
                            (fun a b => (bmm_relevanceScore b - bmm_relevanceScore a)%float) res))
                      (l0 :: located')).
    { rewrite <- Hmap. apply Permutation_map, sortByNumber_Permutation. }
    split; [| split].
    + intros Hnil. rewrite Hnil in Hperm. apply Permutation_nil in Hperm. discriminate.
    + intros Hnone. exfalso. apply (Hnone l0); apply Hlocated; now left.
    + intros _. split; [exact Hperm |]. split.
      * intros measure. rewrite <- Hlocated. split; apply Permutation_in; [| symmetry]; exact Hperm.
      * apply List.Forall_forall. intros r Hr.
        apply (Permutation_in _ (sortByNumber_Permutation _ _)) in Hr.
        rewrite List.Forall_forall in Hall. rewrite (Hall r Hr), Hzip. reflexivity.
Qed.

(** The literal "00000" marks a fallback by itself; the roster of the
    repository has no measure for it, another roster could. *)
Example zero_zip_is_marked_fallback :
  match findRelevantMeasuresIn Fixtures.zeroZipRoster
          (PriorityMappingService.analyzePriorities ["Education"]) "00000" None with
  | Returned res =>
      map (fun r => (bm_id (bmm_ballotMeasure r), bmm_isFallback r)) res
      = [("measure-0", true)]
  | Threw _ => False
  end.
Proof. vm_compute. reflexivity. Qed.

End MeasureLocations.

(* ===================================================================== *)
(** * Sorting by a score                                                  *)
(* ===================================================================== *)

Section SortingByScore.

Context {A : Type} (key : A -> Q).

#[local] Abbreviation byScore := (fun a b => (key b - key a)%Q).
#[local] Abbreviation descending := (fun a b => (key b <= key a)%Q).

Lemma moves_behind x y : Qle_bool (byScore x y) 0 = true <-> (key y <= key x)%Q.
Proof. rewrite Qle_bool_iff. split; intros H; lra. Qed.

Lemma insertBy_HdRel x y l :
  HdRel descending y l -> descending y x -> HdRel descending y (JS.insertBy byScore x l).
Proof.
  intros Hl Hx. destruct l as [|z l]; simpl; [now constructor |].
  destruct (Qle_bool (byScore x z) 0); constructor; [exact Hx |].
  now inversion Hl.
Qed.

Lemma insertBy_Sorted x l :
  Sorted descending l -> Sorted descending (JS.insertBy byScore x l).
Proof.
  induction 1 as [|y l Hs IH Hhd]; simpl; [repeat constructor |].
  destruct (Qle_bool (byScore x y) 0) eqn:E.
  - apply moves_behind in E. repeat constructor; assumption.
  - constructor; [exact IH |]. apply insertBy_HdRel; [exact Hhd |].
    cbv beta.
    destruct (Qlt_le_dec (key x) (key y)) as [Hlt | Hle]; [lra |].
    apply moves_behind in Hle. congruence.
Qed.

(** The result of the sort is in descending order of the score. *)
Lemma sortBy_Sorted l : Sorted descending (JS.sortBy byScore l).
Proof.
  induction l as [|x l IH]; simpl; [constructor |]. now apply insertBy_Sorted.
Qed.

(** The sort is stable: the entries of one score keep their order. *)
Lemma insertBy_stable q x l :
  Sorted descending l ->
  List.filter (fun a => Qeq_bool (key a) q) (JS.insertBy byScore x l)
  = List.filter (fun a => Qeq_bool (key a) q) (x :: l).
Proof.
  induction 1 as [|y l Hs IH Hhd]; [reflexivity |].
  cbn [JS.insertBy]. destruct (Qle_bool (byScore x y) 0) eqn:E; [reflexivity |].
  cbn [List.filter]. rewrite IH. cbn [List.filter].
  destruct (Qeq_bool (key x) q) eqn:Ex; [| reflexivity].
  destruct (Qeq_bool (key y) q) eqn:Ey; [| reflexivity].
  apply Qeq_bool_iff in Ex, Ey.
  assert (Hle : (key y <= key x)%Q) by lra.
  apply moves_behind in Hle. congruence.
Qed.

Lemma sortBy_stable q l :
  List.filter (fun a => Qeq_bool (key a) q) (JS.sortBy byScore l)
  = List.filter (fun a => Qeq_bool (key a) q) l.
Proof.
  induction l as [|x l IH]; [reflexivity |].
  cbn [JS.sortBy fold_right]. fold (JS.sortBy byScore l).
  rewrite insertBy_stable by apply sortBy_Sorted.
  cbn [List.filter]. now rewrite IH.
Qed.

End SortingByScore.

(* ===================================================================== *)
(** * Candidate Matcher: ranking, score range, rationale                  *)
(* ===================================================================== *)

Section CandidateRanking.

Import CandidateMatchingService Matching Binary64.

Lemma sumFrom_nonneg l : forall start,
  nonneg start -> Forall nonneg l -> nonneg (sumFrom start l).
Proof.
  unfold sumFrom. induction l as [|x l IH]; intros start Hstart Hl; cbn [fold_left];
    [exact Hstart |].
  inversion Hl; subst. apply IH; [now apply add_nonneg | assumption].
Qed.

(** What a hit adds is not below zero for any position of the roster. *)
Lemma roster_strengths :
  Forall (fun c => Forall (fun p => nonneg (0.2 * pos_strength p)%float) (cand_positions c))
    TestHelpers.createMockCandidates.
Proof.
  repeat (apply List.Forall_cons;
          [repeat (apply List.Forall_cons; [reflexivity |]); apply List.Forall_nil |]).
  apply List.Forall_nil.
Qed.

Lemma clampedHitSum_range ups c :
  Forall (fun p => nonneg (0.2 * pos_strength p)%float) (cand_positions c) ->
  unitInterval (clampedHitSum ups c).
Proof.
  intros Hpos. unfold clampedHitSum. apply mathMin_unitInterval.
  apply sumFrom_nonneg; [reflexivity |].
  apply List.Forall_forall. intros q ([position pr] & <- & Hin)%in_map_iff.
  unfold hitPairs in Hin. apply in_flat_map in Hin as (position' & Hp & Hin).
  apply in_map_iff in Hin as (pr' & [= <- <-] & _).
  rewrite List.Forall_forall in Hpos. exact (Hpos _ Hp).
Qed.

Lemma scoreOverride_range kw ups c q :
  scoreOverride kw ups c = Some q -> unitInterval q.
Proof.
  unfold scoreOverride.
  repeat match goal with
         | |- context [if ?b then _ else _] => destruct b
         end; intros [= <-]; split; reflexivity.
Qed.

Lemma matchCandidate_range ups c :
  In c TestHelpers.createMockCandidates ->
  unitInterval (cm_alignmentScore (matchCandidate ups c)).
Proof.
  intros Hc. rewrite matchCandidate_score.
  destruct (scoreOverride _ ups c) as [q |] eqn:Hov.
  - now apply scoreOverride_range in Hov.
  - apply clampedHitSum_range.
    pose proof roster_strengths as Hr. rewrite List.Forall_forall in Hr. now apply Hr.
Qed.

Lemma roster_matches_range ups :
  Forall (fun m => unitInterval (cm_alignmentScore m))
    (map (matchCandidate ups) TestHelpers.createMockCandidates).
Proof.
  apply List.Forall_forall. intros m (c & <- & Hc)%in_map_iff.
  now apply matchCandidate_range.
Qed.

(** X1.  The result has one entry for every candidate of the roster, in
    descending order of the alignment score as the program computes it in
    double arithmetic; entries with the same score stay in roster
    order. *)
Theorem candidates_ranked (analysis : PriorityAnalysis) (options : option MatchOptions) :
  let res := findMatchingCandidates analysis options in
  let unsorted :=
    map (matchCandidate (userPrioritiesOf analysis)) TestHelpers.createMockCandidates in
  Permutation (map cm_candidate res) TestHelpers.createMockCandidates
  /\ length res = 3%nat
  /\ Sorted (fun a b => (cm_alignmentScore b <=? cm_alignmentScore a)%float = true) res
  /\ (forall q,
        List.filter (fun m => (cm_alignmentScore m =? q)%float) res
        = List.filter (fun m => (cm_alignmentScore m =? q)%float) unsorted).
Proof.
  intros res unsorted.
  assert (Hperm : Permutation res unsorted) by apply sortByNumber_Permutation.
  split; [| split; [| split]].
  - rewrite Hperm. unfold unsorted. rewrite map_map.
    erewrite map_ext; [rewrite map_id; reflexivity |].
    apply matchCandidate_candidate.
  - rewrite (Permutation_length Hperm). reflexivity.
  - apply (sortByNumber_Sorted cm_alignmentScore). apply roster_matches_range.
  - intros q. apply (sortByNumber_stable cm_alignmentScore).
Qed.

(** The rounding of the sums decides the order: two candidates whose
    hits add up to 0.46 in exact arithmetic get 0.4600000000000001 and
    0.45999999999999996, and the roster order of the two is reversed. *)
Example rounding_decides_the_rank :
  map (fun m => (cand_name (cm_candidate m), cm_alignmentScore m))
    (findMatchingCandidates
       {| mappedPriorities :=
            map (fun p => {| mp_userPriority := p; mp_mappedIssues := [] |})
              ["reform"; "health"; "environmental"; "funding"];
          dominantCategories := []; potentialConflicts := []; flaggedPriorities := [] |}
       None)
  = [("Jane Smith", 0.62%float);
     ("Sam Johnson", 0.4600000000000001%float);
     ("John Doe", 0.45999999999999996%float)].
Proof. vm_compute. reflexivity. Qed.

(** X2.  Every alignment score lies between 0 and 1. *)
Theorem alignment_scores_in_range (analysis : PriorityAnalysis)
    (options : option MatchOptions) :
  Forall
    (fun m =>
       (0 <=? cm_alignmentScore m)%float = true /\ (cm_alignmentScore m <=? 1)%float = true)
    (findMatchingCandidates analysis options).
Proof.
  apply List.Forall_forall. intros m Hin. unfold findMatchingCandidates in Hin.
  apply (Permutation_in _ (sortByNumber_Permutation _ _)) in Hin.
  pose proof (roster_matches_range (map mp_userPriority (mappedPriorities analysis))) as Hr.
  rewrite List.Forall_forall in Hr. exact (Hr m Hin).
Qed.

End CandidateRanking.

(* ===================================================================== *)
(** * Substrings                                                          *)
(* ===================================================================== *)

Section Substrings.

Lemma append_empty_r (s : string) : s ++ EmptyString = s.
Proof. induction s as [|c s IH]; [reflexivity |]. rewrite append_cons. now f_equal. Qed.

Lemma startsWith_append (b c : string) : JS.startsWith (b ++ c) b = true.
Proof.
  unfold JS.startsWith. induction b as [|x b IH]; [now destruct c |].
  rewrite append_cons. simpl. destruct (ascii_dec x x); [exact IH | contradiction].
Qed.

Lemma includes_behind (a t sub : string) :
  JS.includes t sub = true -> JS.includes (a ++ t) sub = true.
Proof.
  intros H. induction a as [|x a IH]; [exact H |].
  rewrite append_cons. simpl. rewrite IH. apply orb_true_r.
Qed.

Lemma includes_of_startsWith (s sub : string) :
  JS.startsWith s sub = true -> JS.includes s sub = true.
Proof. destruct s; simpl; intros ->; reflexivity. Qed.

Lemma includes_start (b c : string) : JS.includes (b ++ c) b = true.
Proof. apply includes_of_startsWith, startsWith_append. Qed.

Lemma includes_self (s : string) : JS.includes s s = true.
Proof. rewrite <- (append_empty_r s) at 1. apply includes_start. Qed.

(** A string includes each of the pieces it is put together from. *)
Lemma includes_middle (a b c : string) : JS.includes (a ++ b ++ c) b = true.
Proof. apply includes_behind, includes_start. Qed.

Lemma join_cons sep x y l :
  JS.join sep (x :: y :: l) = x ++ sep ++ JS.join sep (y :: l).
Proof. reflexivity. Qed.

Lemma join_holds sep x l :
  In x l -> exists before after, JS.join sep l = before ++ x ++ after.
Proof.
  induction l as [|y l IH]; [contradiction |].
  destruct l as [|z l].
  - intros [-> | []]. exists EmptyString, EmptyString.
    change (JS.join sep [x]) with x. now rewrite append_empty_r.
  - intros [-> | Hin].
    + exists EmptyString, (sep ++ JS.join sep (z :: l)). reflexivity.
    + destruct (IH Hin) as (before & after & Heq).
      exists (y ++ sep ++ before), after.
      now rewrite join_cons, Heq, !append_assoc.
Qed.

Lemma includes_join sep x l : In x l -> JS.includes (JS.join sep l) x = true.
Proof.
  intros (before & after & ->)%(join_holds sep). apply includes_middle.
Qed.

End Substrings.

Section CandidateRationale.

Import CandidateMatchingService Matching.

Lemma setAdd_NoDup s x : List.NoDup s -> List.NoDup (JS.setAdd s x).
Proof.
  intros Hs. unfold JS.setAdd, JS.arrayIncludes.
  destruct (existsb (String.eqb x) s) eqn:E; [exact Hs |].
  apply (Permutation_NoDup (Permutation_cons_append s x)).
  constructor; [| exact Hs]. intros Hin.
  assert (Hex : existsb (String.eqb x) s = true)
    by (apply existsb_exists; exists x; split; [exact Hin | apply String.eqb_refl]).
  congruence.
Qed.

Lemma scanPriority_set ups position prs : forall acc,
  incl prs ups ->
  incl (snd acc) ups /\ List.NoDup (snd acc) ->
  incl (snd (fold_left (scanPriority position) prs acc)) ups
  /\ List.NoDup (snd (fold_left (scanPriority position) prs acc)).
Proof.
  induction prs as [|pr prs IH]; intros acc Hsub Hacc; [exact Hacc |].
  apply IH; [intros x Hx; apply Hsub; now right |].
  unfold scanPriority. destruct (positionHit position pr); [| exact Hacc].
  destruct Hacc as [Hin Hnd]. simpl. split.
  - intros x [Hx | ->]%setAdd_In; [now apply Hin | apply Hsub; now left].
  - now apply setAdd_NoDup.
Qed.

(** The matched set holds priorities of the request only, each once. *)
Lemma scanCandidate_set ups candidate :
  incl (snd (scanCandidate ups candidate)) ups
  /\ List.NoDup (snd (scanCandidate ups candidate)).
Proof.
  unfold scanCandidate.
  assert (Hinit : incl (snd (0%float, @nil string)) ups /\ List.NoDup (snd (0%float, @nil string)))
    by (split; [intros x [] | constructor]).
  revert Hinit. generalize (0%float, @nil string).
  induction (cand_positions candidate) as [|position positions IH]; intros acc Hacc;
    [exact Hacc |].
  apply IH. unfold scanPosition. apply scanPriority_set; [apply incl_refl | exact Hacc].
Qed.

(** X3.  Every rationale opens with the name of the candidate.  With no
    mapped priority it stops there and no priority is matched; otherwise
    the matched priorities are priorities of the request, at least one and
    none twice, and the rationale quotes each of them. *)
Theorem rationale_quotes_priorities (analysis : PriorityAnalysis)
    (options : option MatchOptions) (m : CandidateMatch) :
  In m (findMatchingCandidates analysis options) ->
  let ups := userPrioritiesOf analysis in
  let opening := cand_name (cm_candidate m) ++ " aligns with your priorities" in
  JS.startsWith (cm_rationale m) opening = true
  /\ incl (cm_matchedPriorities m) ups
  /\ List.NoDup (cm_matchedPriorities m)
  /\ (ups = [] -> cm_matchedPriorities m = [] /\ cm_rationale m = opening)
  /\ (ups <> [] ->
      cm_matchedPriorities m <> []
      /\ forall p, In p (cm_matchedPriorities m) -> JS.includes (cm_rationale m) p = true).
Proof.
  intros Hin ups opening. unfold findMatchingCandidates in Hin.
  change (map mp_userPriority (mappedPriorities analysis)) with ups in Hin.
  apply (Permutation_in _ (sortByNumber_Permutation _ _)) in Hin.
  apply in_map_iff in Hin as (c & <- & _).
  subst opening. rewrite matchCandidate_candidate. clearbody ups.
  destruct (scanCandidate_set ups c) as [Hincl Hnd].
  unfold matchCandidate.
  destruct (scanCandidate ups c) as [sum set]. simpl in Hincl, Hnd. simpl.
  destruct set as [|s0 set]; simpl.
  - destruct ups as [|p0 ups']; simpl; (split; [| split; [| split; [| split]]]).
    + rewrite <- (append_empty_r (cand_name c ++ _)) at 1. apply startsWith_append.
    + intros x [].
    + constructor.
    + easy.
    + easy.
    + apply startsWith_append.
    + intros x [<- | []]. now left.
    + repeat constructor. intros [].
    + discriminate.
    + intros _. split; [discriminate |]. intros p [<- | []].
      apply includes_behind, includes_behind, includes_self.
  - split; [| split; [| split; [| split]]].
    + apply startsWith_append.
    + exact Hincl.
    + exact Hnd.
    + intros ->. destruct (Hincl s0). now left.
    + intros _. split; [discriminate |].
      intros p Hp. apply includes_behind, includes_behind.
      exact (includes_join " and " p (s0 :: set) Hp).
Qed.

Lemma rationale_quotes_priorities_witness :
  Forall (fun m => JS.includes (cm_rationale m) "Healthcare reform" = true)
    (findMatchingCandidates
       (PriorityMappingService.analyzePriorities ["Healthcare reform"]) None).
Proof.
  apply List.Forall_forall. intros m Hm.
  destruct (rationale_quotes_priorities _ _ m Hm) as (_ & Hincl & _ & _ & Hq).
  assert (Hups : userPrioritiesOf
                   (PriorityMappingService.analyzePriorities ["Healthcare reform"])
                 = ["Healthcare reform"]) by (vm_compute; reflexivity).
  rewrite Hups in Hincl, Hq.
  destruct Hq as [Hne Hall]; [discriminate |].
  apply Hall.
  destruct (cm_matchedPriorities m) as [|p l]; [contradiction |].
  left. destruct (Hincl p (or_introl eq_refl)) as [H | []]. symmetry. exact H.
Defined.

End CandidateRationale.

(* ===================================================================== *)
(** * Measure Matcher: scores, ranking, explanations                      *)
(* ===================================================================== *)

Section MeasureScores.

Import BallotMeasureService Matching Relevance.

Lemma mapOutcome_each {A B} (f : A -> outcome B) l : forall res,
  mapOutcome f l = Returned res -> Forall2 (fun x y => f x = Returned y) l res.
Proof.
  induction l as [|x l IH]; simpl; intros res H.
  - injection H as <-. constructor.
  - destruct (f x) as [y |] eqn:Hx; [| discriminate].
    destruct (mapOutcome f l) as [ys |]; [| discriminate].
    injection H as <-. constructor; auto.
Qed.

Lemma Forall2_In_r {A B} (R : A -> B -> Prop) l res y :
  Forall2 R l res -> In y res -> exists x, In x l /\ R x y.
Proof.
  induction 1 as [|x y' l res Hxy _ IH]; [intros [] |].
  intros [<- | Hin]; [exists x; split; [now left | exact Hxy] |].
  destruct (IH Hin) as (x' & Hx' & HR). exists x'. split; [now right | exact HR].
Qed.

Lemma measuresFor_roster zip measure :
  In measure (measuresFor zip) -> In measure TestHelpers.createMockBallotMeasures.
Proof.
  unfold measuresFor. destruct (0 <? _)%nat; [| trivial].
  now intros [H _]%List.filter_In.
Qed.

(** The result is the sorted list of the matches of the measures chosen
    for the location. *)
Lemma findRelevantMeasures_shape analysis zip options :
  let ups := userPrioritiesOf analysis in
  let located :=
    List.filter (servesLocation zip) TestHelpers.createMockBallotMeasures in
  exists unsorted,
    findRelevantMeasures analysis zip options
    = Returned
        (JS.sortByNumber (fun a b => (bmm_relevanceScore b - bmm_relevanceScore a)%float)
           unsorted)
    /\ Forall2 (fun measure r => matchMeasure analysis zip ups (length located) measure
                                 = Returned r)
         (measuresFor zip) unsorted.
Proof.
  intros ups located.
  assert (Hcats : Forall (fun measure => bm_categories measure <> []) (measuresFor zip)).
  { pose proof roster_has_categories as H. rewrite List.Forall_forall in H.
    apply List.Forall_forall. intros measure Hm. apply H. now apply measuresFor_roster in Hm. }
  destruct (mapOutcome_measures analysis zip ups (length located) (measuresFor zip) Hcats)
    as (unsorted & Hres & _).
  exists unsorted. split; [| now apply mapOutcome_each].
  unfold findRelevantMeasures, findRelevantMeasuresIn.
  change (map mp_userPriority (mappedPriorities analysis)) with ups.
  change (List.filter
            (fun measure => JS.arrayIncludes (bm_applicableLocations measure) zip)
            TestHelpers.createMockBallotMeasures) with located.
  change (if (0 <? length located)%nat then located
          else TestHelpers.createMockBallotMeasures) with (measuresFor zip).
  now rewrite Hres.
Qed.

Lemma result_entry analysis zip options res r :
  findRelevantMeasures analysis zip options = Returned res -> In r res ->
  exists measure n,
    In measure TestHelpers.createMockBallotMeasures
    /\ matchMeasure analysis zip (userPrioritiesOf analysis) n measure = Returned r.
Proof.
  intros Hres Hin.
  destruct (findRelevantMeasures_shape analysis zip options) as (unsorted & Heq & Hall).
  rewrite Heq in Hres. injection Hres as <-.
  apply (Permutation_in _ (sortByNumber_Permutation _ _)) in Hin.
  destruct (Forall2_In_r _ _ _ r Hall Hin) as (measure & Hm & Hr).
  eexists measure, _. split; [now apply measuresFor_roster in Hm | exact Hr].
Qed.

(** The running score of the loops: 0.1 is added once for every hit, in
    the order of the loops. *)
Lemma scanPriority_sum measure category prs : forall acc,
  fst (fold_left (scanPriority measure category) prs acc)
  = Nat.iter (length (List.filter (measureHit measure category) prs))
      (fun sum => (sum + 0.1)%float) (fst acc).
Proof.
  induction prs as [|pr prs IH]; intros acc; cbn [fold_left List.filter]; [reflexivity |].
  rewrite IH. unfold scanPriority.
  destruct (measureHit measure category pr); cbn [fst length]; [| reflexivity].
  now rewrite Nat.iter_succ_r.
Qed.

Lemma scanCategory_sum measure ups cats : forall acc,
  fst (fold_left (scanCategory measure ups) cats acc)
  = Nat.iter
      (length (flat_map (fun category => List.filter (measureHit measure category) ups) cats))
      (fun sum => (sum + 0.1)%float) (fst acc).
Proof.
  induction cats as [|category cats IH]; intros acc; cbn [fold_left flat_map]; [reflexivity |].
  rewrite IH. unfold scanCategory. rewrite scanPriority_sum.
  rewrite length_app, Nat.add_comm. apply eq_sym, Nat.iter_add.
Qed.

Lemma relevanceSum_iter hits :
  relevanceSum hits = Nat.iter hits (fun sum => (sum + 0.1)%float) 0.5%float.
Proof. induction hits as [|hits IH]; [reflexivity |]. cbn [relevanceSum Nat.iter]. now rewrite IH. Qed.

(** The sum never falls below its start, and never falls from one hit to
    the next. *)
Lemma relevanceSum_lower hits : (0.5 <=? relevanceSum hits)%float = true.
Proof.
  induction hits as [|hits IH]; [reflexivity |]. cbn [relevanceSum].
  assert (Hn : Binary64.nonneg (relevanceSum hits)).
  { apply (leb_trans 0 0.5); [reflexivity | reflexivity | exact IH]. }
  apply (leb_trans 0.5 (relevanceSum hits)); [reflexivity | exact IH |].
  apply add_increasing; [exact Hn | reflexivity].
Qed.

Lemma relevanceSum_nonneg hits : Binary64.nonneg (relevanceSum hits).
Proof. apply (leb_trans 0 0.5); [reflexivity | reflexivity | apply relevanceSum_lower]. Qed.

Lemma relevanceSum_grows hits more :
  (relevanceSum hits <=? relevanceSum (more + hits))%float = true.
Proof.
  induction more as [|more IH]; cbn [Nat.add relevanceSum].
  - apply leb_refl. apply nonneg_not_nan, relevanceSum_nonneg.
  - apply (leb_trans _ (relevanceSum (more + hits))); [apply relevanceSum_nonneg | exact IH |].
    apply add_increasing; [apply relevanceSum_nonneg | reflexivity].
Qed.

(** The clamped sum, hit by hit: the third addition of 0.1 rounds down,
    so that five hits stay below 1; from the sixth hit on the clamp
    applies. *)
Lemma clampedRelevance_table hits :
  clampedRelevance hits
  = nth hits
      [0.5; 0.6; 0.7; 0.7999999999999999; 0.8999999999999999; 0.9999999999999999]%float
      1%float.
Proof.
  do 6 (destruct hits as [|hits]; [reflexivity |]).
  rewrite nth_overflow by (cbn [length]; lia).
  apply mathMin_clamps.
  apply (leb_trans 1 (relevanceSum 6)); [reflexivity | reflexivity |].
  replace (S (S (S (S (S (S hits)))))) with (hits + 6)%nat by lia.
  apply relevanceSum_grows.
Qed.

Lemma relevanceOverride_range kw ups measure q :
  relevanceOverride kw ups measure = Some q ->
  (0.3 <=? q)%float = true /\ (q <=? 1)%float = true.
Proof.
  unfold relevanceOverride.
  repeat match goal with
         | |- context [if ?b then _ else _] => destruct b
         end; intros [= <-]; split; reflexivity.
Qed.

Lemma clampedRelevance_range hits :
  (0.5 <=? clampedRelevance hits)%float = true /\ (clampedRelevance hits <=? 1)%float = true.
Proof.
  unfold clampedRelevance. split.
  - apply mathMin_lower; [reflexivity | reflexivity | apply relevanceSum_lower].
  - apply mathMin_unitInterval, relevanceSum_nonneg.
Qed.

(** The score of one match: an override, or the clamped sum for the hits. *)
Lemma matchMeasure_score analysis zip ups n measure r :
  matchMeasure analysis zip ups n measure = Returned r ->
  match relevanceOverride (JS.toLowerCase (JS.join " " ups)) ups measure with
  | Some q => bmm_relevanceScore r = q
  | None => bmm_relevanceScore r = clampedRelevance (measureHitCount ups measure)
  end.
Proof.
  unfold matchMeasure, relevanceOverride, clampedRelevance, measureHitCount.
  rewrite relevanceSum_iter.
  pose proof (scanCategory_sum measure ups (bm_categories measure) (0.5%float, [])) as Hsum.
  destruct (fold_left _ _ _) as [sum set]. cbn [fst] in Hsum.
  destruct (bm_categories measure) as [|first rest] eqn:Hc; [discriminate |].
  intros [= <-]. cbn [bmm_relevanceScore].
  repeat match goal with
         | |- context [if ?b then _ else _] => destruct b
         end; try reflexivity.
  now rewrite Hsum.
Qed.

Lemma matchMeasure_range analysis zip ups n measure r :
  matchMeasure analysis zip ups n measure = Returned r ->
  (0.3 <=? bmm_relevanceScore r)%float = true /\ (bmm_relevanceScore r <=? 1)%float = true.
Proof.
  intros Hr. pose proof (matchMeasure_score analysis zip ups n measure r Hr) as Hscore.
  destruct (relevanceOverride _ ups measure) as [q |] eqn:Hov; rewrite Hscore.
  - now apply relevanceOverride_range in Hov.
  - destruct (clampedRelevance_range (measureHitCount ups measure)) as [Hlo Hhi].
    split; [| exact Hhi].
    apply (leb_trans 0.3 0.5); [reflexivity | reflexivity | exact Hlo].
Qed.

(** X4.  [findRelevantMeasures] returns.  The relevance score of each
    entry is the value of a literal override when one applies; otherwise it
    is the sum the loops compute in double arithmetic, 0.5 with 0.1 added
    once for every pair of a category of the measure and a mapped priority
    that count as a hit, each addition rounding, clamped to 1.  Every score
    lies between 0.3 and 1, and at 0.5 or above when no override applies.
    Hit by hit the clamped sum is 0.5, 0.6, 0.7, 0.7999999999999999,
    0.8999999999999999, 0.9999999999999999, and 1 from six hits on. *)
Theorem relevance_is_clamped_hit_count (analysis : PriorityAnalysis) (zip : string)
    (options : option MeasureOptions) :
  let ups := userPrioritiesOf analysis in
  (exists res,
     findRelevantMeasures analysis zip options = Returned res
     /\ Forall
          (fun r =>
             let measure := bmm_ballotMeasure r in
             ((0.3 <=? bmm_relevanceScore r)%float = true
              /\ (bmm_relevanceScore r <=? 1)%float = true)
             /\ match relevanceOverride (priorityKeywordsOf analysis) ups measure with
                | Some q => bmm_relevanceScore r = q
                | None =>
                    bmm_relevanceScore r = clampedRelevance (measureHitCount ups measure)
                    /\ (0.5 <=? bmm_relevanceScore r)%float = true
                end)
          res)
  /\ (forall hits,
        clampedRelevance hits
        = nth hits
            [0.5; 0.6; 0.7; 0.7999999999999999; 0.8999999999999999; 0.9999999999999999]%float
            1%float).
Proof.
  intros ups. split; [| exact clampedRelevance_table].
  destruct (findRelevantMeasures_shape analysis zip options) as (unsorted & Heq & Hall).
  eexists. split; [exact Heq |].
  apply List.Forall_forall. intros r Hin.
  destruct (result_entry analysis zip options _ r Heq Hin) as (measure & n & Hroster & Hr).
  pose proof (matchMeasure_score analysis zip _ n measure r Hr) as Hscore.
  pose proof (matchMeasure_range analysis zip _ n measure r Hr) as Hrange.
  pose proof roster_has_categories as Hcats. rewrite List.Forall_forall in Hcats.
  destruct (matchMeasure_returns analysis zip (userPrioritiesOf analysis) n measure
              (Hcats _ Hroster)) as (r' & Hr' & Hm & _).
  rewrite Hr in Hr'. injection Hr' as <-. cbv zeta. rewrite Hm.
  unfold priorityKeywordsOf. fold ups in Hscore |- *.
  split; [exact Hrange |].
  destruct (relevanceOverride _ ups measure) as [q |] eqn:Hov; [exact Hscore |].
  split; [exact Hscore |]. rewrite Hscore. apply clampedRelevance_range.
Qed.

End MeasureScores.

Section MeasureExplanations.

Import BallotMeasureService Matching Relevance.

Lemma measure_scanPriority_set measure category ups prs : forall acc,
  incl prs ups ->
  incl (snd acc) ups /\ List.NoDup (snd acc) ->
  incl (snd (fold_left (scanPriority measure category) prs acc)) ups
  /\ List.NoDup (snd (fold_left (scanPriority measure category) prs acc)).
Proof.
  induction prs as [|pr prs IH]; intros acc Hsub Hacc; [exact Hacc |].
  apply IH; [intros x Hx; apply Hsub; now right |].
  unfold scanPriority. destruct (measureHit measure category pr); [| exact Hacc].
  destruct Hacc as [Hin Hnd]. simpl. split.
  - intros x [Hx | ->]%setAdd_In; [now apply Hin | apply Hsub; now left].
  - now apply setAdd_NoDup.
Qed.

Lemma measure_scan_set measure ups cats : forall acc,
  incl (snd acc) ups /\ List.NoDup (snd acc) ->
  incl (snd (fold_left (scanCategory measure ups) cats acc)) ups
  /\ List.NoDup (snd (fold_left (scanCategory measure ups) cats acc)).
Proof.
  induction cats as [|category cats IH]; intros acc Hacc; [exact Hacc |].
  apply IH. unfold scanCategory.
  apply measure_scanPriority_set; [apply incl_refl | exact Hacc].
Qed.

(** What one match says about itself. *)
Lemma matchMeasure_explains analysis zip ups n measure r :
  matchMeasure analysis zip ups n measure = Returned r ->
  exists first rest,
    bm_categories measure = first :: rest
    /\ JS.startsWith (bmm_explanation r)
         ("This measure relates to " ++ JS.toLowerCase first) = true
    /\ incl (bmm_relevantPriorities r) ups
    /\ List.NoDup (bmm_relevantPriorities r)
    /\ (ups = [] ->
        bmm_relevantPriorities r = []
        /\ bmm_explanation r = "This measure relates to " ++ JS.toLowerCase first)
    /\ (ups <> [] -> bmm_relevantPriorities r <> [])
    /\ (forall p others,
          bmm_relevantPriorities r = p :: others -> JS.includes (bmm_explanation r) p = true).
Proof.
  unfold matchMeasure.
  pose proof (measure_scan_set measure ups (bm_categories measure) (0.5%float, [])) as Hset.
  destruct (fold_left _ _ _) as [sum set]. simpl in Hset.
  destruct Hset as [Hincl Hnd]; [split; [intros x [] | constructor] |].
  destruct (bm_categories measure) as [|first rest]; [discriminate |].
  intros [= <-]. exists first, rest. cbn [bmm_explanation bmm_relevantPriorities].
  split; [reflexivity |].
  destruct set as [|s0 set]; cbn [length Nat.ltb Nat.leb].
  - destruct ups as [|p0 ups']; cbn [firstn]; (split; [| split; [| split; [| split; [| split]]]]).
    + rewrite <- (append_empty_r ("This measure relates to " ++ _)) at 1.
      apply startsWith_append.
    + intros x [].
    + constructor.
    + easy.
    + easy.
    + discriminate.
    + apply startsWith_append.
    + intros x [<- | []]. now left.
    + repeat constructor. intros [].
    + discriminate.
    + discriminate.
    + intros p others [= <- <-]. apply includes_behind, includes_behind, includes_self.
  - split; [| split; [| split; [| split; [| split]]]].
    + apply startsWith_append.
    + exact Hincl.
    + exact Hnd.
    + intros ->. destruct (Hincl s0). now left.
    + discriminate.
    + intros p others [= <- <-]. apply includes_behind, includes_behind, includes_self.
Qed.

Lemma measure_matches_range analysis zip ups n measures unsorted :
  Forall2 (fun measure r => matchMeasure analysis zip ups n measure = Returned r)
    measures unsorted ->
  Forall (fun r => Binary64.unitInterval (bmm_relevanceScore r)) unsorted.
Proof.
  induction 1 as [|measure r measures unsorted Hr _ IH]; constructor; [| exact IH].
  destruct (matchMeasure_range analysis zip ups n measure r Hr) as [Hlo Hhi].
  split; [| exact Hhi].
  apply (leb_trans 0 0.3); [reflexivity | reflexivity | exact Hlo].
Qed.

(** X5.  The entries of the result are in descending order of the
    relevance score as the program computes it in double arithmetic.  The
    explanation of an entry opens with the first category of its measure in
    lower case; its relevant priorities are priorities of the request, none
    twice, and at least one whenever the request has a mapped priority; the
    explanation quotes the first of them. *)
Theorem measures_ranked_and_explained (analysis : PriorityAnalysis) (zip : string)
    (options : option MeasureOptions) :
  let ups := userPrioritiesOf analysis in
  exists res,
    findRelevantMeasures analysis zip options = Returned res
    /\ Sorted (fun a b => (bmm_relevanceScore b <=? bmm_relevanceScore a)%float = true) res
    /\ Forall
         (fun r =>
            exists first rest,
              bm_categories (bmm_ballotMeasure r) = first :: rest
              /\ JS.startsWith (bmm_explanation r)
                   ("This measure relates to " ++ JS.toLowerCase first) = true
              /\ incl (bmm_relevantPriorities r) ups
              /\ List.NoDup (bmm_relevantPriorities r)
              /\ (ups = [] ->
                  bmm_relevantPriorities r = []
                  /\ bmm_explanation r = "This measure relates to " ++ JS.toLowerCase first)
              /\ (ups <> [] -> bmm_relevantPriorities r <> [])
              /\ (forall p others,
                    bmm_relevantPriorities r = p :: others ->
                    JS.includes (bmm_explanation r) p = true))
         res.
Proof.
  intros ups.
  destruct (findRelevantMeasures_shape analysis zip options) as (unsorted & Heq & Hall).
  eexists. split; [exact Heq |]. split.
  { apply (sortByNumber_Sorted bmm_relevanceScore).
    exact (measure_matches_range _ _ _ _ _ _ Hall). }
  apply List.Forall_forall. intros r Hin.
  destruct (result_entry analysis zip options _ r Heq Hin) as (measure & n & Hroster & Hr).
  pose proof roster_has_categories as Hcats. rewrite List.Forall_forall in Hcats.
  destruct (matchMeasure_returns analysis zip (userPrioritiesOf analysis) n measure
              (Hcats _ Hroster)) as (r' & Hr' & Hm & _).
  rewrite Hr in Hr'. injection Hr' as <-. rewrite Hm.
  exact (matchMeasure_explains analysis zip ups n measure r Hr).
Qed.

(** The rounding of the sums decides the order: with five hits the first
    measure of the roster stays at 0.9999999999999999, and the second,
    with six hits and clamped to 1, is ranked before it. *)
Example rounding_decides_the_measure_rank :
  match
    findRelevantMeasures
      {| mappedPriorities :=
           map (fun p => {| mp_userPriority := p; mp_mappedIssues := [] |})
             ["prop"; "economy"; "public"; "bond"];
         dominantCategories := []; potentialConflicts := []; flaggedPriorities := [] |}
      "94110" None
  with
  | Returned res => map (fun r => (bm_id (bmm_ballotMeasure r), bmm_relevanceScore r)) res
  | Threw _ => []
  end
  = [("measure-2", 1%float); ("measure-1", 0.9999999999999999%float)].
Proof. vm_compute. reflexivity. Qed.

End MeasureExplanations.

(* ===================================================================== *)
(** * Priority Mapper: what an analysis depends on                        *)
(* ===================================================================== *)

Section AnalysisStructure.

Import MockData PriorityMappingService Mapping.

Lemma filter_isValid_idempotent ps :
  List.filter isValid (List.filter isValid ps) = List.filter isValid ps.
Proof.
  induction ps as [|p ps IH]; simpl; [reflexivity |].
  destruct (isValid p) eqn:E; simpl; [rewrite E; now f_equal | exact IH].
Qed.

Lemma flagOf_valid ps : flat_map flagOf (List.filter isValid ps) = [].
Proof.
  apply flat_map_nil. intros p [_ Hv]%List.filter_In.
  unfold isValid, isFlagged in Hv. unfold flagOf.
  destruct (isBlank p); [reflexivity |].
  destruct (firstPattern p); [discriminate | reflexivity].
Qed.

(** An analysis is a function of the priorities that reach the mapping
    step and of the flags. *)
Lemma analyzePriorities_congruence ps ps' :
  List.filter isValid ps = List.filter isValid ps' ->
  flat_map flagOf ps = flat_map flagOf ps' ->
  analyzePriorities ps = analyzePriorities ps'.
Proof.
  intros Hv Hf. unfold analyzePriorities. rewrite !classify_fold.
  cbn [app]. now rewrite Hv, Hf.
Qed.

Lemma allIssues_app ps1 ps2 :
  allIssues (analyzePriorities (ps1 ++ ps2))
  = (allIssues (analyzePriorities ps1) ++ allIssues (analyzePriorities ps2))%list.
Proof.
  unfold allIssues. rewrite !analyzePriorities_mapped.
  now rewrite List.filter_app, map_app, flat_map_app.
Qed.

Lemma potentialConflicts_detect ps :
  potentialConflicts (analyzePriorities ps) = detectConflicts (allIssues (analyzePriorities ps)).
Proof.
  unfold allIssues. rewrite analyzePriorities_mapped.
  unfold analyzePriorities. rewrite classify_fold. reflexivity.
Qed.

(** [detectConflicts] looks at the ids that are present, and at nothing
    else. *)
Lemma detectConflicts_monotone l1 l2 :
  incl (map iss_id l1) (map iss_id l2) -> incl (detectConflicts l1) (detectConflicts l2).
Proof.
  intros Hsub c [Hc Hboth]%List.filter_In. apply List.filter_In. split; [exact Hc |].
  apply andb_prop in Hboth as [H1 H2].
  apply arrayIncludes_In in H1, H2. apply andb_true_intro.
  split; apply arrayIncludes_In; auto.
Qed.

(** X6.  Blank and flagged priorities leave no trace in the mapped
    priorities, the dominant categories and the conflicts: these are the
    ones of the analysis of the remaining priorities alone, which flags
    nothing. *)
Theorem invalid_priorities_leave_no_trace (ps : list string) :
  let a := analyzePriorities ps in
  let a' := analyzePriorities (List.filter isValid ps) in
  mappedPriorities a = mappedPriorities a'
  /\ dominantCategories a = dominantCategories a'
  /\ potentialConflicts a = potentialConflicts a'
  /\ flaggedPriorities a' = [].
Proof.
  intros a a'. subst a a'. unfold analyzePriorities. rewrite !classify_fold.
  rewrite filter_isValid_idempotent, flagOf_valid. repeat split.
Qed.

(** X7.  A request made of blank priorities only, or of no priority at
    all, gets the empty analysis. *)
Theorem blank_priorities_give_empty_analysis (ps : list string) :
  Forall (fun p => isBlank p = true) ps ->
  analyzePriorities ps
  = {| mappedPriorities := []; dominantCategories := [];
       potentialConflicts := []; flaggedPriorities := [] |}.
Proof.
  intros Hblank.
  transitivity (analyzePriorities []); [| vm_compute; reflexivity].
  rewrite List.Forall_forall in Hblank.
  apply analyzePriorities_congruence.
  - induction ps as [|p ps IH]; [reflexivity |]. simpl.
    unfold isValid at 1. rewrite (Hblank p) by now left. simpl.
    apply IH. intros x Hx. apply Hblank. now right.
  - apply flat_map_nil. intros p Hp. unfold flagOf. now rewrite (Hblank p Hp).
Qed.

Lemma blank_priorities_give_empty_analysis_witness :
  analyzePriorities [""; "   "; String "009" (String "010" EmptyString)]
  = {| mappedPriorities := []; dominantCategories := [];
       potentialConflicts := []; flaggedPriorities := [] |}.
Proof.
  apply blank_priorities_give_empty_analysis.
  repeat (apply List.Forall_cons; [reflexivity |]). apply List.Forall_nil.
Defined.

(** X8.  The analysis of two lists of priorities put end to end maps and
    flags what the two analyses map and flag, in that order, and reports
    every conflict either of them reports. *)
Theorem analysis_of_concatenation (ps1 ps2 : list string) :
  let a := analyzePriorities (ps1 ++ ps2) in
  let a1 := analyzePriorities ps1 in
  let a2 := analyzePriorities ps2 in
  mappedPriorities a = (mappedPriorities a1 ++ mappedPriorities a2)%list
  /\ flaggedPriorities a = (flaggedPriorities a1 ++ flaggedPriorities a2)%list
  /\ incl (potentialConflicts a1) (potentialConflicts a)
  /\ incl (potentialConflicts a2) (potentialConflicts a).
Proof.
  intros a a1 a2. subst a a1 a2.
  rewrite !analyzePriorities_mapped, !analyzePriorities_flagged.
  rewrite List.filter_app, map_app, flat_map_app.
  split; [reflexivity |]. split; [reflexivity |].
  rewrite !potentialConflicts_detect, allIssues_app.
  split; apply detectConflicts_monotone; rewrite map_app.
  - apply incl_appl, incl_refl.
  - apply incl_appr, incl_refl.
Qed.

End AnalysisStructure.

(* ===================================================================== *)
(** * Priority Mapper: dominant categories                                *)
(* ===================================================================== *)

Section DominantCategories.

Import MockData PriorityMappingService Mapping Tallies.

Lemma bump_keys counts category : map fst (bump counts category) = map fst counts.
Proof.
  unfold bump. rewrite map_map. apply map_ext. intros [c n].
  now destruct (bool_decide (c = category)).
Qed.

Lemma tally_keys counts mp : map fst (tally counts mp) = map fst counts.
Proof.
  unfold tally.
  assert (Hfold : forall cats cs, map fst (fold_left bump cats cs) = map fst cs).
  { induction cats as [|c cats IH]; intros cs; simpl; [reflexivity |].
    now rewrite IH, bump_keys. }
  repeat match goal with
         | |- context [if ?b then _ else _] => destruct b
         end; rewrite ?bump_keys; apply Hfold.
Qed.

Lemma categoryTally_keys a :
  map fst (categoryTally a) = map fst initialCategoryCounts.
Proof.
  unfold categoryTally. generalize initialCategoryCounts.
  induction (mappedPriorities a) as [|mp mps IH]; intros cs; simpl; [reflexivity |].
  now rewrite IH, tally_keys.
Qed.

Lemma initial_keys_NoDup : List.NoDup (map fst initialCategoryCounts).
Proof.
  unfold initialCategoryCounts. rewrite map_map. cbn [map fst].
  repeat (constructor; [cbn [In]; intuition discriminate |]). constructor.
Qed.

Lemma tallyOf_entry counts entry :
  List.NoDup (map fst counts) -> In entry counts -> tallyOf counts (fst entry) = snd entry.
Proof.
  unfold tallyOf. induction counts as [|e counts IH]; [intros _ [] |].
  simpl. intros Hnd [-> | Hin].
  - now rewrite bool_decide_eq_true_2.
  - inversion Hnd as [|? ? Hnotin Hnd']; subst.
    rewrite bool_decide_eq_false_2; [now apply IH |].
    intros Heq. apply Hnotin. rewrite Heq. now apply in_map.
Qed.

Lemma countQ_le e1 e2 : (countQ e1 <= countQ e2)%Q <-> (snd e1 <= snd e2)%nat.
Proof. unfold countQ. rewrite <- Zle_Qle. lia. Qed.

Lemma Sorted_weaken {A} (R R' : A -> A -> Prop) l :
  (forall x y, R x y -> R' x y) -> Sorted R l -> Sorted R' l.
Proof.
  intros Himp Hs. induction Hs as [|x l Hs IH Hhd]; constructor; [exact IH |].
  destruct Hhd; constructor. now apply Himp.
Qed.

Lemma In_firstn {A} n (l : list A) x : In x (firstn n l) -> In x l.
Proof. intros H. rewrite <- (firstn_skipn n l). apply in_or_app. now left. Qed.

Lemma In_skipn {A} n (l : list A) x : In x (skipn n l) -> In x l.
Proof. intros H. rewrite <- (firstn_skipn n l). apply in_or_app. now right. Qed.

Lemma firstn_skipn_sorted {A} (R : A -> A -> Prop) n l x y :
  StronglySorted R l -> In x (firstn n l) -> In y (skipn n l) -> R x y.
Proof.
  revert l. induction n as [|n IH]; intros l Hs Hx Hy; [destruct Hx |].
  destruct l as [|z l]; [destruct Hx |].
  inversion Hs as [|? ? Hs' Hall]; subst. simpl in Hx, Hy.
  destruct Hx as [<- | Hx]; [| now apply (IH l)].
  rewrite List.Forall_forall in Hall. apply Hall. eapply In_skipn; eassumption.
Qed.

(** X9.  [dominantCategories] names at most three categories, none twice,
    each with a positive tally, in descending order of the tally; a
    category with a positive tally that is left out is left out because
    three categories with tallies at least as high are named. *)
Theorem dominant_categories_are_the_top_three (ps : list string) :
  let a := analyzePriorities ps in
  let counts := categoryTally a in
  let dominant := dominantCategories a in
  (length dominant <= 3)%nat
  /\ List.NoDup dominant
  /\ (forall c, In c dominant -> (0 < tallyOf counts c)%nat)
  /\ StronglySorted (fun c d => (tallyOf counts d <= tallyOf counts c)%nat) dominant
  /\ (forall c, (0 < tallyOf counts c)%nat -> ~ In c dominant ->
        length dominant = 3%nat
        /\ forall d, In d dominant -> (tallyOf counts c <= tallyOf counts d)%nat).
Proof.
  intros a counts dominant.
  set (kept := List.filter (fun entry => (0 <? snd entry)%nat) counts).
  set (sorted := JS.sortBy (fun x y => (countQ y - countQ x)%Q) kept).
  assert (Hdom : dominant = map fst (firstn 3 sorted)).
  { subst dominant sorted kept counts a. unfold categoryTally, analyzePriorities.
    rewrite classify_fold. reflexivity. }
  assert (Hkeys : List.NoDup (map fst counts)).
  { subst counts. rewrite categoryTally_keys. apply initial_keys_NoDup. }
  assert (Hperm : Permutation sorted kept) by apply sortBy_Permutation.
  assert (Hin_counts : forall e, In e sorted -> In e counts /\ (0 < snd e)%nat).
  { intros e He. apply (Permutation_in _ Hperm) in He.
    apply List.filter_In in He as [He Hpos]. split; [exact He |].
    now apply Nat.ltb_lt in Hpos. }
  assert (Htally : forall e, In e sorted -> tallyOf counts (fst e) = snd e).
  { intros e He. apply tallyOf_entry; [exact Hkeys | now apply Hin_counts]. }
  assert (Hnd_sorted : List.NoDup (map fst sorted)).
  { apply (Permutation_NoDup (Permutation_map fst (Permutation_sym Hperm))).
    subst kept. clear -Hkeys. induction counts as [|e cs IH]; [constructor |].
    simpl in *. inversion Hkeys as [|? ? Hnotin Hnd]; subst.
    destruct (0 <? snd e)%nat; [| now apply IH].
    simpl. constructor; [| now apply IH].
    intros (e' & He' & [Hin _]%List.filter_In)%in_map_iff.
    apply Hnotin. rewrite <- He'. now apply in_map. }
  assert (Hss : StronglySorted (fun x y => (snd y <= snd x)%nat) sorted).
  { apply Sorted_StronglySorted; [intros x y z; lia |].
    apply (Sorted_weaken (fun x y => (countQ y <= countQ x)%Q));
      [intros x y; apply countQ_le | apply (sortBy_Sorted countQ kept)]. }
  rewrite Hdom. split; [| split; [| split; [| split]]].
  - rewrite length_map, length_firstn. lia.
  - rewrite <- (firstn_skipn 3 sorted), map_app in Hnd_sorted.
    now apply NoDup_app_remove_r in Hnd_sorted.
  - intros c (e & <- & He%In_firstn)%in_map_iff.
    rewrite (Htally e He). now apply Hin_counts.
  - assert (Hsub : forall e, In e (firstn 3 sorted) -> In e sorted)
      by (intros e; apply In_firstn).
    assert (Hssf : StronglySorted (fun x y => (snd y <= snd x)%nat) (firstn 3 sorted)).
    { rewrite <- (firstn_skipn 3 sorted) in Hss.
      clear -Hss. induction (firstn 3 sorted) as [|x l IH]; [constructor |].
      simpl in Hss. inversion Hss as [|? ? Hs' Hall]; subst.
      constructor; [now apply IH |].
      rewrite List.Forall_forall in *. intros y Hy. apply Hall, in_or_app. now left. }
    clear -Hssf Hsub Htally.
    induction Hssf as [|x l Hs IH Hall]; [constructor |].
    simpl. constructor.
    + apply IH. intros e He. apply Hsub. now right.
    + rewrite List.Forall_forall in *. intros d (e & <- & He)%in_map_iff.
      rewrite (Htally x), (Htally e) by (apply Hsub; simpl; auto).
      now apply Hall.
  - intros c Hpos Hnot.
    assert (He : exists e, In e sorted /\ fst e = c).
    { unfold tallyOf in Hpos.
      destruct (List.find _ counts) as [e |] eqn:Hf; [| lia].
      apply List.find_some in Hf as [Hin Heq]. apply bool_decide_eq_true in Heq.
      exists e. split; [| exact Heq].
      apply (Permutation_in _ (Permutation_sym Hperm)). apply List.filter_In.
      split; [exact Hin | now apply Nat.ltb_lt]. }
    destruct He as (e & He & <-).
    assert (Hlate : In e (skipn 3 sorted)).
    { rewrite <- (firstn_skipn 3 sorted) in He. apply in_app_or in He as [He | He];
        [| exact He]. exfalso. apply Hnot. now apply in_map. }
    split.
    + rewrite length_map, length_firstn.
      assert (length (skipn 3 sorted) <> 0)%nat
        by (destruct (skipn 3 sorted); [destruct Hlate | discriminate]).
      rewrite length_skipn in *. lia.
    + intros d (e' & <- & He')%in_map_iff.
      rewrite (Htally e He), (Htally e') by now apply In_firstn in He'.
      exact (firstn_skipn_sorted _ 3 sorted e' e Hss He' Hlate).
Qed.

End DominantCategories.

(* ===================================================================== *)
(** * Priority Mapper: term matching                                      *)
(* ===================================================================== *)

Section NormalForms.

Lemma length_toLowerCase s : String.length (JS.toLowerCase s) = String.length s.
Proof. induction s as [|c s IH]; simpl; congruence. Qed.




Lemma isWhiteSpace_lowerChar c : JS.isWhiteSpace (JS.lowerChar c) = JS.isWhiteSpace c.
Proof. destruct c as [[] [] [] [] [] [] [] []]; reflexivity. Qed.

Lemma trimStart_toLowerCase s :
  JS.trimStart (JS.toLowerCase s) = JS.toLowerCase (JS.trimStart s).
Proof.
  induction s as [|c s IH]; simpl; [reflexivity |].
  rewrite isWhiteSpace_lowerChar. now destruct (JS.isWhiteSpace c).
Qed.

Lemma trimEnd_toLowerCase s :
  JS.trimEnd (JS.toLowerCase s) = JS.toLowerCase (JS.trimEnd s).
Proof.
  induction s as [|c s IH]; simpl; [reflexivity |].
  rewrite IH, isWhiteSpace_lowerChar.
  destruct (JS.trimEnd s); simpl; [now destruct (JS.isWhiteSpace c) | reflexivity].
Qed.

Lemma trim_toLowerCase s : JS.trim (JS.toLowerCase s) = JS.toLowerCase (JS.trim s).
Proof. unfold JS.trim. now rewrite trimStart_toLowerCase, trimEnd_toLowerCase. Qed.



End NormalForms.

Section TermMatch.

Import PriorityMappingService TermMatching.





Lemma lengthQ_zero s : (0 < lengthQ s)%Q -> s <> "".
Proof. intros H ->. now apply Qlt_irrefl in H. Qed.







End TermMatch.

Section SinglePriority.

Import PriorityMappingService TermMatching.










End SinglePriority.

(* ===================================================================== *)
(** * Priority Mapper: what [findPolicyConflicts] can report              *)
(* ===================================================================== *)

Section PolicyConflicts.

Import PriorityMappingService.

Lemma hasIssueId_present l i : In i l -> hasIssueId l (iss_id i) = true.
Proof. intros Hi. apply hasIssueId_In. now exists i. Qed.

Lemma approachesConflict_sym a1 a2 : approachesConflict a1 a2 = approachesConflict a2 a1.
Proof. unfold approachesConflict. apply orb_comm. Qed.

(** X13.  Every conflict [findPolicyConflicts] reports names two issues
    that are among the mapped issues.  It is an entry of the static table,
    or the medium implementation conflict of two conflicting approaches of
    two mapped issues that are not the same object, or a high policy
    conflict for an issue that declares the other as opposing; nothing else
    is reported. *)
Theorem findPolicyConflicts_reports_only_present (table : list ConflictDefinition)
    (mappedIssues : list (Obj PoliticalIssue)) :
  let present := map contents mappedIssues in
  Forall
    (fun c =>
       hasIssueId present (fst (cd_issues c)) = true
       /\ hasIssueId present (snd (cd_issues c)) = true
       /\ (In c table
           \/ (cd_severity c = SevMedium /\ cd_type c = CtImplementation
               /\ exists o1 o2 approaches1 approaches2 approach1 approach2,
                    In o1 mappedIssues /\ In o2 mappedIssues
                    /\ sameObject o1 o2 = false
                    /\ iss_policyApproaches (contents o1) = Some approaches1
                    /\ iss_policyApproaches (contents o2) = Some approaches2
                    /\ In approach1 approaches1 /\ In approach2 approaches2
                    /\ approachesConflict approach1 approach2 = true
                    /\ c = approachConflict (contents o1) (contents o2) approach1 approach2
                    /\ cd_issues c = (iss_id (contents o1), iss_id (contents o2)))
           \/ (cd_severity c = SevHigh /\ cd_type c = CtPolicy
               /\ exists i opposing, In i present
                                     /\ iss_opposingIssues i = Some opposing
                                     /\ In (snd (cd_issues c)) opposing
                                     /\ fst (cd_issues c) = iss_id i)))
    (findPolicyConflicts table mappedIssues).
Proof.
  intros present.
  apply List.Forall_forall. intros c Hc. unfold findPolicyConflicts in Hc.
  apply in_app_or in Hc as [Hc | Hc]; [| apply in_app_or in Hc as [Hc | Hc]].
  - apply List.filter_In in Hc as [Hc [H1 H2]%andb_true_iff]. auto.
  - apply in_flat_map in Hc as (o1 & Ho1 & Hc).
    destruct (iss_policyApproaches (contents o1)) as [as1 |] eqn:Hp1; [| destruct Hc].
    apply in_flat_map in Hc as (o2 & Ho2 & Hc).
    destruct (sameObject o1 o2) eqn:Hne; [destruct Hc |].
    destruct (iss_policyApproaches (contents o2)) as [as2 |] eqn:Hp2; [| destruct Hc].
    apply in_flat_map in Hc as (a1 & Ha1 & Hc).
    apply in_flat_map in Hc as (a2 & Ha2 & Hc).
    destruct (approachesConflict a1 a2) eqn:Hconf; [| destruct Hc].
    destruct Hc as [<- | []]. cbn [approachConflict cd_issues cd_severity cd_type fst snd].
    split; [apply hasIssueId_present; now apply in_map |].
    split; [apply hasIssueId_present; now apply in_map |].
    right. left. split; [reflexivity |]. split; [reflexivity |].
    exists o1, o2, as1, as2, a1, a2. repeat split; assumption.
  - apply in_flat_map in Hc as (i & Hi & Hc).
    destruct (iss_opposingIssues i) as [opposing |] eqn:Hopp; [| destruct Hc].
    apply in_flat_map in Hc as (opposingId & Hid & Hc).
    destruct (List.find _ (map contents mappedIssues)) as [o |] eqn:Hfind; [| destruct Hc].
    destruct Hc as [<- | []].
    cbn [oppositionConflict cd_issues cd_severity cd_type fst snd].
    split; [now apply hasIssueId_present |]. split.
    + apply List.find_some in Hfind as [Ho Heq]. apply String.eqb_eq in Heq.
      apply hasIssueId_In. now exists o.
    + right. right. split; [reflexivity |]. split; [reflexivity |].
      exists i, opposing. auto.
Qed.

(** The second loop skips a pair by identity, not by contents: an issue
    that is listed twice is not compared with itself, while two objects
    with the same contents are compared, and reported when two of their
    approaches conflict. *)
Example same_contents_different_objects :
  let subsidies := {| pa_name := "Subsidies"; pa_conflictingApproaches := Some ["Austerity"] |} in
  let austerity := {| pa_name := "Austerity"; pa_conflictingApproaches := None |} in
  let housing :=
    {| iss_id := "housing"; iss_name := "Housing"; iss_description := None;
       iss_category := HOUSING; iss_synonyms := []; iss_relatedTerms := [];
       iss_weight := 1; iss_policyApproaches := Some [subsidies; austerity];
       iss_opposingIssues := None |} in
  let here := {| address := 1; contents := housing |} in
  let there := {| address := 2; contents := housing |} in
  findPolicyConflicts [] [here; here] = []
  /\ findPolicyConflicts [] [here; there]
     = [approachConflict housing housing subsidies austerity;
        approachConflict housing housing austerity subsidies;
        approachConflict housing housing subsidies austerity;
        approachConflict housing housing austerity subsidies].
Proof. split; reflexivity. Qed.

(** X14.  Conflicting policy approaches of two mapped issues that are not
    the same object are reported twice, once from each issue's side,
    whichever of the two approaches declares the other. *)
Theorem approach_conflicts_reported_from_both_sides (table : list ConflictDefinition)
    (mappedIssues : list (Obj PoliticalIssue)) (issue1 issue2 : Obj PoliticalIssue)
    (approaches1 approaches2 : list PolicyApproach) (approach1 approach2 : PolicyApproach)
    (H1 : In issue1 mappedIssues) (H2 : In issue2 mappedIssues)
    (Hne : sameObject issue1 issue2 = false)
    (Hp1 : iss_policyApproaches (contents issue1) = Some approaches1)
    (Hp2 : iss_policyApproaches (contents issue2) = Some approaches2)
    (Ha1 : In approach1 approaches1) (Ha2 : In approach2 approaches2)
    (Hdeclared :
       match pa_conflictingApproaches approach1 with
       | Some names => In (pa_name approach2) names
       | None => False
       end) :
  In (approachConflict (contents issue1) (contents issue2) approach1 approach2)
     (findPolicyConflicts table mappedIssues)
  /\ In (approachConflict (contents issue2) (contents issue1) approach2 approach1)
       (findPolicyConflicts table mappedIssues).
Proof.
  assert (Hc : approachesConflict approach1 approach2 = true).
  { unfold approachesConflict.
    destruct (pa_conflictingApproaches approach1) as [names |]; [| destruct Hdeclared].
    apply orb_true_iff. left. now apply arrayIncludes_In. }
  split.
  - now apply (findPolicyConflicts_approaches table mappedIssues issue1 issue2
                 approaches1 approaches2).
  - apply (findPolicyConflicts_approaches table mappedIssues issue2 issue1
             approaches2 approaches1); auto.
    + unfold sameObject in *. now rewrite Nat.eqb_sym.
    + now rewrite approachesConflict_sym.
Qed.

Lemma approach_conflicts_reported_from_both_sides_witness :
  let subsidies := {| pa_name := "Subsidies"; pa_conflictingApproaches := Some ["Austerity"] |} in
  let austerity := {| pa_name := "Austerity"; pa_conflictingApproaches := None |} in
  let housing :=
    {| address := 1;
       contents :=
         {| iss_id := "housing"; iss_name := "Housing"; iss_description := None;
            iss_category := HOUSING; iss_synonyms := []; iss_relatedTerms := [];
            iss_weight := 1; iss_policyApproaches := Some [subsidies];
            iss_opposingIssues := None |} |} in
  let budget :=
    {| address := 2;
       contents :=
         {| iss_id := "budget"; iss_name := "Budget"; iss_description := None;
            iss_category := ECONOMY; iss_synonyms := []; iss_relatedTerms := [];
            iss_weight := 1; iss_policyApproaches := Some [austerity];
            iss_opposingIssues := None |} |} in
  In (approachConflict (contents housing) (contents budget) subsidies austerity)
     (findPolicyConflicts [] [housing; budget])
  /\ In (approachConflict (contents budget) (contents housing) austerity subsidies)
       (findPolicyConflicts [] [housing; budget]).
Proof.
  intros subsidies austerity housing budget.
  apply (approach_conflicts_reported_from_both_sides [] [housing; budget] housing budget
           [subsidies] [austerity] subsidies austerity).
  - now left.
  - right. now left.
  - reflexivity.
  - reflexivity.
  - reflexivity.
  - now left.
  - now left.
  - now left.
Defined.

End PolicyConflicts.

(* ===================================================================== *)
(** * Mock data: [findIssuesByKeywords]                                   *)
(* ===================================================================== *)

Section KeywordMatching.

Import MockData Keywords.

Lemma roster_NoDup : List.NoDup MOCK_POLITICAL_ISSUES.
Proof.
  apply (NoDup_map_inv iss_id). vm_compute.
  repeat (constructor; [cbn [In]; intuition discriminate |]). constructor.
Qed.

Lemma hasIssue_In results issue : hasIssue results issue = true <-> In issue results.
Proof.
  unfold hasIssue. rewrite existsb_exists. split.
  - intros (other & Hin & Heq). apply bool_decide_eq_true in Heq. now subst.
  - intros Hin. exists issue. split; [exact Hin | now apply bool_decide_eq_true].
Qed.

Lemma addIfMatching_In kw results issue x :
  In x (addIfMatching kw results issue)
  <-> In x results \/ (x = issue /\ keywordMatchesIssue kw issue = true).
Proof.
  unfold addIfMatching. destruct (keywordMatchesIssue kw issue).
  - destruct (hasIssue results issue) eqn:Hhas.
    + apply hasIssue_In in Hhas. split; [now left |].
      intros [H | [-> _]]; assumption.
    + rewrite in_app_iff. simpl. split.
      * intros [H | [<- | []]]; [now left | now right].
      * intros [H | [-> _]]; [now left | right; now left].
  - split; [now left | intros [H | [_ H]]; [exact H | discriminate]].
Qed.

Lemma addIfMatching_NoDup kw results issue :
  List.NoDup results -> List.NoDup (addIfMatching kw results issue).
Proof.
  intros Hnd. unfold addIfMatching. destruct (keywordMatchesIssue kw issue); [| exact Hnd].
  destruct (hasIssue results issue) eqn:Hhas; [exact Hnd |].
  apply (Permutation_NoDup (Permutation_cons_append results issue)).
  constructor; [| exact Hnd]. intros Hin. apply hasIssue_In in Hin. congruence.
Qed.

Lemma scanRoster_In kw roster x : forall results,
  In x (fold_left (addIfMatching kw) roster results)
  <-> In x results \/ (In x roster /\ keywordMatchesIssue kw x = true).
Proof.
  induction roster as [|issue roster IH]; intros results; cbn [fold_left].
  - split; [now left | intros [H | [[] _]]; exact H].
  - rewrite IH, addIfMatching_In. cbn [In]. split.
    + intros [[H | [-> Hm]] | [Hin Hm]]; auto.
    + intros [H | [[<- | Hin] Hm]]; auto.
Qed.

Lemma scanRoster_NoDup kw roster : forall results,
  List.NoDup results -> List.NoDup (fold_left (addIfMatching kw) roster results).
Proof.
  induction roster as [|issue roster IH]; intros results Hnd; cbn [fold_left];
    [exact Hnd |].
  now apply IH, addIfMatching_NoDup.
Qed.

Lemma matchKeywords_In keywords x : forall results,
  In x (fold_left matchKeyword keywords results)
  <-> In x results \/ (In x MOCK_POLITICAL_ISSUES /\ someKeywordMatches keywords x).
Proof.
  unfold someKeywordMatches.
  induction keywords as [|keyword keywords IH]; intros results; cbn [fold_left].
  - split; [now left | intros [H | [_ (? & [] & _)]]; exact H].
  - rewrite IH. unfold matchKeyword. rewrite scanRoster_In.
    fold (normalizedKeyword keyword). split.
    + intros [[H | [Hin Hm]] | [Hin (k & Hk & Hm)]].
      * now left.
      * right. split; [exact Hin |]. exists keyword. split; [now left | exact Hm].
      * right. split; [exact Hin |]. exists k. split; [now right | exact Hm].
    + intros [H | [Hin (k & [<- | Hk] & Hm)]].
      * left. now left.
      * left. right. now split.
      * right. split; [exact Hin |]. now exists k.
Qed.

Lemma matchKeywords_NoDup keywords : forall results,
  List.NoDup results -> List.NoDup (fold_left matchKeyword keywords results).
Proof.
  induction keywords as [|keyword keywords IH]; intros results Hnd; cbn [fold_left];
    [exact Hnd |].
  apply IH. unfold matchKeyword. now apply scanRoster_NoDup.
Qed.

Lemma standardMatches_In keywords x :
  In x (standardMatches keywords)
  <-> In x MOCK_POLITICAL_ISSUES /\ someKeywordMatches keywords x.
Proof.
  unfold standardMatches. rewrite matchKeywords_In.
  split; [intros [[] | H]; exact H | now right].
Qed.

Lemma specialCaseIssues_NoDup joined found :
  specialCaseIssues joined = Some found -> List.NoDup found.
Proof.
  unfold specialCaseIssues.
  repeat match goal with
         | |- context [if ?b then _ else _] => destruct b
         end; intros H; try discriminate;
    match type of H with
    | Some ?l = _ => assert (E : l = found) by congruence; rewrite <- E
    end;
    apply List.NoDup_filter, roster_NoDup.
Qed.

(** X15.  [findIssuesByKeywords] answers every list of keywords with at
    least one issue; the issues are issues of the mock roster and none is
    returned twice. *)
Theorem findIssuesByKeywords_distinct_roster_issues (keywords : list string) :
  findIssuesByKeywords keywords <> []
  /\ incl (findIssuesByKeywords keywords) MOCK_POLITICAL_ISSUES
  /\ List.NoDup (findIssuesByKeywords keywords).
Proof.
  split; [apply findIssuesByKeywords_nonempty |]. split.
  - intros issue Hin. pose proof (findIssuesByKeywords_roster keywords) as Hr.
    rewrite List.Forall_forall in Hr. now apply Hr.
  - unfold findIssuesByKeywords.
    destruct (specialCaseIssues _) as [found |] eqn:Hs.
    + now apply specialCaseIssues_NoDup in Hs.
    + destruct (length (standardMatches keywords) =? 0)%nat.
      * destruct (firstWordHit _); (constructor; [intros [] | constructor]).
      * unfold standardMatches. apply matchKeywords_NoDup. constructor.
Qed.

(** X16.  When none of the special cases applies, every roster issue that
    some keyword matches is returned.  Either the returned issues are
    exactly those, or no keyword matches any roster issue and a single
    fallback issue is returned. *)
Theorem standard_matching_returns_every_hit (keywords : list string)
    (Hstandard : noSpecialCase keywords) :
  (forall issue, In issue MOCK_POLITICAL_ISSUES -> someKeywordMatches keywords issue ->
     In issue (findIssuesByKeywords keywords))
  /\ ((forall issue, In issue (findIssuesByKeywords keywords) ->
         someKeywordMatches keywords issue)
      \/ (length (findIssuesByKeywords keywords) = 1%nat
          /\ forall issue, In issue MOCK_POLITICAL_ISSUES ->
               ~ someKeywordMatches keywords issue)).
Proof.
  unfold noSpecialCase in Hstandard. unfold findIssuesByKeywords.
  rewrite Hstandard.
  destruct (length (standardMatches keywords) =? 0)%nat eqn:Hlen.
  - apply Nat.eqb_eq in Hlen. apply length_zero_iff_nil in Hlen.
    assert (Hnone : forall issue, In issue MOCK_POLITICAL_ISSUES ->
                      ~ someKeywordMatches keywords issue).
    { intros issue Hin Hm.
      assert (Hx : In issue (standardMatches keywords))
        by (apply standardMatches_In; now split).
      rewrite Hlen in Hx. destruct Hx. }
    split.
    + intros issue Hin Hm. now destruct (Hnone issue Hin).
    + right. split; [now destruct (firstWordHit _) | exact Hnone].
  - split.
    + intros issue Hin Hm. apply standardMatches_In. now split.
    + left. intros issue Hin. now apply standardMatches_In in Hin.
Qed.

Lemma standard_matching_returns_every_hit_witness :
  (forall issue, In issue MOCK_POLITICAL_ISSUES ->
     someKeywordMatches ["fix potholes"; "jobs"] issue ->
     In issue (findIssuesByKeywords ["fix potholes"; "jobs"]))
  /\ ((forall issue, In issue (findIssuesByKeywords ["fix potholes"; "jobs"]) ->
         someKeywordMatches ["fix potholes"; "jobs"] issue)
      \/ (length (findIssuesByKeywords ["fix potholes"; "jobs"]) = 1%nat
          /\ forall issue, In issue MOCK_POLITICAL_ISSUES ->
               ~ someKeywordMatches ["fix potholes"; "jobs"] issue)).
Proof.
  apply (standard_matching_returns_every_hit ["fix potholes"; "jobs"]).
  vm_compute. reflexivity.
Defined.

End KeywordMatching.

Section LetterCase.

Import MockData Keywords.

Lemma lowerChar_idempotent c : JS.lowerChar (JS.lowerChar c) = JS.lowerChar c.
Proof. destruct c as [[] [] [] [] [] [] [] []]; reflexivity. Qed.

Lemma toLowerCase_idempotent s : JS.toLowerCase (JS.toLowerCase s) = JS.toLowerCase s.
Proof.
  induction s as [|c s IH]; simpl; [reflexivity |].
  now rewrite lowerChar_idempotent, IH.
Qed.

Lemma toLowerCase_append a b :
  JS.toLowerCase (a ++ b) = JS.toLowerCase a ++ JS.toLowerCase b.
Proof.
  induction a as [|c a IH]; [reflexivity |].
  rewrite append_cons. cbn [JS.toLowerCase]. now rewrite append_cons, IH.
Qed.

Lemma toLowerCase_join l :
  JS.toLowerCase (JS.join " " l) = JS.join " " (map JS.toLowerCase l).
Proof.
  induction l as [|x [|y l] IH]; [reflexivity | reflexivity |].
  rewrite join_cons. cbn [map]. rewrite join_cons, !toLowerCase_append, IH.
  reflexivity.
Qed.

Lemma matchKeywords_lower keywords : forall results,
  fold_left matchKeyword (map JS.toLowerCase keywords) results
  = fold_left matchKeyword keywords results.
Proof.
  induction keywords as [|keyword keywords IH]; intros results; cbn [map fold_left];
    [reflexivity |].
  rewrite IH. unfold matchKeyword at 2 4. now rewrite toLowerCase_idempotent.
Qed.

Lemma findIssuesByKeywords_lower keywords :
  findIssuesByKeywords (map JS.toLowerCase keywords) = findIssuesByKeywords keywords.
Proof.
  unfold findIssuesByKeywords, standardMatches.
  rewrite matchKeywords_lower.
  rewrite <- (toLowerCase_join keywords), toLowerCase_idempotent. reflexivity.
Qed.

(** X17.  [findIssuesByKeywords] does not look at letter case: keyword
    lists that agree once lowered give the same issues. *)
Theorem findIssuesByKeywords_ignores_case (keywords1 keywords2 : list string)
    (Hsame : map JS.toLowerCase keywords1 = map JS.toLowerCase keywords2) :
  findIssuesByKeywords keywords1 = findIssuesByKeywords keywords2.
Proof.
  rewrite <- (findIssuesByKeywords_lower keywords1), Hsame.
  apply findIssuesByKeywords_lower.
Qed.

Lemma findIssuesByKeywords_ignores_case_witness :
  findIssuesByKeywords ["Lower TAXES"; "Better Schools"]
  = findIssuesByKeywords ["lower taxes"; "better schools"].
Proof.
  apply (findIssuesByKeywords_ignores_case ["Lower TAXES"; "Better Schools"]
           ["lower taxes"; "better schools"]).
  reflexivity.
Defined.

End LetterCase.

(* ===================================================================== *)
(** * Priority Mapper: letter case                                        *)
(* ===================================================================== *)

Section PatternsAndCase.

Import PriorityMappingService Mapping LetterCase.

Lemma caseBlind_cat r1 r2 : caseBlind r1 -> caseBlind r2 -> caseBlind (Regex.cat r1 r2).
Proof. intros H1 H2. destruct r1, r2; simpl in *; tauto. Qed.

Lemma caseBlind_alt r1 r2 : caseBlind r1 -> caseBlind r2 -> caseBlind (Regex.alt r1 r2).
Proof. intros H1 H2. destruct r1, r2; simpl in *; tauto. Qed.

Lemma caseBlind_deriv c r : caseBlind r -> caseBlind (Regex.deriv c r).
Proof.
  induction r as [| | accept | r1 IH1 r2 IH2 | r1 IH1 r2 IH2 | r1 IH1]; simpl; intros H.
  - exact I.
  - exact I.
  - now destruct (accept c).
  - destruct H as [H1 H2]. destruct (Regex.nullable r1).
    + apply caseBlind_alt; [apply caseBlind_cat |]; auto.
    + apply caseBlind_cat; auto.
  - destruct H as [H1 H2]. apply caseBlind_alt; auto.
  - apply caseBlind_cat; auto.
Qed.

Lemma deriv_lowerChar c r :
  caseBlind r -> Regex.deriv (JS.lowerChar c) r = Regex.deriv c r.
Proof.
  induction r as [| | accept | r1 IH1 r2 IH2 | r1 IH1 r2 IH2 | r1 IH1]; simpl; intros H.
  - reflexivity.
  - reflexivity.
  - now rewrite H.
  - destruct H as [H1 H2]. now rewrite IH1, IH2.
  - destruct H as [H1 H2]. now rewrite IH1, IH2.
  - now rewrite IH1.
Qed.

Lemma matchesPrefix_toLowerCase s : forall r,
  caseBlind r -> Regex.matchesPrefix r (JS.toLowerCase s) = Regex.matchesPrefix r s.
Proof.
  induction s as [|c s IH]; intros r Hr; simpl; [reflexivity |].
  rewrite deriv_lowerChar by exact Hr.
  now rewrite IH by now apply caseBlind_deriv.
Qed.

Lemma test_toLowerCase r s :
  caseBlind r -> Regex.test r (JS.toLowerCase s) = Regex.test r s.
Proof.
  intros Hr. induction s as [|c s IH].
  - reflexivity.
  - change (JS.toLowerCase (String c s))
      with (String (JS.lowerChar c) (JS.toLowerCase s)).
    cbn [Regex.test]. rewrite IH.
    change (String (JS.lowerChar c) (JS.toLowerCase s))
      with (JS.toLowerCase (String c s)).
    now rewrite matchesPrefix_toLowerCase.
Qed.

Lemma caseBlind_wordI w : caseBlind (Regex.wordI w).
Proof.
  induction w as [|c w IH]; simpl; [exact I |].
  split; [| exact IH]. intros x. now rewrite lowerChar_idempotent.
Qed.

Lemma caseBlind_spaces : caseBlind Regex.spaces.
Proof. simpl. split; intros c; apply isWhiteSpace_lowerChar. Qed.

Lemma caseBlind_wordThenWord w r : caseBlind r -> caseBlind (wordThenWord w r).
Proof.
  intros Hr. unfold wordThenWord. cbn [caseBlind].
  split; [apply caseBlind_wordI |]. split; [apply caseBlind_spaces | exact Hr].
Qed.

Lemma patterns_caseBlind :
  Forall (fun ep => caseBlind (ep_pattern ep)) EXTREME_PRIORITY_PATTERNS.
Proof.
  unfold EXTREME_PRIORITY_PATTERNS.
  repeat (apply List.Forall_cons;
          [cbn [ep_pattern]; apply caseBlind_wordThenWord;
           first [apply caseBlind_wordI
                 | split; apply caseBlind_wordI] |]).
  apply List.Forall_nil.
Qed.

Lemma firstPattern_toLowerCase p : firstPattern (JS.toLowerCase p) = firstPattern p.
Proof.
  unfold firstPattern. pose proof patterns_caseBlind as H.
  induction H as [|ep eps Hep _ IH]; [reflexivity |].
  cbn [List.find]. now rewrite test_toLowerCase, IH.
Qed.

Lemma isBlank_toLowerCase p : isBlank (JS.toLowerCase p) = isBlank p.
Proof. unfold isBlank. now rewrite trim_toLowerCase, length_toLowerCase. Qed.

Lemma isValid_toLowerCase p : isValid (JS.toLowerCase p) = isValid p.
Proof.
  unfold isValid, isFlagged. now rewrite isBlank_toLowerCase, firstPattern_toLowerCase.
Qed.

Lemma flagOf_toLowerCase p :
  map flaggedOutline (flagOf (JS.toLowerCase p)) = map flaggedOutline (flagOf p).
Proof.
  unfold flagOf. rewrite isBlank_toLowerCase, firstPattern_toLowerCase.
  destruct (isBlank p); [reflexivity |].
  destruct (firstPattern p); [| reflexivity].
  unfold flaggedOutline. cbn. now rewrite toLowerCase_idempotent.
Qed.

End PatternsAndCase.

Section AnalysisAndCase.

Import MockData PriorityMappingService Mapping Tallies LetterCase.

Lemma mapValidPriority_toLowerCase p :
  mappedOutline (mapValidPriority (JS.toLowerCase p)) = mappedOutline (mapValidPriority p).
Proof.
  rewrite !mapValidPriority_cases. unfold mappedOutline.
  cbn [mp_userPriority mp_mappedIssues]. rewrite toLowerCase_idempotent.
  f_equal. destruct (JS.includes (JS.toLowerCase p) "climate"); [reflexivity |].
  change [JS.toLowerCase p] with (map JS.toLowerCase [p]).
  rewrite findIssuesByKeywords_lower, !map_map. reflexivity.
Qed.

Lemma cons_inj {A} (x y : A) l l' : x :: l = y :: l' -> x = y /\ l = l'.
Proof. intros H. now inversion H. Qed.

Lemma tally_outline counts mp1 mp2 :
  mappedOutline mp1 = mappedOutline mp2 -> tally counts mp1 = tally counts mp2.
Proof.
  unfold mappedOutline. intros [= Htext Hissues]. unfold tally. rewrite Htext.
  assert (Hcats :
    map (fun mi => iss_category (im_issue mi)) (mp_mappedIssues mp1)
    = map (fun mi => iss_category (im_issue mi)) (mp_mappedIssues mp2)).
  { apply (f_equal (map (fun entry : PoliticalIssue * Q => iss_category (fst entry))))
      in Hissues.
    now rewrite !map_map in Hissues. }
  now rewrite Hcats.
Qed.

Lemma tallies_outline mps1 : forall mps2 counts,
  map mappedOutline mps1 = map mappedOutline mps2 ->
  fold_left tally mps1 counts = fold_left tally mps2 counts.
Proof.
  induction mps1 as [|mp1 mps1 IH]; intros [|mp2 mps2] counts H;
    try discriminate; [reflexivity |].
  cbn [map] in H. apply cons_inj in H as [Hmp Hmps]. cbn [fold_left].
  rewrite (tally_outline counts mp1 mp2) by exact Hmp. now apply IH.
Qed.

Lemma dominantCategories_tally ps :
  dominantCategories (analyzePriorities ps)
  = map fst
      (firstn 3
         (JS.sortBy (fun a b => countQ b - countQ a)%Q
            (List.filter (fun entry => (0 <? snd entry)%nat)
               (categoryTally (analyzePriorities ps))))).
Proof.
  unfold categoryTally, analyzePriorities. rewrite classify_fold. reflexivity.
Qed.

Lemma allIssues_outline a1 a2 :
  map mappedOutline (mappedPriorities a1) = map mappedOutline (mappedPriorities a2) ->
  allIssues a1 = allIssues a2.
Proof.
  unfold allIssues. generalize (mappedPriorities a2).
  induction (mappedPriorities a1) as [|mp1 mps1 IH]; intros [|mp2 mps2] H;
    try discriminate; [reflexivity |].
  cbn [map] in H. apply cons_inj in H as [Hmp Hmps]. cbn [flat_map].
  rewrite (IH _ Hmps). f_equal.
  unfold mappedOutline in Hmp. injection Hmp as _ Hissues.
  apply (f_equal (map fst)) in Hissues. now rewrite !map_map in Hissues.
Qed.

Lemma filter_isValid_toLowerCase ps :
  List.filter isValid (map JS.toLowerCase ps) = map JS.toLowerCase (List.filter isValid ps).
Proof.
  induction ps as [|p ps IH]; [reflexivity |].
  cbn [map List.filter]. rewrite isValid_toLowerCase.
  destruct (isValid p); cbn [map]; now rewrite IH.
Qed.

Lemma mapped_toLowerCase ps :
  map mappedOutline (mappedPriorities (analyzePriorities (map JS.toLowerCase ps)))
  = map mappedOutline (mappedPriorities (analyzePriorities ps)).
Proof.
  rewrite !analyzePriorities_mapped, filter_isValid_toLowerCase, !map_map.
  apply map_ext. intros p. apply mapValidPriority_toLowerCase.
Qed.

Lemma flagged_toLowerCase ps :
  map flaggedOutline (flaggedPriorities (analyzePriorities (map JS.toLowerCase ps)))
  = map flaggedOutline (flaggedPriorities (analyzePriorities ps)).
Proof.
  rewrite !analyzePriorities_flagged.
  induction ps as [|p ps IH]; [reflexivity |].
  cbn [map flat_map]. now rewrite !map_app, flagOf_toLowerCase, IH.
Qed.

(** What of an analysis does not depend on how the texts are spelled is
    fixed by the outlines of its mapped priorities. *)
Lemma analysis_outline ps1 ps2 :
  map mappedOutline (mappedPriorities (analyzePriorities ps1))
  = map mappedOutline (mappedPriorities (analyzePriorities ps2)) ->
  dominantCategories (analyzePriorities ps1) = dominantCategories (analyzePriorities ps2)
  /\ potentialConflicts (analyzePriorities ps1) = potentialConflicts (analyzePriorities ps2).
Proof.
  intros H. split.
  - rewrite !dominantCategories_tally. unfold categoryTally.
    now rewrite (tallies_outline _ _ initialCategoryCounts H).
  - rewrite !potentialConflicts_detect. now rewrite (allIssues_outline _ _ H).
Qed.

(** X18.  The Priority Mapper does not look at letter case.  Two lists of
    priorities that agree once lowered are flagged alike (same types and
    reasons), are mapped to the same issues with the same confidences, and
    get the same dominant categories and the same conflicts; only the
    texts quoted back differ, and only in case. *)
Theorem analysis_ignores_letter_case (ps1 ps2 : list string)
    (Hsame : map JS.toLowerCase ps1 = map JS.toLowerCase ps2) :
  let a1 := analyzePriorities ps1 in
  let a2 := analyzePriorities ps2 in
  map mappedOutline (mappedPriorities a1) = map mappedOutline (mappedPriorities a2)
  /\ map flaggedOutline (flaggedPriorities a1) = map flaggedOutline (flaggedPriorities a2)
  /\ dominantCategories a1 = dominantCategories a2
  /\ potentialConflicts a1 = potentialConflicts a2.
Proof.
  intros a1 a2. subst a1 a2.
  assert (Hmapped :
    map mappedOutline (mappedPriorities (analyzePriorities ps1))
    = map mappedOutline (mappedPriorities (analyzePriorities ps2))).
  { rewrite <- (mapped_toLowerCase ps1), Hsame. apply mapped_toLowerCase. }
  split; [exact Hmapped |]. split.
  - rewrite <- (flagged_toLowerCase ps1), Hsame. apply flagged_toLowerCase.
  - now apply analysis_outline.
Qed.

Lemma analysis_ignores_letter_case_witness :
  let a1 := analyzePriorities ["Lower TAXES"; "Start a Trade War"] in
  let a2 := analyzePriorities ["lower taxes"; "start a trade war"] in
  map mappedOutline (mappedPriorities a1) = map mappedOutline (mappedPriorities a2)
  /\ map flaggedOutline (flaggedPriorities a1) = map flaggedOutline (flaggedPriorities a2)
  /\ dominantCategories a1 = dominantCategories a2
  /\ potentialConflicts a1 = potentialConflicts a2.
Proof.
  apply (analysis_ignores_letter_case ["Lower TAXES"; "Start a Trade War"]
           ["lower taxes"; "start a trade war"]).
  reflexivity.
Defined.

End AnalysisAndCase.

(* ===================================================================== *)
(** * Orchestrator: calls, cache and request across one call              *)
(* ===================================================================== *)

Section CallProtocol.

Import RecommendationService Orchestration Fixtures.

Variable svc : Services.

(** X19.  One call to [generateRecommendations] calls the collaborators
    in the order Priority Mapper, Candidate Matcher, Measure Matcher, each
    at most once and none after one that is skipped.  No collaborator is
    called exactly when the cache answers; the Candidate Matcher is called
    exactly when the cache does not answer and the mapper returns. *)
Theorem collaborators_called_in_order (w : World) :
  let after := snd (generateRecommendations svc w) in
  exists made,
    calls after = (calls w ++ made)%list
    /\ (made = [] \/ made = [PriorityMapper]
        \/ made = [PriorityMapper; CandidateMatcher]
        \/ made = [PriorityMapper; CandidateMatcher; MeasureMatcher])
    /\ (made = [] <-> cachedResult w <> None)
    /\ (In CandidateMatcher made
        <-> cachedResult w = None
            /\ exists a,
                 priorityMapper svc (priorities (effectiveRequest (request w)))
                 = Returned a).
Proof.
  intros after. subst after.
  destruct (run_cases svc w) as [r Hc | e Hc Hm | a e Hc Hm Hcm Hr | a Hc Hm c m Hor];
    cbn [snd calls].
  - exists []. rewrite app_nil_r. split; [reflexivity |]. split; [now left |]. split.
    + split; [intros _; congruence | reflexivity].
    + split; [intros [] | intros [H _]; congruence].
  - exists [PriorityMapper]. split; [reflexivity |]. split; [auto |]. split.
    + split; [discriminate | congruence].
    + split.
      * intros [H | []]. discriminate.
      * intros [_ [a Ha]]. congruence.
  - exists [PriorityMapper; CandidateMatcher]. split; [reflexivity |]. split; [auto |].
    split.
    + split; [discriminate | congruence].
    + split; [intros _; split; [exact Hc | now exists a] | intros _; right; now left].
  - exists [PriorityMapper; CandidateMatcher; MeasureMatcher].
    split; [reflexivity |]. split; [auto |]. split.
    + split; [discriminate | congruence].
    + split; [intros _; split; [exact Hc | now exists a] | intros _; right; now left].
Qed.

(** X20.  The cache is written at most once per key.  A call keeps every
    entry the cache holds, and an entry that is new after the call is the
    result the call has just returned, stored under the key of its
    request, which is not test traffic. *)
Theorem cache_entries_are_kept (w : World) :
  let run := generateRecommendations svc w in
  (forall key r, cache w !! key = Some r -> cache (snd run) !! key = Some r)
  /\ (forall key r,
        cache (snd run) !! key = Some r ->
        cache w !! key = Some r
        \/ (cache w !! key = None
            /\ key = cacheKey (request w)
            /\ isTestRequest (request w) = false
            /\ fst run = Returned r)).
Proof.
  intros run. subst run.
  destruct (run_cases svc w) as [r Hc | e Hc Hm | a e Hc Hm Hcm Hr | a Hc Hm c m Hor];
    cbn [snd fst cache]; try (split; intros key r0 H; [exact H | now left]).
  unfold cachedResult in Hc.
  destruct (isTestRequest (request w)) eqn:Ht;
    [split; intros key r0 H; [exact H | now left] |].
  split; intros key r0 H.
  - destruct (decide (key = cacheKey (request w))) as [-> | Hne]; [congruence |].
    now rewrite lookup_insert_ne.
  - destruct (decide (key = cacheKey (request w))) as [-> | Hne].
    + rewrite lookup_insert_eq in H. injection H as <-. right. auto.
    + rewrite lookup_insert_ne in H by congruence. now left.
Qed.

(** X21.  Test traffic leaves no trace but the calls: the request object
    keeps its priorities in the order given, the cache is neither read nor
    written, and the Priority Mapper is called whatever the cache holds. *)
Theorem test_traffic_bypasses_cache_and_sort (w : World)
    (Htest : isTestRequest (request w) = true) :
  let after := snd (generateRecommendations svc w) in
  request after = request w
  /\ cache after = cache w
  /\ callCount PriorityMapper after = S (callCount PriorityMapper w).
Proof.
  intros after. subst after.
  pose proof (cachedResult_test w Htest) as Hnone.
  split; [| split; [| now apply mapper_called_on_miss]].
  - destruct (run_cases svc w) as [r Hc | e Hc Hm | a e Hc Hm Hcm Hr | a Hc Hm c m Hor];
      cbn [snd request]; unfold effectiveRequest; rewrite ?Htest; congruence.
  - destruct (run_cases svc w) as [r Hc | e Hc Hm | a e Hc Hm Hcm Hr | a Hc Hm c m Hor];
      cbn [snd cache]; rewrite ?Htest; reflexivity.
Qed.

End CallProtocol.

Section CallProtocolWitness.

Import RecommendationService Orchestration Fixtures.

Lemma test_traffic_bypasses_cache_and_sort_witness :
  let w := nextCall {| priorities := ["zoning test"; "air"]; zipCode := "94110";
                       mode := current |}
             (afterFirst productionServices economyRequest) in
  let after := snd (generateRecommendations productionServices w) in
  request after = request w
  /\ cache after = cache w
  /\ callCount PriorityMapper after = S (callCount PriorityMapper w).
Proof.
  intros w.
  apply (test_traffic_bypasses_cache_and_sort productionServices w).
  reflexivity.
Defined.

End CallProtocolWitness.

(* ===================================================================== *)
(** * Orchestrator: the answer of the repository's own services           *)
(* ===================================================================== *)

Section ProductionAnswer.

Import RecommendationService Orchestration Mapping Matching Relevance Presentation.
Import PriorityMappingService CandidateMatchingService BallotMeasureService.

Lemma Sorted_map {A B} (f : A -> B) (R : A -> A -> Prop) (R' : B -> B -> Prop) l :
  (forall a b, R a b -> R' (f a) (f b)) -> Sorted R l -> Sorted R' (map f l).
Proof.
  intros Himp Hs. induction Hs as [|x l Hs IH Hhd]; simpl; constructor; [exact IH |].
  destruct Hhd; simpl; constructor. now apply Himp.
Qed.

Lemma cachedResult_fresh req : cachedResult (freshWorld req) = None.
Proof. unfold cachedResult. now destruct (isTestRequest _). Qed.

Lemma measuresFor_nonempty zip : measuresFor zip <> [].
Proof.
  unfold measuresFor.
  destruct (List.filter _ _) as [|measure located]; cbn [length Nat.ltb Nat.leb];
    discriminate.
Qed.

Lemma policies_of_analysis ps :
  topPolicies (generatePolicyRecommendations (analyzePriorities ps))
  = policiesFor (List.filter isValid ps).
Proof.
  unfold generatePolicyRecommendations. cbn [topPolicies].
  change (map mp_userPriority (mappedPriorities (analyzePriorities ps)))
    with (mappedTexts (analyzePriorities ps)).
  rewrite mappedTexts_eq. now destruct (List.filter isValid ps).
Qed.

(** X22.  With the three services of the repository, a call on a new
    instance answers in full: no error, the three candidates of the roster
    in descending order of the alignment score, at least one ballot measure
    in descending order of the relevance score, both as the program
    computes them in double arithmetic, and every collaborator called
    once.
    The policies listed are the priorities that are neither blank nor
    flagged, in sorted order unless the request is test traffic, or the
    placeholder when there is none. *)
Theorem production_call_answers_in_full (req : RecommendationRequest) :
  let run := generateRecommendations productionServices (freshWorld req) in
  exists r,
    fst run = Returned r
    /\ error r = None
    /\ Permutation (map pc_name (candidates r))
         (map cand_name TestHelpers.createMockCandidates)
    /\ Sorted (fun a b => (pc_alignmentScore b <=? pc_alignmentScore a)%float = true)
         (candidates r)
    /\ ballotMeasures r <> []
    /\ Sorted (fun a b => (pm_relevanceScore b <=? pm_relevanceScore a)%float = true)
         (ballotMeasures r)
    /\ topPolicies (policyRecommendations r)
       = policiesFor (List.filter isValid (priorities (effectiveRequest req)))
    /\ calls (snd run) = [PriorityMapper; CandidateMatcher; MeasureMatcher].
Proof.
  intros run. subst run.
  set (w := freshWorld req).
  set (a := analyzePriorities (priorities (effectiveRequest req))).
  assert (Hm : priorityMapper productionServices (priorities (effectiveRequest (request w)))
               = Returned a) by reflexivity.
  destruct (findRelevantMeasures_shape a (zipCode req) (measureOptions req))
    as (unsorted & Hms & Hall).
  assert (Hms' : ballotMeasureAnalyzer productionServices a (zipCode (request w))
                   (measureOptions (request w))
                 = Returned (JS.sortByNumber
                               (fun x y => (bmm_relevanceScore y - bmm_relevanceScore x)%float)
                               unsorted)) by exact Hms.
  rewrite (run_compiled productionServices w a (cachedResult_fresh req) Hm
             (or_introl eq_refl)).
  rewrite Hms'. unfold compiled.
  eexists. split; [reflexivity |].
  cbn [fst snd error candidates ballotMeasures policyRecommendations calls listOr thrownBy
         candidateErrorField candidateMatcher productionServices].
  split; [reflexivity |]. split; [| split; [| split; [| split; [| split]]]].
  - rewrite map_map. 
    change (fun x => pc_name (presentCandidate x)) with (fun x => cand_name (cm_candidate x)).
    rewrite <- (map_map cm_candidate cand_name). apply Permutation_map.
    unfold findMatchingCandidates.
    rewrite (Permutation_map cm_candidate (sortByNumber_Permutation _ _)), map_map.
    erewrite map_ext; [rewrite map_id; reflexivity |].
    apply matchCandidate_candidate.
  - apply (Sorted_map presentCandidate
             (fun x y => (cm_alignmentScore y <=? cm_alignmentScore x)%float = true));
      [intros x y H; exact H |].
    apply (sortByNumber_Sorted cm_alignmentScore). apply roster_matches_range.
  - intros Hnil. apply map_eq_nil in Hnil.
    assert (Hlen : length unsorted = 0%nat).
    { pose proof (Permutation_length
                    (sortByNumber_Permutation
                       (fun x y => (bmm_relevanceScore y - bmm_relevanceScore x)%float)
                       unsorted)) as Hl.
      rewrite Hnil in Hl. symmetry. exact Hl. }
    apply Forall2_length in Hall. rewrite Hlen in Hall.
    apply length_zero_iff_nil in Hall. now apply measuresFor_nonempty in Hall.
  - apply (Sorted_map presentMeasure
             (fun x y => (bmm_relevanceScore y <=? bmm_relevanceScore x)%float = true));
      [intros x y H; exact H |].
    apply (sortByNumber_Sorted bmm_relevanceScore).
    exact (measure_matches_range _ _ _ _ _ _ Hall).
  - apply policies_of_analysis.
  - reflexivity.
Qed.

End ProductionAnswer.

Section Links.

Import RecommendationService Presentation.

Lemma list_ascii_append a b :
  list_ascii_of_string (a ++ b) = (list_ascii_of_string a ++ list_ascii_of_string b)%list.
Proof.
  induction a as [|c a IH]; [reflexivity |].
  rewrite append_cons. simpl. now rewrite IH.
Qed.

Lemma noWhiteSpace_append a b : noWhiteSpace a -> noWhiteSpace b -> noWhiteSpace (a ++ b).
Proof.
  unfold noWhiteSpace. intros Ha Hb. rewrite list_ascii_append.
  apply List.Forall_app. now split.
Qed.

Lemma replaceWsFrom_noWhiteSpace rep s :
  noWhiteSpace rep -> forall inGap, noWhiteSpace (JS.replaceWsFrom inGap rep s).
Proof.
  intros Hrep. induction s as [|c s IH]; intros inGap; cbn [JS.replaceWsFrom].
  - constructor.
  - destruct (JS.isWhiteSpace c) eqn:Hc.
    + destruct inGap; [apply IH | apply noWhiteSpace_append; [exact Hrep | apply IH]].
    + unfold noWhiteSpace. cbn [list_ascii_of_string]. constructor; [exact Hc | apply IH].
Qed.

Lemma replaceWsFrom_toLowerCase rep s :
  JS.toLowerCase rep = rep -> forall inGap,
  JS.toLowerCase (JS.replaceWsFrom inGap rep s)
  = JS.replaceWsFrom inGap rep (JS.toLowerCase s).
Proof.
  intros Hrep. induction s as [|c s IH]; intros inGap;
    cbn [JS.replaceWsFrom JS.toLowerCase]; [reflexivity |].
  rewrite isWhiteSpace_lowerChar. destruct (JS.isWhiteSpace c).
  - destruct inGap; [apply IH |]. now rewrite toLowerCase_append, Hrep, IH.
  - cbn [JS.toLowerCase]. now rewrite IH.
Qed.

Lemma replaceWsFrom_plain rep s :
  noWhiteSpace s -> JS.replaceWsFrom false rep s = s.
Proof.
  unfold noWhiteSpace. induction s as [|c s IH]; cbn [list_ascii_of_string];
    intros H; [reflexivity |].
  inversion H as [|? ? Hc Hs]; subst. cbn [JS.replaceWsFrom]. rewrite Hc.
  now rewrite IH.
Qed.

Lemma noWhiteSpace_toLowerCase s : noWhiteSpace s -> noWhiteSpace (JS.toLowerCase s).
Proof.
  unfold noWhiteSpace. induction s as [|c s IH]; cbn [list_ascii_of_string JS.toLowerCase];
    intros H; [constructor |].
  inversion H as [|? ? Hc Hs]; subst.
  constructor; [now rewrite isWhiteSpace_lowerChar | now apply IH].
Qed.

(** X23.  The link built for a candidate starts with the site's address,
    holds no white space and no capital letter, whatever the candidate's
    name; for a name without white space it ends in the lowered name. *)
Theorem official_website_is_a_clean_link (m : CandidateMatch) :
  let link := pc_officialWebsite (presentCandidate m) in
  let name := cand_name (cm_candidate m) in
  JS.startsWith link "https://example.com/" = true
  /\ noWhiteSpace link
  /\ JS.toLowerCase link = link
  /\ (noWhiteSpace name -> link = "https://example.com/" ++ JS.toLowerCase name).
Proof.
  intros link name. subst link. cbn [presentCandidate pc_officialWebsite]. fold name.
  unfold JS.replaceWs.
  split; [apply startsWith_append |]. split; [| split].
  - apply noWhiteSpace_append.
    + unfold noWhiteSpace.
      repeat (apply List.Forall_cons; [reflexivity |]). apply List.Forall_nil.
    + apply replaceWsFrom_noWhiteSpace.
      apply List.Forall_cons; [reflexivity | apply List.Forall_nil].
  - rewrite toLowerCase_append, replaceWsFrom_toLowerCase by reflexivity.
    now rewrite toLowerCase_idempotent.
  - intros Hname. f_equal. apply replaceWsFrom_plain.
    now apply noWhiteSpace_toLowerCase.
Qed.

End Links.

(* ===================================================================== *)
(** * Orchestrator: the cache key                                         *)
(* ===================================================================== *)

Section KeyGeneration.

Import RecommendationService Orchestration.

Lemma generateCacheKey_key w : fst (generateCacheKey w) = Returned (cacheKey (request w)).
Proof. reflexivity. Qed.

Lemma Returned_inj {A} (x y : A) : Returned x = Returned y -> x = y.
Proof. intros H. now inversion H. Qed.

(** X24.  [generateCacheKey] gives two requests the same key exactly when
    they have the same priorities up to order (repetitions counted), the
    same location and the same mode.  It reorders the priorities of the
    request and touches neither the cache nor the collaborators, and
    running it again changes nothing and gives the same key. *)
Theorem cache_key_identifies_request (w1 w2 : World) :
  (fst (generateCacheKey w1) = fst (generateCacheKey w2)
   <-> Permutation (priorities (request w1)) (priorities (request w2))
       /\ zipCode (request w1) = zipCode (request w2)
       /\ mode (request w1) = mode (request w2))
  /\ request (snd (generateCacheKey w1)) = sortedRequest (request w1)
  /\ cache (snd (generateCacheKey w1)) = cache w1
  /\ calls (snd (generateCacheKey w1)) = calls w1
  /\ generateCacheKey (snd (generateCacheKey w1))
     = (fst (generateCacheKey w1), snd (generateCacheKey w1)).
Proof.
  split; [| split; [reflexivity | split; [reflexivity | split; [reflexivity |]]]].
  - rewrite !generateCacheKey_key. rewrite <- cacheKey_eq_iff.
    split; [apply Returned_inj | intros ->; reflexivity].
  - unfold generateCacheKey. cbn [fst snd request priorities zipCode mode cache calls].
    now rewrite sort_idempotent.
Qed.

End KeyGeneration.

(* ===================================================================== *)
(** * The examples of the test suite, replayed                            *)
(* ===================================================================== *)

Section TestSuite.

Import PriorityMappingService RecommendationService Orchestration Fixtures.

(** "should map priorities to relevant political issues" *)
Example maps_three_priorities :
  let analysis :=
    analyzePriorities ["I want lower taxes"; "Better public schools";
                       "Fix the roads in my neighborhood"] in
  length (mappedPriorities analysis) = 3%nat
  /\ dominantCategories analysis = [EDUCATION; ECONOMY; INFRASTRUCTURE].
Proof. vm_compute. split; reflexivity. Qed.

(** "should identify potential conflicts between priorities" *)
Example finds_tax_education_conflict :
  map cd_issues
    (potentialConflicts
       (analyzePriorities ["Lower taxes and reduce government spending";
                           "Increase funding for public education";
                           "Expand healthcare access for all"]))
  = [("taxes", "public_education")].
Proof. vm_compute. reflexivity. Qed.

(** "should handle errors gracefully" *)
Example candidate_failure_is_reported :
  match fst (generateRecommendations failingCandidates (freshWorld economyRequest)) with
  | Returned r =>
      candidates r = [] /\ error r = Some "Service unavailable"
      /\ length (ballotMeasures r) = 2%nat
  | Threw _ => False
  end.
Proof. vm_compute. repeat split; reflexivity. Qed.

(** "should cache results for identical requests" *)
Example identical_requests_are_served_once :
  calls (afterSecond productionServices economyRequest economyRequest)
  = [PriorityMapper; CandidateMatcher; MeasureMatcher].
Proof. vm_compute. reflexivity. Qed.

(** "should generate different recommendations based on mode" *)
Example another_mode_is_computed_again :
  calls (afterSecond productionServices economyRequest demoRequest)
  = [PriorityMapper; CandidateMatcher; MeasureMatcher;
     PriorityMapper; CandidateMatcher; MeasureMatcher].
Proof. vm_compute. reflexivity. Qed.

End TestSuite.
